(** * La Ruleta de la Pobla: a verification development

    Shallow embedding of the TypeScript client of the roulette game and of
    its sibling games (number guess, dice duel), together with a model of
    the on-chain session state machine the client talks to.

    Conventions.
    - A JavaScript [number] holding an integer is a [Z]; typed-array stores
      ([Uint8Array], [Uint32Array]) wrap modulo 2^8 and 2^32.
    - A JavaScript string is a [string] (or its [list ascii]), held as
      its UTF-8 bytes: a character outside ASCII is two to four bytes,
      none of them below 128.
    - [bigint] is [Z].
    - A function that can throw returns an explicit outcome.
    - Arrays that are updated by index are lists with stdpp's lookup and
      insert. *)

From Stdlib Require Import ZArith List Lia Bool Ascii String QArith Qround.
From Stdlib Require Import DecimalString DecimalN.
From stdpp Require Import base option list strings gmap.
Import ListNotations.

#[local] Open Scope Z_scope.

(** ** Decimal digit strings *)

Module Digits.

(** The class [\d] of a JavaScript regular expression: ASCII 0 to 9. *)
Definition is_digit (c : ascii) : bool :=
  (48 <=? nat_of_ascii c)%nat && (nat_of_ascii c <=? 57)%nat.

Definition is_dot (c : ascii) : bool := Ascii.eqb c "."%char.

(** The complement of the class [[^\d.]]. *)
Definition digit_or_dot (c : ascii) : bool := is_digit c || is_dot c.

Definition digit_val (c : ascii) : Z := Z.of_nat (nat_of_ascii c) - 48.

(** Value of a digit string read in base ten, most significant first;
    the empty string reads as 0, as [BigInt("")] does. *)
Definition dval (s : list ascii) : Z :=
  fold_left (fun acc c => 10 * acc + digit_val c) s 0.

Definition all_digits (s : list ascii) : bool := forallb is_digit s.

End Digits.

(** ** Wager amounts: [parsePoints]
  (NumberGuessGame and DiceDuelGame carry the same function) *)

Module Points.
Import Digits.

Definition POINTS_DECIMALS : nat := 7.

(** [value.replace(/[^\d.]/g, '')]: every character that is neither a
    digit nor a dot is dropped. *)
Definition clean (value : list ascii) : list ascii :=
  List.filter digit_or_dot value.

(** [cleaned.split('.')]: the pieces between dots; never empty. *)
Fixpoint split_dot (s : list ascii) : list (list ascii) :=
  match s with
  | [] => [[]]
  | c :: s' =>
      if is_dot c then [] :: split_dot s'
      else match split_dot s' with
           | piece :: rest => (c :: piece) :: rest
           | [] => [[c]]
           end
  end.

(** Array destructuring with a default: the default is taken only when
    the element is missing ([undefined]). *)
Definition destructure (parts : list (list ascii)) (i : nat)
    (default : list ascii) : list ascii :=
  match parts !! i with
  | Some piece => piece
  | None => default
  end.

(** [s.padEnd(n, '0')] *)
Definition padEnd (s : list ascii) (n : nat) : list ascii :=
  s ++ repeat "0"%char (n - length s).

(** [s.slice(0, n)] *)
Definition slice0 (s : list ascii) (n : nat) : list ascii := firstn n s.

(** [BigInt(s)] on strings made of digits and dots, the only ones
    [parsePoints] can build: a digit string (the empty one included)
    is read in base ten, and a dot is a SyntaxError ([None]). *)
Definition BigInt (s : list ascii) : option Z :=
  if all_digits s then Some (dval s) else None.

(** [fraction.padEnd(POINTS_DECIMALS, '0').slice(0, POINTS_DECIMALS)] *)
Definition padded (fraction : list ascii) : list ascii :=
  slice0 (padEnd fraction POINTS_DECIMALS) POINTS_DECIMALS.

Definition whole_of (cleaned : list ascii) : list ascii :=
  destructure (split_dot cleaned) 0 ["0"%char].

Definition fraction_of (cleaned : list ascii) : list ascii :=
  destructure (split_dot cleaned) 1 [].

(** The body of the [try] block: [inl tt] is a thrown exception,
    [inr r] a normal return of [r] ([None] is [null]). *)
Definition parsePoints_try (value : list ascii) : unit + option Z :=
  let cleaned := clean value in
  match cleaned with
  | [] => inr None
  | _ =>
      if decide (cleaned = ["."%char]) then inr None
      else
        let whole := whole_of cleaned in
        let fraction := fraction_of cleaned in
        let paddedFraction := padded fraction in
        match BigInt (whole ++ paddedFraction) with
        | Some n => inr (Some n)
        | None => inl tt
        end
  end.

(** [try { ... } catch { return null; }] *)
Definition parsePoints_chars (value : list ascii) : option Z :=
  match parsePoints_try value with
  | inr r => r
  | inl _ => None
  end.

Definition parsePoints (value : string) : option Z :=
  parsePoints_chars (list_ascii_of_string value).

(** The rational number written as [whole.fraction]. *)
Definition decimal_value (whole fraction : list ascii) : Q :=
  (inject_Z (dval whole)
   + Qmake (dval fraction) (Z.to_pos (10 ^ Z.of_nat (length fraction))))%Q.

(** A digit string after the dot, as a rational. *)
Definition after_dot (f : list ascii) : Q :=
  (inject_Z (dval f) / inject_Z (10 ^ Z.of_nat (length f)))%Q.

End Points.

(** ** The number a wager string spells
  The reference [parsePoints] is compared with: the number read off the
  string one character at a time, without cleaning or splitting it. *)

Module Numeral.

Inductive Kind : Type :=
| Digit (d : Z)
| Dot
| Other.

Definition kind (c : ascii) : Kind :=
  match c with
  | "0" => Digit 0 | "1" => Digit 1 | "2" => Digit 2 | "3" => Digit 3
  | "4" => Digit 4 | "5" => Digit 5 | "6" => Digit 6 | "7" => Digit 7
  | "8" => Digit 8 | "9" => Digit 9
  | "." => Dot
  | _ => Other
  end%char.

(** The decimals [0.d1d2...]: the digits from here to the next dot or
    the end of the string; other characters do not count. *)
Fixpoint decimals (s : list ascii) : Q :=
  match s with
  | [] => 0
  | c :: s' =>
      match kind c with
      | Digit d => (inject_Z d + decimals s') / 10
      | Dot => 0
      | Other => decimals s'
      end
  end.

(** The digits up to the first dot are the integral part, most
    significant first, carried in [integral]; the decimals follow the
    dot. *)
Fixpoint reading (s : list ascii) (integral : Z) : Q :=
  match s with
  | [] => inject_Z integral
  | c :: s' =>
      match kind c with
      | Digit d => reading s' (10 * integral + d)
      | Dot => inject_Z integral + decimals s'
      | Other => reading s' integral
      end
  end.

Definition written (s : list ascii) : Q := reading s 0.

Fixpoint digits_in (s : list ascii) : nat :=
  match s with
  | [] => 0
  | c :: s' =>
      match kind c with
      | Digit _ => S (digits_in s')
      | Dot => digits_in s'
      | Other => digits_in s'
      end
  end.

Fixpoint dots_in (s : list ascii) : nat :=
  match s with
  | [] => 0
  | c :: s' =>
      match kind c with
      | Dot => S (dots_in s')
      | Digit _ => dots_in s'
      | Other => dots_in s'
      end
  end.

(** A string that spells no number: not one digit, and at most one
    dot. *)
Definition no_number (s : list ascii) : bool :=
  (digits_in s =? 0)%nat && (dots_in s <=? 1)%nat.

End Numeral.

(** ** JavaScript numbers and typed arrays *)

Module JS.

(** [x >>> 0] and the store into a [Uint32Array]: ToUint32. *)
Definition ToUint32 (x : Z) : Z := x mod 2 ^ 32.

(** The store into a [Uint8Array]: ToUint8. *)
Definition ToUint8 (x : Z) : Z := x mod 2 ^ 8.

(** [a || b] on numbers: [a] unless it is 0 (the only falsy integer). *)
Definition or_else (a b : Z) : Z := if a =? 0 then b else a.

Definition is_u8 (b : Z) : Prop := 0 <= b < 256.

(** [new Uint8Array(n)] *)
Definition Uint8Array_new (n : nat) : list Z := repeat 0 n.

(** [target.set(source, offset)]: copies [source] into [target]; a source
    that does not fit is a RangeError ([None]). *)
Definition Uint8Array_set (target source : list Z) (offset : nat)
    : option (list Z) :=
  if (offset + length source <=? length target)%nat
  then Some (firstn offset target ++ List.map ToUint8 source
             ++ skipn (offset + length source) target)
  else None.

(** [a[i] = v] on a [Uint8Array]: the value wraps to a byte, and a store
    past the end is ignored. *)
Definition Uint8Array_store (a : list Z) (i : nat) (v : Z) : list Z :=
  <[i := ToUint8 v]> a.

(** The source of [crypto.getRandomValues]: the [i]-th raw value the
    generator hands out.  Nothing is assumed about it. *)
Definition entropy : Type := nat -> Z.

(** [crypto.getRandomValues(buffer)] on a [Uint8Array] of [n] bytes,
    reading the generator from position [from]. *)
Definition getRandomValues_u8 (rng : entropy) (from n : nat) : list Z :=
  List.map (fun i => ToUint8 (rng i)) (seq from n).

(** The same on a [Uint32Array] of one element: the value of
    [buffer[0]] afterwards. *)
Definition getRandomValues_u32 (rng : entropy) (from : nat) : Z :=
  ToUint32 (rng from).

End JS.

(** ** Session identifiers *)

Module SessionId.
Import JS.

(** What the page runs on: [crypto.getRandomValues] is there, or only
    [Math.random] is.  In the second case the integer-valued double
    [Math.floor(Math.random() * 0xffffffff)] is taken as it comes: the
    floating-point product is not modelled and nothing is assumed about
    its value. *)
Inductive platform : Type :=
| WithCrypto (rng : entropy)
| MathRandomOnly (floored : Z).

(** [while (value === 0) { crypto.getRandomValues(buffer);
    value = buffer[0]; }] started with [value = 0]: [drawn] counts the
    calls made so far, [fuel] bounds the calls still allowed. *)
Fixpoint draw_until_nonzero (rng : entropy) (fuel drawn : nat) : option Z :=
  match fuel with
  | O => None
  | S fuel' =>
      let value := getRandomValues_u32 rng drawn in
      if value =? 0 then draw_until_nonzero rng fuel' (S drawn)
      else Some value
  end.

(** [createRandomSessionId] of NumberGuessGame and DiceDuelGame.
    [None]: the loop is still running after [fuel] draws. *)
Definition createRandomSessionId (p : platform) (fuel : nat) : option Z :=
  match p with
  | WithCrypto rng => draw_until_nonzero rng fuel 0
  | MathRandomOnly floored => Some (or_else (ToUint32 floored) 1)
  end.

(** [getInitialSessionId] of ZkMafiaGame.  [fromUrl] is
    [params.get('session')] ([None] is [null]) and [Number] is the
    conversion of a string to a number, [None] for NaN. *)
Definition getInitialSessionId (Number : string -> option Z)
    (fromUrl : option string) (rng : entropy) : Z :=
  let fallback := or_else (getRandomValues_u32 rng 0) 1 in
  match fromUrl with
  | Some s =>
      if decide (s = EmptyString) then fallback
      else match Number s with
           | Some n => n
           | None => fallback
           end
  | None => fallback
  end.

End SessionId.

(** ** SHA-256 (FIPS 180-4), the digest behind
    [crypto.subtle.digest('SHA-256', _)] *)

Module Sha256.

Definition word (x : Z) : Z := x mod 2 ^ 32.

Definition add32 (x y : Z) : Z := word (x + y).

Definition rotr (n x : Z) : Z :=
  Z.lor (Z.shiftr x n) (word (Z.shiftl x (32 - n))).

Definition not32 (x : Z) : Z := Z.lxor x (2 ^ 32 - 1).

Definition Ch (x y z : Z) : Z :=
  Z.lxor (Z.land x y) (Z.land (not32 x) z).

Definition Maj (x y z : Z) : Z :=
  Z.lxor (Z.lxor (Z.land x y) (Z.land x z)) (Z.land y z).

Definition Sum0 (x : Z) : Z :=
  Z.lxor (Z.lxor (rotr 2 x) (rotr 13 x)) (rotr 22 x).

Definition Sum1 (x : Z) : Z :=
  Z.lxor (Z.lxor (rotr 6 x) (rotr 11 x)) (rotr 25 x).

Definition sig0 (x : Z) : Z :=
  Z.lxor (Z.lxor (rotr 7 x) (rotr 18 x)) (Z.shiftr x 3).

Definition sig1 (x : Z) : Z :=
  Z.lxor (Z.lxor (rotr 17 x) (rotr 19 x)) (Z.shiftr x 10).

(** The round constants and the initial hash value are the leading 32
    fractional bits of the cube roots and of the square roots of the
    first primes; they are computed here rather than listed. *)
Definition is_prime (n : nat) : bool :=
  (2 <=? n)%nat
  && forallb (fun d => negb (n mod d =? 0)%nat) (seq 2 (n - 2)).

Definition first_primes (count : nat) : list Z :=
  List.map Z.of_nat (firstn count (List.filter is_prime (seq 2 320))).

(** Largest [r] below 2^36 with [r^3 <= n], found bit by bit. *)
Definition cube_root (n : Z) : Z :=
  fold_left
    (fun r bit => let r' := r + 2 ^ Z.of_nat bit in
                  if r' * r' * r' <=? n then r' else r)
    (rev (seq 0 36)) 0.

Definition K : list Z :=
  Eval vm_compute in
    List.map (fun p => word (cube_root (p * 2 ^ 96))) (first_primes 64).

Definition H0 : list Z :=
  Eval vm_compute in
    List.map (fun p => word (Z.sqrt (p * 2 ^ 64))) (first_primes 8).

(** Big-endian bytes of a number, [n] of them. *)
Fixpoint be_bytes (n : nat) (x : Z) : list Z :=
  match n with
  | O => []
  | S n' => (x / 2 ^ (8 * Z.of_nat n')) mod 256 :: be_bytes n' x
  end.

Definition be_value (bytes : list Z) : Z :=
  fold_left (fun acc b => acc * 256 + b) bytes 0.

(** Padding: the bit 1, zeros up to 56 modulo 64 bytes, and the length of
    the message in bits on 8 bytes. *)
Definition pad (msg : list Z) : list Z :=
  let len := length msg in
  let zeros := ((64 - (len + 9) mod 64) mod 64)%nat in
  msg ++ [128] ++ repeat 0 zeros ++ be_bytes 8 (8 * Z.of_nat len).

(** The sixteen 32-bit words of each 64-byte block. *)
Fixpoint words_of (n : nat) (bytes : list Z) : list Z :=
  match n with
  | O => []
  | S n' => be_value (firstn 4 bytes) :: words_of n' (skipn 4 bytes)
  end.

Fixpoint blocks_of (n : nat) (bytes : list Z) : list (list Z) :=
  match n with
  | O => []
  | S n' => words_of 16 (firstn 64 bytes) :: blocks_of n' (skipn 64 bytes)
  end.

(** Message schedule, kept newest first: [W_t] is built from the words
    2, 7, 15 and 16 places back. *)
Fixpoint schedule (n : nat) (rev_w : list Z) : list Z :=
  match n with
  | O => rev_w
  | S n' =>
      let back i := nth i rev_w 0 in
      let w := add32 (add32 (sig1 (back 1%nat)) (back 6%nat))
                     (add32 (sig0 (back 14%nat)) (back 15%nat)) in
      schedule n' (w :: rev_w)
  end.

Definition state : Type := (Z * Z * Z * Z * Z * Z * Z * Z)%type.

Definition round (s : state) (kw : Z * Z) : state :=
  let '(a, b, c, d, e, f, g, h) := s in
  let '(k, w) := kw in
  let t1 := add32 (add32 (add32 h (Sum1 e)) (add32 (Ch e f g) k)) w in
  let t2 := add32 (Sum0 a) (Maj a b c) in
  (add32 t1 t2, a, b, c, add32 d t1, e, f, g).

Definition add_state (s t : state) : state :=
  let '(a, b, c, d, e, f, g, h) := s in
  let '(a', b', c', d', e', f', g', h') := t in
  (add32 a a', add32 b b', add32 c c', add32 d d',
   add32 e e', add32 f f', add32 g g', add32 h h').

Definition compress (s : state) (block : list Z) : state :=
  let w := rev (schedule 48 (rev block)) in
  add_state s (fold_left round (combine K w) s).

Definition initial : state :=
  let h i := nth i H0 0 in
  (h 0%nat, h 1%nat, h 2%nat, h 3%nat, h 4%nat, h 5%nat, h 6%nat, h 7%nat).

Definition state_bytes (s : state) : list Z :=
  let '(a, b, c, d, e, f, g, h) := s in
  be_bytes 4 a ++ be_bytes 4 b ++ be_bytes 4 c ++ be_bytes 4 d ++
  be_bytes 4 e ++ be_bytes 4 f ++ be_bytes 4 g ++ be_bytes 4 h.

(** The digest of a byte string: 32 bytes. *)
Definition sha256 (msg : list Z) : list Z :=
  let padded := pad msg in
  state_bytes
    (fold_left compress (blocks_of (length padded / 64) padded) initial).

(** Bytes written as a hexadecimal string, for reading digests. *)
Definition hex_digit (n : Z) : ascii :=
  nth (Z.to_nat n) (list_ascii_of_string "0123456789abcdef") "?"%char.

Definition hex (bytes : list Z) : string :=
  string_of_list_ascii
    (flat_map (fun b => [hex_digit (b / 16); hex_digit (b mod 16)]) bytes).

Definition bytes_of_string (s : string) : list Z :=
  List.map (fun c => Z.of_nat (nat_of_ascii c)) (list_ascii_of_string s).

End Sha256.

(** ** Client-side crypto helpers of [ZkMafiaService] *)

Module Commitment.
Import JS Sha256.

(** [generateSalt]: 32 random bytes. *)
Definition generateSalt (rng : entropy) : list Z :=
  getRandomValues_u8 rng 0 32.

(** [computeBulletCommitment(salt, position)]: the preimage is a fresh
    [Uint8Array(32 + 1)], [preimage.set(salt, 0)] copies the salt in and
    [preimage[32] = position] stores the position as one byte.
    [None]: [set] raised a RangeError (the salt does not fit). *)
Definition bullet_preimage (salt : list Z) (position : Z)
    : option (list Z) :=
  match Uint8Array_set (Uint8Array_new (32 + 1)) salt 0 with
  | Some preimage => Some (Uint8Array_store preimage 32 position)
  | None => None
  end.

Definition computeBulletCommitment (salt : list Z) (position : Z)
    : option (list Z) :=
  match bullet_preimage salt position with
  | Some preimage => Some (sha256 preimage)
  | None => None
  end.

(** [generateZkProof]: 32 random bytes, the first one set to 1 when all
    of them came out 0. *)
Definition generateZkProof (rng : entropy) : list Z :=
  let proof := getRandomValues_u8 rng 0 32 in
  if forallb (fun b => b =? 0) proof
  then Uint8Array_store proof 0 1
  else proof.

End Commitment.

(** ** The roulette session record and the contract's error codes
    (bindings.ts) *)

Module Ruleta.
Import JS Sha256.

Definition Address : Type := string.

Inductive Error : Type :=
| GameNotFound | NotPlayer | WrongPhase | NotYourTurn | GameAlreadyEnded
| LobbyFull | AlreadyJoined | PlayerEliminated | InvalidProof
| InvalidChamber | NotEnoughPlayers | AlreadyStarted.

Definition error_code (e : Error) : Z :=
  match e with
  | GameNotFound => 1 | NotPlayer => 2 | WrongPhase => 3 | NotYourTurn => 4
  | GameAlreadyEnded => 5 | LobbyFull => 6 | AlreadyJoined => 7
  | PlayerEliminated => 8 | InvalidProof => 9 | InvalidChamber => 10
  | NotEnoughPlayers => 11 | AlreadyStarted => 12
  end.

Definition PHASE_WAITING : Z := 0.
Definition PHASE_PLAYING : Z := 1.
Definition PHASE_FINISHED : Z := 2.
Definition NUM_CHAMBERS : Z := 6.

Record Jugador : Type := mkJugador {
  address : Address;
  is_alive : bool;
  points : Z
}.

Record PartidaRuleta : Type := mkPartida {
  bullet_commitment : list Z;
  bullet_position : Z;
  current_chamber : Z;
  current_turn : Z;
  eliminated : list Address;
  hub_player1 : Address;
  hub_player2 : Address;
  phase : Z;
  players : list Jugador;
  session_id : Z;
  shots_fired : Z;
  winner : option Address
}.

(** [Result<T>] of the bindings. *)
Inductive Result (A : Type) : Type :=
| ResOk (a : A)
| ResErr (e : Error).
Arguments ResOk {A} a.
Arguments ResErr {A} e.

(** The arguments of a contract invocation as the client submits them. *)
Inductive Invocation : Type :=
| Call_entrar_a_la_ruleta (session_id : Z) (player : Address) (points : Z)
| Call_cargar_revolver (session_id : Z) (player : Address)
    (bullet_commitment : list Z) (bullet_position : Z)
| Call_disparar (session_id : Z) (player : Address) (zk_proof : list Z).

(** [ZkMafiaService.cargarRevolver]: the invocation it builds, signs and
    sends. *)
Definition cargarRevolver (sessionId : Z) (player : Address)
    (bulletCommitment : list Z) (bulletPosition : Z) : Invocation :=
  Call_cargar_revolver sessionId player bulletCommitment bulletPosition.

(** [ZkMafiaService.disparar] *)
Definition disparar_call (sessionId : Z) (player : Address)
    (zkProof : list Z) : Invocation :=
  Call_disparar sessionId player zkProof.

(** [handleCargarRevolver] of ZkMafiaGame: a fresh salt, the position
    [pos] that [generateBulletPosition] picked, their commitment, and the
    call that goes out.  [None]: the commitment could not be computed. *)
Definition handleCargarRevolver (rng : entropy) (pos : Z) (sessionId : Z)
    (userAddress : Address) : option Invocation :=
  let salt := Commitment.generateSalt rng in
  match Commitment.computeBulletCommitment salt pos with
  | Some commitment => Some (cargarRevolver sessionId userAddress commitment pos)
  | None => None
  end.

Inductive ShotResult : Type := hit | miss.

(** What a trigger handler of ZkMafiaGame does when nothing throws: the
    outcome it plays the tension sequence for, then the call it sends,
    then the result it shows ([setLastShotResult]). *)
Record Trigger : Type := mkTrigger {
  animated : bool;
  sent : Invocation;
  lastShotResult : ShotResult
}.

(** [handleDisparar]: [game] is the session record the component last
    read ([None] is [null]); the outcome is computed from it before the
    call is made: [const isHit = currentChamber === bp]. *)
Definition handleDisparar (game : option PartidaRuleta) (rng : entropy)
    (sessionId : Z) (userAddress : Address) : option Trigger :=
  match game with
  | None => None
  | Some game =>
      let currentChamber := current_chamber game in
      let bp := bullet_position game in
      let isHit := currentChamber =? bp in
      let zkProof := Commitment.generateZkProof rng in
      Some (mkTrigger isHit (disparar_call sessionId userAddress zkProof)
              (if isHit then hit else miss))
  end.

(** How a call of [handleBotShot] ends: it returns before doing
    anything; or it plays the tension sequence for the outcome it
    computed and [createBotSigner] then throws, which the handler
    catches and shows as an error; or it goes on like [handleDisparar]. *)
Inductive BotShot : Type :=
| NotFired
| Stopped (isHit : bool)
| Fired (t : Trigger).

(** The outcome the tension sequence was played for, if it was played. *)
Definition played (shot : BotShot) : option bool :=
  match shot with
  | NotFired => None
  | Stopped isHit => Some isHit
  | Fired t => Some (animated t)
  end.

(** [game.players[turnIdx]]: [undefined] off the array, on either
    side. *)
Definition player_at (game : PartidaRuleta) (turnIdx : Z) : option Jugador :=
  if turnIdx <? 0 then None else players game !! Z.to_nat turnIdx.

(** [handleBotShot]: the same for the bot whose turn it is.
    [botAddress] is [createBotSigner] for bot player 2 or 3: [None] when
    it throws (the bot's secret is not configured), which happens after
    [playTensionSequence(isHit)] has run. *)
Definition handleBotShot (botAddress : Z -> option Address)
    (game : option PartidaRuleta) (rng : entropy) (sessionId : Z)
    : BotShot :=
  match game with
  | None => NotFired
  | Some game =>
      let turnIdx := current_turn game in
      match player_at game turnIdx with
      | None => NotFired
      | Some turnPlayer =>
          let currentChamber := current_chamber game in
          let bp := bullet_position game in
          let isHit := currentChamber =? bp in
          let zkProof := Commitment.generateZkProof rng in
          let botPlayerNum := if turnIdx =? 1 then 2 else 3 in
          match botAddress botPlayerNum with
          | None => Stopped isHit
          | Some bot =>
              Fired (mkTrigger isHit (disparar_call sessionId bot zkProof)
                       (if isHit then hit else miss))
          end
      end
  end.

(** What a simulated read-only call hands back to the service: an
    exception (transport, decoding, ...) or the contract's [Result]. *)
Inductive Simulation (A : Type) : Type :=
| Thrown
| Simulated (r : Result A).
Arguments Thrown {A}.
Arguments Simulated {A} r.

(** [ZkMafiaService.getGame]: [None] is [null]. *)
Definition getGame (sim : Simulation PartidaRuleta) : option PartidaRuleta :=
  match sim with
  | Simulated (ResOk game) => Some game
  | Simulated (ResErr _) => None
  | Thrown => None
  end.

(** [ZkMafiaService.whoIsAlive] *)
Definition whoIsAlive (sim : Simulation (list Address)) : list Address :=
  match sim with
  | Simulated (ResOk alive) => alive
  | Simulated (ResErr _) => []
  | Thrown => []
  end.

(** A read that did not succeed. *)
Definition is_failure {A : Type} (sim : Simulation A) : Prop :=
  match sim with
  | Simulated (ResOk _) => False
  | Simulated (ResErr _) => True
  | Thrown => True
  end.

(** A service read tells "not found" apart from the other failures when
    no other failure gives the caller what [GameNotFound] gives. *)
Definition tells_not_found_apart {A B : Type} (read : Simulation A -> B)
    : Prop :=
  forall sim : Simulation A,
    is_failure sim -> sim <> Simulated (ResErr GameNotFound) ->
    read sim <> read (Simulated (ResErr GameNotFound)).

(** The bullet position a submitted invocation carries in the clear. *)
Definition invocation_position (call : Invocation) : option Z :=
  match call with
  | Call_cargar_revolver _ _ _ position => Some position
  | Call_entrar_a_la_ruleta _ _ _ => None
  | Call_disparar _ _ _ => None
  end.

End Ruleta.

(** ** The roulette contract

    The Rust source of the contract (contracts/zk-mafia/src/lib.rs) is not
    in the frontend tree embedded above: this module is written from the
    specification, from the doc comments the generated bindings carry,
    and from the README and the game guide. *)

Module Contract.
Import JS Sha256 Ruleta.

(** Modelled from the spec: the two calls the contract makes into the
    lifecycle hub (the Session Escrow Service), which is external. *)
Inductive HubCall : Type :=
| start_game (session_id : Z) (player1 player2 : Address) (wager1 wager2 : Z)
| end_game (session_id : Z) (player1_won : bool).

(** Modelled from the spec: the contract's storage, which is missing;
    the sessions keyed by session id ([DataKey::Game(u32)]), and the
    record of the calls made into the hub. *)
Record World : Type := mkWorld {
  games : gmap Z PartidaRuleta;
  hub_calls : list HubCall
}.

(** Modelled from the spec: what a state-changing call of the missing
    contract comes to; it succeeds with a value and a new world, fails
    with one of the contract's errors, or traps (missing authorization,
    arithmetic overflow).  A call that does not succeed leaves the world
    as it was ("state transitions are all-or-nothing per call"). *)
Inductive outcome (A : Type) : Type :=
| Done (a : A) (w : World)
| Failed (e : Error)
| Trap.
Arguments Done {A} a w.
Arguments Failed {A} e.
Arguments Trap {A}.

Definition world_after {A : Type} (before : World) (o : outcome A) : World :=
  match o with
  | Done _ w => w
  | Failed _ => before
  | Trap => before
  end.

(** Modelled from the spec: the contract's read call [get_game] (its body
    is missing); "returning the full Session record (or a domain error if
    not found)". *)
Definition get_game (w : World) (session_id : Z) : Result PartidaRuleta :=
  match games w !! session_id with
  | Some game => ResOk game
  | None => ResErr GameNotFound
  end.

(** Modelled from the spec: the roulette alive-list of the missing
    contract, the addresses of the players still alive, in turn order. *)
Definition alive_addresses (ps : list Jugador) : list Address :=
  List.map address (List.filter is_alive ps).

(** Modelled from the spec: the contract's read call [who_is_alive] (its
    body is missing); "Get alive players", a derived value computed from
    stored state without mutation. *)
Definition who_is_alive (w : World) (session_id : Z) : Result (list Address) :=
  match games w !! session_id with
  | Some game => ResOk (alive_addresses (players game))
  | None => ResErr GameNotFound
  end.

(** Modelled from the spec: the contract's helper [compute_bullet_hash]
    (its body is missing); "Returns SHA256(salt_bytes || position_byte)",
    the position being a u32 cut to its low byte. *)
Definition compute_bullet_hash (salt : list Z) (position : Z) : list Z :=
  sha256 (salt ++ [position mod 256]).

(** Modelled from the spec: the lookup of a registered player in the
    missing contract; seat and record of the player with an address. *)
Fixpoint find_player (ps : list Jugador) (who : Address) (i : nat)
    : option (nat * Jugador) :=
  match ps with
  | [] => None
  | p :: rest =>
      if decide (address p = who) then Some (i, p)
      else find_player rest who (S i)
  end.

(** Modelled from the spec: whether the seat holds a player still alive
    (part of the missing turn logic). *)
Definition alive_at (ps : list Jugador) (i : nat) : bool :=
  match ps !! i with
  | Some p => is_alive p
  | None => false
  end.

(** Modelled from the spec: the missing turn cursor; "each alive player
    in turn order fires", so the turn goes to the next alive player
    after seat [from], going round the table. *)
Definition next_turn (ps : list Jugador) (from : nat) : nat :=
  let n := length ps in
  match List.find (alive_at ps)
          (List.map (fun k => ((from + k) mod n)%nat) (seq 1 n)) with
  | Some i => i
  | None => from
  end.

(** Modelled from the spec: the missing elimination step; the player is
    no longer alive. *)
Definition eliminate (p : Jugador) : Jugador :=
  mkJugador (address p) false (points p).

(** Modelled from the spec: the table of the missing contract once the
    player at [seat] has been hit. *)
Definition seats_after_hit (game : PartidaRuleta) (seat : nat) (p : Jugador)
    : list Jugador :=
  <[seat := eliminate p]> (players game).

(** Modelled from the spec: the missing counter arithmetic; "counter
    overflow on round/shot counters must fail closed, not wrap". *)
Definition checked_succ (x : Z) : option Z :=
  if x + 1 <? 2 ^ 32 then Some (x + 1) else None.

(** Modelled from the spec: the missing proof check of the contract;
    the README's "non-zero proof validation" refuses the all-zero proof. *)
Definition all_zero (bytes : list Z) : bool :=
  forallb (fun b => b =? 0) bytes.

(** Modelled from the spec: the contract's [cargar_revolver] (its body is
    missing).  A registered player of a session still in the lobby, with
    at least 2 players, stores the commitment and the bullet position,
    starts the game and registers the session with the hub.  The order of
    the checks is not given by the spec; no property below depends on
    it. *)
Definition cargar_revolver (auth : Address -> bool) (w : World)
    (session_id : Z) (player : Address)
    (commitment : list Z) (position : Z) : outcome unit :=
  if negb (auth player) then Trap else
  match games w !! session_id with
  | None => Failed GameNotFound
  | Some game =>
      if negb (phase game =? PHASE_WAITING) then Failed AlreadyStarted else
      match find_player (players game) player 0 with
      | None => Failed NotPlayer
      | Some _ =>
          if (length (players game) <? 2)%nat then Failed NotEnoughPlayers else
          if negb ((0 <=? position) && (position <? NUM_CHAMBERS))
          then Failed InvalidChamber else
          let wager i := match players game !! i with
                         | Some p => points p
                         | None => 0
                         end in
          let game' :=
            mkPartida commitment position 0 0 (eliminated game)
              (hub_player1 game) (hub_player2 game) PHASE_PLAYING
              (players game) (Ruleta.session_id game) 0 None in
          Done tt
            (mkWorld (<[session_id := game']> (games w))
               (hub_calls w ++ [start_game session_id (hub_player1 game)
                                  (hub_player2 game) (wager 0%nat) (wager 1%nat)]))
      end
  end.

(** A session in play has at least two players alive. *)
Definition in_play (game : PartidaRuleta) : Prop :=
  phase game = PHASE_PLAYING ->
  (2 <= length (alive_addresses (players game)))%nat.

Section Rules.

(** The spec fixes the new bullet chamber after an elimination as
    [hash(session_id ‖ shots_fired) mod 6] and leaves open how the two
    counters are laid out in bytes, how the digest is read as a number,
    and where the cylinder stands after the reload: the model takes the
    three as parameters. *)
Variable seed_bytes : Z -> Z -> list Z.
Variable digest_number : list Z -> Z.
Variable chamber_after_reload : Z -> Z.

(** Modelled from the spec: the missing reseeding of the contract;
    "a new bullet chamber is derived deterministically from
    [hash(session_id ‖ shots_fired_so_far) mod 6]". *)
Definition reload_position (session_id shots : Z) : Z :=
  digest_number (sha256 (seed_bytes session_id shots)) mod NUM_CHAMBERS.

(** Modelled from the spec: the session of the missing contract after a
    shot that missed; the cylinder moves on by one chamber and the turn
    passes to the next alive player. *)
Definition after_miss (game : PartidaRuleta) (seat : nat)
    (shots chamber : Z) : PartidaRuleta :=
  mkPartida (bullet_commitment game) (bullet_position game) chamber
    (Z.of_nat (next_turn (players game) seat)) (eliminated game)
    (hub_player1 game) (hub_player2 game) PHASE_PLAYING (players game)
    (session_id game) shots None.

(** Modelled from the spec: the session of the missing contract after a
    hit that leaves two or more players; the firer is out, the bullet
    moves to [reload_position], the shot counter keeps counting. *)
Definition after_reload (sid : Z) (game : PartidaRuleta) (seat : nat)
    (ps : list Jugador) (who : Address) (shots : Z) : PartidaRuleta :=
  mkPartida (bullet_commitment game)
    (reload_position sid shots)
    (chamber_after_reload (current_chamber game))
    (Z.of_nat (next_turn ps seat)) (eliminated game ++ [who])
    (hub_player1 game) (hub_player2 game) PHASE_PLAYING ps
    (session_id game) shots None.

(** Modelled from the spec: the session of the missing contract after a
    hit that leaves one player; that player wins. *)
Definition after_last_hit (game : PartidaRuleta) (ps : list Jugador)
    (who survivor : Address) (shots : Z) : PartidaRuleta :=
  mkPartida (bullet_commitment game) (bullet_position game)
    (current_chamber game) (current_turn game) (eliminated game ++ [who])
    (hub_player1 game) (hub_player2 game) PHASE_FINISHED ps
    (session_id game) shots (Some survivor).

(** Modelled from the spec: the contract's [disparar] (its body is
    missing).  "The current player pulls the trigger.  The contract
    determines whether this chamber holds the bullet (static cylinder).
    [current_chamber] increments each shot.  When it equals
    [bullet_position]: guaranteed death.  After elimination, if 2+
    players remain, the cylinder auto-reloads with a new deterministic
    bullet position for the next round.  Returns [true] if the player was
    hit (eliminated), [false] if survived."  The last survivor wins and
    the hub is told once.  An all-zero proof is refused.  The order of
    the checks is not given by the spec; no property below depends on
    it. *)
Definition disparar (auth : Address -> bool) (w : World)
    (session_id : Z) (player : Address) (zk_proof : list Z) : outcome bool :=
  if negb (auth player) then Trap else
  match games w !! session_id with
  | None => Failed GameNotFound
  | Some game =>
      if phase game =? PHASE_FINISHED then Failed GameAlreadyEnded else
      if negb (phase game =? PHASE_PLAYING) then Failed WrongPhase else
      match find_player (players game) player 0 with
      | None => Failed NotPlayer
      | Some (seat, p) =>
          if negb (is_alive p) then Failed PlayerEliminated else
          if negb (Z.of_nat seat =? current_turn game) then Failed NotYourTurn else
          if all_zero zk_proof then Failed InvalidProof else
          match checked_succ (shots_fired game) with
          | None => Trap
          | Some shots =>
              if current_chamber game =? bullet_position game then
                let ps := seats_after_hit game seat p in
                match alive_addresses ps with
                | [] => Trap
                | [survivor] =>
                    Done true
                      (mkWorld
                         (<[session_id :=
                              after_last_hit game ps player survivor shots]>
                            (games w))
                         (hub_calls w ++
                            [end_game session_id
                               (bool_decide (survivor = hub_player1 game))]))
                | _ :: _ :: _ =>
                    Done true
                      (mkWorld
                         (<[session_id :=
                              after_reload session_id game seat ps player
                                shots]>
                            (games w))
                         (hub_calls w))
                end
              else
                match checked_succ (current_chamber game) with
                | None => Trap
                | Some chamber =>
                    Done false
                      (mkWorld
                         (<[session_id := after_miss game seat shots chamber]>
                            (games w))
                         (hub_calls w))
                end
          end
      end
  end.

End Rules.

(** Modelled from the spec: one way to fill in the choices the spec
    leaves open in the missing contract, used for worked examples; both
    counters on four big-endian bytes, the digest read as a big-endian
    number, the cylinder back at chamber 0 after a reload. *)
Definition seed_bytes_be (session_id shots : Z) : list Z :=
  be_bytes 4 session_id ++ be_bytes 4 shots.

Definition disparar_be : (Address -> bool) -> World -> Z -> Address ->
                         list Z -> outcome bool :=
  disparar seed_bytes_be be_value (fun _ => 0).

End Contract.

(** ** A table of three, for worked examples *)

Module Scenario.
Import JS Sha256 Ruleta Contract.

Definition alice : Address := "GALICE"%string.
Definition bob : Address := "GBOB"%string.
Definition carol : Address := "GCAROL"%string.

Definition everyone (a : Address) : bool := true.

Definition sitting (a : Address) : Jugador := mkJugador a true 0.

(** Session 7 in the lobby, three players registered. *)
Definition lobby : PartidaRuleta :=
  mkPartida [] 0 0 0 [] alice bob PHASE_WAITING
    [sitting alice; sitting bob; sitting carol] 7 0 None.

Definition opened : World := mkWorld {[ 7 := lobby ]} [].

Definition salt : list Z := repeat 0 32.

Definition proof : list Z := 1 :: repeat 0 31.

(** The host loads the revolver with the bullet in chamber [position]. *)
Definition loaded (position : Z) : World :=
  match Commitment.computeBulletCommitment salt position with
  | Some commitment =>
      world_after opened
        (cargar_revolver everyone opened 7 alice commitment position)
  | None => opened
  end.

Definition shoot (w : World) (who : Address) : outcome bool :=
  disparar_be everyone w 7 who proof.

Definition returned {A : Type} (o : outcome A) : option A :=
  match o with
  | Done a _ => Some a
  | Failed _ => None
  | Trap => None
  end.

(** Bullet in chamber 2; alice, bob and carol fire in turn. *)
Definition after_shot1 : World := world_after (loaded 2) (shoot (loaded 2) alice).
Definition after_shot2 : World := world_after after_shot1 (shoot after_shot1 bob).
Definition after_shot3 : World := world_after after_shot2 (shoot after_shot2 carol).

(** The record of session 7. *)
Definition on_table (w : World) : PartidaRuleta :=
  match games w !! 7 with
  | Some game => game
  | None => lobby
  end.

(** What any player reads of session 7 through the service. *)
Definition read (w : World) : option PartidaRuleta :=
  getGame (Simulated (get_game w 7)).

End Scenario.

(** ** Splicing a signed authorization into a transaction
    (authEntryUtils.ts) *)

Module AuthEntry.

Definition Address : Type := string.

(** The credentials of an authorization entry.  [CredUnreadable] stands
    for an entry whose inspection throws, which the scanning loop guards
    against with [try ... catch ... continue]. *)
Inductive Credentials : Type :=
| sorobanCredentialsSourceAccount
| sorobanCredentialsAddress (address : Address)
| CredUnreadable.

Record Entry : Type := mkEntry {
  credentials : Credentials;
  rootInvocation : string;
  signature : option (list Z);
  signatureExpirationLedger : Z
}.

(** What the wallet is asked to sign for an entry. *)
Record Preimage : Type := mkPreimage {
  pre_networkPassphrase : string;
  pre_expiration : Z;
  pre_invocation : string
}.

Inductive SignResult : Type :=
| Signed (signedAuthEntry : list Z)
| SignError (message : string).

(** [player2Signer]: [signAuthEntry] may be missing; it is handed the
    preimage and the address it signs for. *)
Record Signer : Type := mkSigner {
  signAuthEntry : option (Preimage -> Address -> SignResult)
}.

(** The assembled transaction: [simulationData?.result?.auth] ([None]
    when any link of the chain is missing) and its options. *)
Record Tx : Type := mkTx {
  auth : option (list Entry);
  rpcUrl : string;
  networkPassphrase : string
}.

Inductive Exn : Type :=
| Error (message : string)
| LibraryError.

(** A call ends by returning or throwing; either way the transaction
    object is left in some state, since its array of entries is updated
    in place. *)
Inductive Completion : Type :=
| Returned
| Threw (e : Exn).

Definition has_address (a : Address) (e : Entry) : Prop :=
  credentials e = sorobanCredentialsAddress a.

(** The entry at [i] satisfies [P] and no later one does. *)
Definition is_last_with (P : Entry -> Prop) (entries : list Entry) (i : nat)
    : Prop :=
  (exists e : Entry, entries !! i = Some e /\ P e) /\
  forall (k : nat) (e : Entry),
    (i < k)%nat -> entries !! k = Some e -> ~ P e.

(** The three variables of the scanning loop; [None] is the index -1. *)
Record Found : Type := mkFound {
  player1StubIndex : option nat;
  player2AuthEntry : option Entry;
  player2Index : option nat
}.

Definition nothing_found : Found := mkFound None None None.

(** One turn of [for (let i = 0; i < authEntries.length; i++)]. *)
Definition scan_entry (player1AddressString player2Address : Address)
    (i : nat) (entry : Entry) (found : Found) : Found :=
  match credentials entry with
  | sorobanCredentialsAddress entryAddressString =>
      if decide (entryAddressString = player1AddressString)
      then mkFound (Some i) (player2AuthEntry found) (player2Index found)
      else if decide (entryAddressString = player2Address)
      then mkFound (player1StubIndex found) (Some entry) (Some i)
      else found
  | sorobanCredentialsSourceAccount => found
  | CredUnreadable => found
  end.

Fixpoint scan (player1AddressString player2Address : Address)
    (entries : list Entry) (i : nat) (found : Found) : Found :=
  match entries with
  | [] => found
  | entry :: rest =>
      scan player1AddressString player2Address rest (S i)
        (scan_entry player1AddressString player2Address i entry found)
  end.

(** What [authorizeEntry] of the SDK has signed for an entry, and the
    entry it hands back once it holds a signature: the same credentials
    and invocation, with the signature and its expiration. *)
Definition preimage_of (entry : Entry) (validUntil : Z) (network : string)
    : Preimage :=
  mkPreimage network validUntil (rootInvocation entry).

Definition authorized (entry : Entry) (sig : list Z) (validUntil : Z) : Entry :=
  mkEntry (credentials entry) (rootInvocation entry) (Some sig) validUntil.

Definition with_auth (tx : Tx) (entries : list Entry) : Tx :=
  mkTx (Some entries) (rpcUrl tx) (networkPassphrase tx).

Definition no_stub_message : string :=
  "Could not find Player 1 stub entry in transaction".

Section Inject.

(** [xdr.SorobanAuthorizationEntry.fromXDR(_, 'base64')], [None] when it
    throws; the ledger bound [calculateValidUntilLedger] computes for
    an RPC endpoint, [None] when the call fails; and the SDK's check of
    a signature over a preimage against the key of an address,
    [Keypair.fromPublicKey(address).verify(hash(preimage), signature)]. *)
Variable fromXDR : string -> option Entry.
Variable calculateValidUntilLedger : string -> option Z.
Variable verify : Address -> Preimage -> list Z -> bool.

(** [authorizeEntry(entry, signer, validUntil, networkPassphrase)] of the
    SDK.  An entry with source-account credentials is handed back as it
    is.  For one with address credentials the signer is called on the
    preimage, and what it returns is verified against the key of the
    entry's address: the call throws when the signer does and when the
    signature does not verify, and hands back the signed entry
    otherwise. *)
Definition authorizeEntry (entry : Entry) (signer : Preimage -> Exn + list Z)
    (validUntil : Z) (network : string) : Exn + Entry :=
  match credentials entry with
  | sorobanCredentialsSourceAccount => inr entry
  | CredUnreadable => inl LibraryError
  | sorobanCredentialsAddress address =>
      let preimage := preimage_of entry validUntil network in
      match signer preimage with
      | inl e => inl e
      | inr sig =>
          if verify address preimage sig
          then inr (authorized entry sig validUntil)
          else inl LibraryError
      end
  end.

Definition injectSignedAuthEntry (tx : Tx) (player1AuthEntryXDR : string)
    (player2Address : Address) (player2Signer : Signer)
    (validUntilLedgerSeq : option Z) : Completion * Tx :=
  match fromXDR player1AuthEntryXDR with
  | None => (Threw LibraryError, tx)
  | Some player1SignedAuthEntry =>
  match credentials player1SignedAuthEntry with
  | sorobanCredentialsSourceAccount => (Threw LibraryError, tx)
  | CredUnreadable => (Threw LibraryError, tx)
  | sorobanCredentialsAddress player1AddressString =>
  match auth tx with
  | None =>
      (Threw (Error "No auth entries found in transaction simulation"), tx)
  | Some authEntries =>
  let found :=
    scan player1AddressString player2Address authEntries 0 nothing_found in
  match player1StubIndex found with
  | None => (Threw (Error no_stub_message), tx)
  | Some p1 =>
  let authEntries := <[p1 := player1SignedAuthEntry]> authEntries in
  match player2AuthEntry found, player2Index found with
  | Some p2entry, Some p2 =>
      match signAuthEntry player2Signer with
      | None =>
          (Threw (Error "signAuthEntry function not available"),
           with_auth tx authEntries)
      | Some sign =>
          let validUntil :=
            match validUntilLedgerSeq with
            | Some v => Some v
            | None => calculateValidUntilLedger (rpcUrl tx)
            end in
          match validUntil with
          | None => (Threw LibraryError, with_auth tx authEntries)
          | Some authValidUntilLedgerSeq =>
              match
                authorizeEntry p2entry
                  (fun preimage =>
                     match sign preimage player2Address with
                     | SignError message =>
                         inl (Error ("Failed to sign auth entry: " ++ message))
                     | Signed signedAuthEntry => inr signedAuthEntry
                     end)
                  authValidUntilLedgerSeq (networkPassphrase tx)
              with
              | inl e => (Threw e, with_auth tx authEntries)
              | inr player2SignedAuthEntry =>
                  (Returned,
                   with_auth tx
                     (<[p2 := player2SignedAuthEntry]> authEntries))
              end
          end
      end
  | _, _ => (Returned, with_auth tx authEntries)
  end
  end
  end
  end
  end.

End Inject.

End AuthEntry.

(** ** Importing Player 1's authorization
    (NumberGuessGame and DiceDuelGame carry the same code, up to the
    phase the game starts in) *)

Module ImportFlow.

Definition Address : Type := string.

(** What [parseAuthEntry] recovers from the artifact. *)
Record GameParams : Type := mkGameParams {
  sessionId : Z;
  player1 : Address;
  player1Points : Z
}.

(** A thrown value: an [Error] with its message, or something else. *)
Inductive Thrown : Type :=
| ErrorObj (message : string)
| NotAnError.

Inductive CreateMode : Type := mode_create | mode_import | mode_load.

Inductive GamePhase : Type :=
| phase_create | phase_guess | phase_roll | phase_reveal | phase_complete.

(** The slice of the component's state the import touches. *)
Record UI : Type := mkUI {
  createMode : CreateMode;
  importAuthEntryXDR : string;
  importPlayer2Points : string;
  importSessionId : string;
  importPlayer1 : string;
  importPlayer1Points : string;
  xdrParsing : bool;
  xdrParseError : option string;
  xdrParseSuccess : bool;
  loading : bool;
  quickstartLoading : bool;
  error : option string;
  success : option string;
  currentSessionId : Z;
  gamePhase : GamePhase;
  actionLock : bool
}.

(** What leaves the component: the wallet is asked to sign, a transaction
    is submitted, the parent is asked to refresh. *)
Inductive Effect : Type :=
| SignAuthEntries (authEntryXDR : string) (player2 : Address) (points : Z)
| SubmitTransaction (txXDR : string) (player2 : Address)
| StandingsRefresh.

(** Handlers run in a monad of state, effects and exceptions. *)
Definition M (A : Type) : Type :=
  UI -> list Effect -> (Thrown + A) * UI * list Effect.

Definition ret {A : Type} (a : A) : M A := fun ui log => (inr a, ui, log).

Definition bind {A B : Type} (m : M A) (k : A -> M B) : M B :=
  fun ui log =>
    match m ui log with
    | (inr a, ui', log') => k a ui' log'
    | (inl e, ui', log') => (inl e, ui', log')
    end.

Definition throw {A : Type} (e : Thrown) : M A := fun ui log => (inl e, ui, log).

Definition set (f : UI -> UI) : M unit := fun ui log => (inr tt, f ui, log).

Definition emit (e : Effect) : M unit := fun ui log => (inr tt, ui, log ++ [e]).

Definition lift {A : Type} (r : Thrown + A) : M A := fun ui log => (r, ui, log).

(** [try { body } catch (err) { handler(err) } finally { last }] *)
Definition try_catch_finally (body : M unit) (handler : Thrown -> M unit)
    (last : M unit) : M unit :=
  fun ui log =>
    match body ui log with
    | (inr tt, ui', log') => last ui' log'
    | (inl e, ui', log') => bind (handler e) (fun _ => last) ui' log'
    end.

Definition when (b : bool) (m : M unit) : M unit := if b then m else ret tt.

#[global] Instance handler_ret : MRet M := @ret.
#[global] Instance handler_bind : MBind M := fun A B k m => bind m k.

(** Setters of the state hooks. *)
Definition setLoading (b : bool) (ui : UI) : UI :=
  mkUI (createMode ui) (importAuthEntryXDR ui) (importPlayer2Points ui)
    (importSessionId ui) (importPlayer1 ui) (importPlayer1Points ui)
    (xdrParsing ui) (xdrParseError ui) (xdrParseSuccess ui) b
    (quickstartLoading ui) (error ui) (success ui) (currentSessionId ui)
    (gamePhase ui) (actionLock ui).

Definition setError (e : option string) (ui : UI) : UI :=
  mkUI (createMode ui) (importAuthEntryXDR ui) (importPlayer2Points ui)
    (importSessionId ui) (importPlayer1 ui) (importPlayer1Points ui)
    (xdrParsing ui) (xdrParseError ui) (xdrParseSuccess ui) (loading ui)
    (quickstartLoading ui) e (success ui) (currentSessionId ui)
    (gamePhase ui) (actionLock ui).

Definition setSuccess (s : option string) (ui : UI) : UI :=
  mkUI (createMode ui) (importAuthEntryXDR ui) (importPlayer2Points ui)
    (importSessionId ui) (importPlayer1 ui) (importPlayer1Points ui)
    (xdrParsing ui) (xdrParseError ui) (xdrParseSuccess ui) (loading ui)
    (quickstartLoading ui) (error ui) s (currentSessionId ui)
    (gamePhase ui) (actionLock ui).

(** [setImportSessionId], [setImportPlayer1], [setImportPlayer1Points] *)
Definition setImported (sid p1 pts : string) (ui : UI) : UI :=
  mkUI (createMode ui) (importAuthEntryXDR ui) (importPlayer2Points ui)
    sid p1 pts
    (xdrParsing ui) (xdrParseError ui) (xdrParseSuccess ui) (loading ui)
    (quickstartLoading ui) (error ui) (success ui) (currentSessionId ui)
    (gamePhase ui) (actionLock ui).

(** [setXdrParsing], [setXdrParseError], [setXdrParseSuccess] *)
Definition setXdrParsing (b : bool) (ui : UI) : UI :=
  mkUI (createMode ui) (importAuthEntryXDR ui) (importPlayer2Points ui)
    (importSessionId ui) (importPlayer1 ui) (importPlayer1Points ui)
    b (xdrParseError ui) (xdrParseSuccess ui) (loading ui)
    (quickstartLoading ui) (error ui) (success ui) (currentSessionId ui)
    (gamePhase ui) (actionLock ui).

Definition setXdrParseError (e : option string) (ui : UI) : UI :=
  mkUI (createMode ui) (importAuthEntryXDR ui) (importPlayer2Points ui)
    (importSessionId ui) (importPlayer1 ui) (importPlayer1Points ui)
    (xdrParsing ui) e (xdrParseSuccess ui) (loading ui)
    (quickstartLoading ui) (error ui) (success ui) (currentSessionId ui)
    (gamePhase ui) (actionLock ui).

Definition setXdrParseSuccess (b : bool) (ui : UI) : UI :=
  mkUI (createMode ui) (importAuthEntryXDR ui) (importPlayer2Points ui)
    (importSessionId ui) (importPlayer1 ui) (importPlayer1Points ui)
    (xdrParsing ui) (xdrParseError ui) b (loading ui)
    (quickstartLoading ui) (error ui) (success ui) (currentSessionId ui)
    (gamePhase ui) (actionLock ui).

Definition setSessionId (sid : Z) (ui : UI) : UI :=
  mkUI (createMode ui) (importAuthEntryXDR ui) (importPlayer2Points ui)
    (importSessionId ui) (importPlayer1 ui) (importPlayer1Points ui)
    (xdrParsing ui) (xdrParseError ui) (xdrParseSuccess ui) (loading ui)
    (quickstartLoading ui) (error ui) (success ui) sid
    (gamePhase ui) (actionLock ui).

Definition setGamePhase (ph : GamePhase) (ui : UI) : UI :=
  mkUI (createMode ui) (importAuthEntryXDR ui) (importPlayer2Points ui)
    (importSessionId ui) (importPlayer1 ui) (importPlayer1Points ui)
    (xdrParsing ui) (xdrParseError ui) (xdrParseSuccess ui) (loading ui)
    (quickstartLoading ui) (error ui) (success ui) (currentSessionId ui)
    ph (actionLock ui).

Definition setImportAuthEntryXDR (xdr : string) (ui : UI) : UI :=
  mkUI (createMode ui) xdr (importPlayer2Points ui)
    (importSessionId ui) (importPlayer1 ui) (importPlayer1Points ui)
    (xdrParsing ui) (xdrParseError ui) (xdrParseSuccess ui) (loading ui)
    (quickstartLoading ui) (error ui) (success ui) (currentSessionId ui)
    (gamePhase ui) (actionLock ui).

Definition setImportPlayer2Points (pts : string) (ui : UI) : UI :=
  mkUI (createMode ui) (importAuthEntryXDR ui) pts
    (importSessionId ui) (importPlayer1 ui) (importPlayer1Points ui)
    (xdrParsing ui) (xdrParseError ui) (xdrParseSuccess ui) (loading ui)
    (quickstartLoading ui) (error ui) (success ui) (currentSessionId ui)
    (gamePhase ui) (actionLock ui).

(** [actionLock.current = b] *)
Definition setActionLock (b : bool) (ui : UI) : UI :=
  mkUI (createMode ui) (importAuthEntryXDR ui) (importPlayer2Points ui)
    (importSessionId ui) (importPlayer1 ui) (importPlayer1Points ui)
    (xdrParsing ui) (xdrParseError ui) (xdrParseSuccess ui) (loading ui)
    (quickstartLoading ui) (error ui) (success ui) (currentSessionId ui)
    (gamePhase ui) b.

(** The white space and line terminators of ECMAScript, which are the
    characters [trim] strips, each by its UTF-8 bytes (strings are held
    as their UTF-8 bytes): U+0009 to U+000D, U+0020, U+00A0, U+1680,
    U+2000 to U+200A, U+2028, U+2029, U+202F, U+205F, U+3000, U+FEFF. *)
Definition white_space : list (list nat) :=
  [ [9]; [10]; [11]; [12]; [13]; [32];
    [194; 160];
    [225; 154; 128];
    [226; 128; 128]; [226; 128; 129]; [226; 128; 130]; [226; 128; 131];
    [226; 128; 132]; [226; 128; 133]; [226; 128; 134]; [226; 128; 135];
    [226; 128; 136]; [226; 128; 137]; [226; 128; 138];
    [226; 128; 168]; [226; 128; 169];
    [226; 128; 175];
    [226; 129; 159];
    [227; 128; 128];
    [239; 187; 191] ]%nat.

(** What follows the bytes [bytes] at the head of [s], if [s] starts
    with them. *)
Fixpoint after (bytes : list nat) (s : list ascii) : option (list ascii) :=
  match bytes, s with
  | [], _ => Some s
  | n :: bytes', c :: s' =>
      if (nat_of_ascii c =? n)%nat then after bytes' s' else None
  | _ :: _, [] => None
  end.

(** What follows the first character of [s], if it is one of
    [spaces]. *)
Definition after_space (spaces : list (list nat)) (s : list ascii)
    : option (list ascii) :=
  fold_right
    (fun bytes found =>
       match after bytes s with
       | Some rest => Some rest
       | None => found
       end)
    None spaces.

(** [s] without the characters of [spaces] it starts with; [fuel] bounds
    the number of characters dropped, and the length of [s] is enough. *)
Fixpoint drop_spaces (spaces : list (list nat)) (fuel : nat) (s : list ascii)
    : list ascii :=
  match fuel with
  | O => s
  | S fuel' =>
      match after_space spaces s with
      | Some rest => drop_spaces spaces fuel' rest
      | None => s
      end
  end.

Definition trimStart (s : list ascii) : list ascii :=
  drop_spaces white_space (length s) s.

(** The end of the string is the start of its bytes read backwards. *)
Definition trimEnd (s : list ascii) : list ascii :=
  rev (drop_spaces (map (@rev nat) white_space) (length s) (rev s)).

(** [s.trim()] *)
Definition trim (s : string) : string :=
  string_of_list_ascii (trimEnd (trimStart (list_ascii_of_string s))).

(** [!s.trim()] *)
Definition blank (s : string) : bool := bool_decide (trim s = EmptyString).

(** [s.includes(sub)] *)
Fixpoint includes (s sub : string) : bool :=
  String.prefix sub s
  || match s with
     | String _ s' => includes s' sub
     | EmptyString => false
     end.

(** [createMode === 'import'] *)
Definition in_import_mode (ui : UI) : bool :=
  match createMode ui with
  | mode_import => true
  | mode_create => false
  | mode_load => false
  end.

Definition DEFAULT_POINTS : string := "0.1".

Definition own_entry_message : string :=
  "You cannot play against yourself. This auth entry was created by you (Player 1).".

Definition self_play_message : string :=
  "Invalid game: You cannot play against yourself (you are Player 1 in this auth entry)".

Definition same_player_message : string :=
  "Cannot play against yourself. Player 2 must be different from Player 1.".

(** The message [handleImportTransaction] shows for what it caught. *)
Definition import_error_message (err : Thrown) : string :=
  match err with
  | ErrorObj message =>
      if includes message "simulation failed"
      then "Simulation failed: " ++ message
           ++ ". Check that you have enough Points and the game parameters are correct."
      else if includes message "transaction failed"
      then "Transaction failed: " ++ message
           ++ ". The game could not be created on the blockchain."
      else message
  | NotAnError => "Failed to import and sign transaction"
  end.

(** What the import can answer a self-play attempt with: one of the input
    checks that come first, or the self-play refusal itself. *)
Definition rejection_messages : list string :=
  [ "Enter auth entry XDR from Player 1";
    "Enter your points amount (Player 2)";
    "Invalid Player 2 points";
    self_play_message ]%string.

Section Handlers.

(** The game service (numberGuessService, diceDuelService), which this
    development takes as given: parsing the artifact,
    rebuilding and signing the transaction, submitting it; the wallet
    hook that hands out the signer, or throws when no wallet is
    connected; the reload of the game state; and how numbers are shown. *)
Variable ContractSigner : Type.
Variable parseAuthEntry : string -> Thrown + GameParams.
Variable getContractSigner : Thrown + ContractSigner.
Variable importAndSignAuthEntry :
  string -> Address -> Z -> ContractSigner -> Thrown + string.
Variable finalizeStartGame :
  string -> Address -> ContractSigner -> Thrown + unit.
Variable loadGameState : M unit.
Variable showNumber : Z -> string.
Variable showPoints : Z -> string.

(** The phase a started game enters: [phase_guess] in NumberGuessGame,
    [phase_roll] in DiceDuelGame. *)
Variable playPhase : GamePhase.

Variable userAddress : Address.

(** [runAction]: nothing happens while another action holds the lock or
    the component is busy. *)
Definition runAction (action : M unit) : M unit :=
  fun ui log =>
    if actionLock ui || (loading ui || quickstartLoading ui)
    then (inr tt, ui, log)
    else
      match action (setActionLock true ui) log with
      | (r, ui', log') => (r, setActionLock false ui', log')
      end.

Definition parsePlayer2Points (text : string) : M Z :=
  match Points.parsePoints text with
  | Some p2Points =>
      if p2Points <=? 0 then throw (ErrorObj "Invalid Player 2 points")
      else ret p2Points
  | None => throw (ErrorObj "Invalid Player 2 points")
  end.

(** The body of [handleImportTransaction]; [now] is the state the handler
    was rendered with, from which it reads its inputs.  The timer that
    clears the success message two seconds later is left out. *)
Definition import_steps (now : UI) : M unit :=
  set (setLoading true);;
  set (setError None);;
  set (setSuccess None);;
  when (blank (importAuthEntryXDR now))
    (throw (ErrorObj "Enter auth entry XDR from Player 1"));;
  when (blank (importPlayer2Points now))
    (throw (ErrorObj "Enter your points amount (Player 2)"));;
  p2Points ← parsePlayer2Points (importPlayer2Points now);
  gameParams ← lift (parseAuthEntry (trim (importAuthEntryXDR now)));
  set (setImported (showNumber (sessionId gameParams)) (player1 gameParams)
         (showPoints (player1Points gameParams)));;
  when (bool_decide (player1 gameParams = userAddress))
    (throw (ErrorObj self_play_message));;
  when (bool_decide (userAddress = player1 gameParams))
    (throw (ErrorObj same_player_message));;
  signer ← lift getContractSigner;
  emit (SignAuthEntries (trim (importAuthEntryXDR now)) userAddress p2Points);;
  fullySignedTxXDR ←
    lift (importAndSignAuthEntry (trim (importAuthEntryXDR now))
            userAddress p2Points signer);
  emit (SubmitTransaction fullySignedTxXDR userAddress);;
  lift (finalizeStartGame fullySignedTxXDR userAddress signer);;
  set (setSessionId (sessionId gameParams));;
  set (setSuccess (Some "Game created successfully! Both players signed."));;
  set (setGamePhase playPhase);;
  set (setImportAuthEntryXDR "");;
  set (setImported "" "" "");;
  set (setImportPlayer2Points DEFAULT_POINTS);;
  loadGameState;;
  emit StandingsRefresh.

Definition handleImportTransaction : M unit :=
  fun ui log =>
    runAction
      (try_catch_finally (import_steps ui)
         (fun err => set (setError (Some (import_error_message err))))
         (set (setLoading false)))
      ui log.

(** [parseXDR], the body of the auto-parse effect once its timer fires. *)
Definition parseXDR (now : UI) : M unit :=
  set (setXdrParsing true);;
  set (setXdrParseError None);;
  set (setXdrParseSuccess false);;
  try_catch_finally
    (gameParams ← lift (parseAuthEntry (trim (importAuthEntryXDR now)));
     when (bool_decide (player1 gameParams = userAddress))
       (throw (ErrorObj own_entry_message));;
     set (setImported (showNumber (sessionId gameParams)) (player1 gameParams)
            (showPoints (player1Points gameParams)));;
     set (setXdrParseSuccess true))
    (fun err =>
       let errorMsg := match err with
                       | ErrorObj message => message
                       | NotAnError => "Invalid auth entry XDR"
                       end in
       set (setXdrParseError (Some errorMsg));;
       set (setImported "" "" ""))
    (set (setXdrParsing false)).

(** The auto-parse effect: outside import mode or on an empty field it
    parses nothing (and resets the parse state when the field is empty). *)
Definition autoParse : M unit :=
  fun ui log =>
    if negb (in_import_mode ui) || blank (importAuthEntryXDR ui)
    then
      if blank (importAuthEntryXDR ui)
      then (set (setXdrParsing false);;
            set (setXdrParseError None);;
            set (setXdrParseSuccess false);;
            set (setImported "" "" "")) ui log
      else (inr tt, ui, log)
    else parseXDR ui ui log.

End Handlers.

End ImportFlow.

(** ** Sample data for the handshake, for worked examples *)

Module Demo.
Import AuthEntry ImportFlow.

Definition stub1 : Entry :=
  mkEntry (sorobanCredentialsAddress "GP1") "start_game" None 0.

Definition stub2 : Entry :=
  mkEntry (sorobanCredentialsAddress "GP2") "start_game" None 0.

Definition signed1 : Entry :=
  mkEntry (sorobanCredentialsAddress "GP1") "start_game" (Some [1; 2; 3]) 500.

Definition source_entry : Entry :=
  mkEntry sorobanCredentialsSourceAccount "start_game" None 0.

Definition fromXDR (xdr : string) : option Entry :=
  if decide (xdr = "P1SIGNED"%string) then Some signed1 else None.

Definition no_rpc (url : string) : option Z := None.

Definition wallet : Signer := mkSigner (Some (fun _ _ => Signed [9; 9])).

(** The key check of the examples: [[9; 9]] is Player 2's signature, over
    whatever preimage; [other_wallet] signs with another key. *)
Definition verify (address : Address) (preimage : Preimage) (sig : list Z)
    : bool :=
  bool_decide (address = "GP2"%string) && bool_decide (sig = [9; 9]).

Definition other_wallet : Signer := mkSigner (Some (fun _ _ => Signed [6; 6])).

Definition no_wallet : Signer := mkSigner None.

Definition tx_of (entries : list Entry) : Tx :=
  mkTx (Some entries) "https://rpc.example" "Test SDF Network ; September 2015".

(** The artifact ["AAAA"]: session 42, Player 1 at ["GUSER"], 0.1 points. *)
Definition params : GameParams := mkGameParams 42 "GUSER" 1000000.

Definition parseAuthEntry (xdr : string) : Thrown + GameParams :=
  if decide (xdr = "AAAA"%string) then inr params
  else inl (ErrorObj "Invalid auth entry XDR").

Definition importAndSignAuthEntry (xdr : string) (player2 : Address)
    (points : Z) (signer : unit) : Thrown + string :=
  inr "SIGNEDTX"%string.

Definition finalizeStartGame (txXDR : string) (player2 : Address)
    (signer : unit) : Thrown + unit :=
  inr tt.

Definition connected : Thrown + unit := inr tt.

Definition not_connected : Thrown + unit :=
  inl (ErrorObj "Wallet not connected").

Definition loadGameState : M unit := ImportFlow.ret tt.

Definition show (n : Z) : string := "#"%string.

(** The import form, the artifact pasted with blanks around it. *)
Definition form : UI :=
  mkUI mode_import " AAAA " "0.1" "" "" "" false None false
    false false None None 5 phase_create false.

Definition import_as (user : Address) : (Thrown + unit) * UI * list Effect :=
  handleImportTransaction unit parseAuthEntry connected
    importAndSignAuthEntry finalizeStartGame loadGameState show show
    phase_guess user form [].

Definition auto_parse_as (user : Address)
    : (Thrown + unit) * UI * list Effect :=
  autoParse parseAuthEntry show show user form [].

End Demo.

(** ** Signing and sending a transaction (transactionHelper.ts) *)

Module Launchtube.

(** A thrown JavaScript value, by what the helper reads of it:
    [err?.name], [err instanceof Error], [err.message], [String(err)]. *)
Record Thrown : Type := mkThrown {
  name : option string;
  instanceofError : bool;
  message : string;
  asString : string
}.

(** [new Error(message)] *)
Definition newError (message : string) : Thrown :=
  mkThrown (Some "Error"%string) true message ("Error: " ++ message).

(** [err?.name ?? ''] *)
Definition errName (err : Thrown) : string := default ""%string (name err).

(** [err instanceof Error ? err.message : String(err)] *)
Definition errMessage (err : Thrown) : string :=
  if instanceofError err then message err else asString err.

Definition isNoSignatureNeeded (err : Thrown) : bool :=
  ImportFlow.includes (errName err) "NoSignatureNeededError" ||
  ImportFlow.includes (errMessage err) "NoSignatureNeededError" ||
  ImportFlow.includes (errMessage err) "This is a read call" ||
  ImportFlow.includes (errMessage err) "requires no signature" ||
  ImportFlow.includes (errMessage err) "force: true".

Definition isStillReadOnly (forceErr : Thrown) : bool :=
  ImportFlow.includes (errName forceErr) "NoSignatureNeededError" ||
  ImportFlow.includes (errMessage forceErr) "NoSignatureNeededError" ||
  ImportFlow.includes (errMessage forceErr) "This is a read call" ||
  ImportFlow.includes (errMessage forceErr) "requires no signature".

(** The calls made on the transaction, in order. *)
Inductive Call : Type :=
| Simulate
| SignAndSend (force : bool).

Definition xdr_message : string :=
  "Direct XDR submission not yet implemented. Use AssembledTransaction.signAndSend() instead.".

Section Send.

(** [R]: a call's parsed result; [S]: a sent transaction. *)
Variable R S : Type.

(** What [tx.simulate()] resolves to: how its [signAndSend] ends, without
    and with [force: true], and the properties a result is looked for in
    ([None] is null or undefined). *)
Record Simulated : Type := mkSimulated {
  signAndSend : bool -> Thrown + S;
  result : option R;
  simulationResult_result : option R;
  returnValue : option R
}.

(** The argument [tx]: an XDR string, an object with [simulate] (how
    that call ends, and the object's own [result]), or another object. *)
Inductive Tx : Type :=
| XDR (xdr : string)
| Assembled (simulate : Thrown + Simulated) (tx_result : option R)
| OtherObject.

(** What the helper resolves to: what [signAndSend] gave, or the literal
    [{ result, getTransactionResponse: undefined }]. *)
Inductive Sent : Type :=
| FromNetwork (sent : S)
| SimulationOnly (result : option R).

(** [a ?? b] *)
Definition nullish (a b : option R) : option R :=
  match a with
  | Some r => Some r
  | None => b
  end.

Definition signAndSendViaLaunchtube (tx : Tx) (timeoutInSeconds : Z)
    (validUntilLedgerSeq : option Z) : list Call * (Thrown + Sent) :=
  match tx with
  | Assembled simulate tx_result =>
      match simulate with
      | inl err => ([Simulate], inl err)
      | inr simulated =>
          match signAndSend simulated false with
          | inr sent => ([Simulate; SignAndSend false], inr (FromNetwork sent))
          | inl err =>
              if isNoSignatureNeeded err then
                match signAndSend simulated true with
                | inr sent =>
                    ([Simulate; SignAndSend false; SignAndSend true],
                     inr (FromNetwork sent))
                | inl forceErr =>
                    if isStillReadOnly forceErr then
                      let simulatedResult :=
                        nullish (result simulated)
                          (nullish (simulationResult_result simulated)
                             (nullish (returnValue simulated) tx_result)) in
                      ([Simulate; SignAndSend false; SignAndSend true],
                       inr (SimulationOnly simulatedResult))
                    else
                      ([Simulate; SignAndSend false; SignAndSend true],
                       inl forceErr)
                end
              else ([Simulate; SignAndSend false], inl err)
          end
      end
  | XDR _ => ([], inl (newError xdr_message))
  | OtherObject => ([], inl (newError xdr_message))
  end.

End Send.

Arguments mkSimulated {R S}.
Arguments signAndSend {R S}.
Arguments result {R S}.
Arguments simulationResult_result {R S}.
Arguments returnValue {R S}.
Arguments XDR {R S}.
Arguments Assembled {R S}.
Arguments OtherObject {R S}.
Arguments FromNetwork {R S}.
Arguments SimulationOnly {R S}.
Arguments signAndSendViaLaunchtube {R S}.

End Launchtube.

(** ** The ledger bound of a signature (ledgerUtils.ts, constants.ts) *)

Module Ledger.
Import Launchtube.

Definition DEFAULT_AUTH_TTL_MINUTES : Q := 5.
Definition MULTI_SIG_AUTH_TTL_MINUTES : Q := 60.
Definition timeoutInSeconds : Z := 30.

Definition LEDGERS_PER_MINUTE : Q := 12.

(** [getLatestLedger rpcUrl] is [(await new rpc.Server(rpcUrl)
    .getLatestLedger()).sequence], or what the request threw.
    [ttlMinutes] is a rational: the product is the exact one, which is
    what the code computes for the whole minutes it is called with
    (5 and 60). *)
Definition calculateValidUntilLedger (getLatestLedger : string -> Thrown + Z)
    (rpcUrl : string) (ttlMinutes : Q) : Thrown + Z :=
  match getLatestLedger rpcUrl with
  | inl err => inl err
  | inr sequence =>
      let ledgersToAdd := Qceiling (ttlMinutes * LEDGERS_PER_MINUTE) in
      inr (sequence + ledgersToAdd)
  end.

(** The bound [injectSignedAuthEntry] falls back on:
    [calculateValidUntilLedger(tx.options.rpcUrl, DEFAULT_AUTH_TTL_MINUTES)],
    [None] when it throws. *)
Definition defaultAuthValidUntil (getLatestLedger : string -> Thrown + Z)
    (rpcUrl : string) : option Z :=
  match calculateValidUntilLedger getLatestLedger rpcUrl
          DEFAULT_AUTH_TTL_MINUTES with
  | inr validUntil => Some validUntil
  | inl _ => None
  end.

End Ledger.

(** ** The transaction methods of ZkMafiaService *)

Module Service.
Import Launchtube Ledger.

(** What a transaction method does, in order: the client builds the
    invocation, the latest ledger is asked for, the transaction is
    handed to [signAndSendViaLaunchtube]. *)
Inductive Step : Type :=
| Built (call : Ruleta.Invocation)
| LatestLedger (rpcUrl : string)
| Sending (call : Call).

Section Methods.

Variable R S : Type.

(** [createSigningClient(player, signer)] followed by the binding's
    method with [DEFAULT_METHOD_OPTIONS]: the assembled transaction, or
    what building it threw. *)
Variable client : Ruleta.Invocation -> Thrown + Tx R S.
Variable getLatestLedger : string -> Thrown + Z.
Variable RPC_URL : string.

(** The body the three methods share. *)
Definition submit (call : Ruleta.Invocation)
    : list Step * (Thrown + Sent R S) :=
  match client call with
  | inl err => ([Built call], inl err)
  | inr tx =>
      match calculateValidUntilLedger getLatestLedger RPC_URL 5 with
      | inl err => ([Built call; LatestLedger RPC_URL], inl err)
      | inr validUntil =>
          let (calls, sent) :=
            signAndSendViaLaunchtube tx timeoutInSeconds (Some validUntil) in
          ([Built call; LatestLedger RPC_URL] ++ map Sending calls, sent)
      end
  end.

Definition entrarALaRuleta (sessionId : Z) (player : Ruleta.Address)
    (points : Z) : list Step * (Thrown + Sent R S) :=
  submit (Ruleta.Call_entrar_a_la_ruleta sessionId player points).

Definition cargarRevolver (sessionId : Z) (player : Ruleta.Address)
    (bulletCommitment : list Z) (bulletPosition : Z)
    : list Step * (Thrown + Sent R S) :=
  submit (Ruleta.cargarRevolver sessionId player bulletCommitment
            bulletPosition).

Definition disparar (sessionId : Z) (player : Ruleta.Address)
    (zkProof : list Z) : list Step * (Thrown + Sent R S) :=
  submit (Ruleta.disparar_call sessionId player zkProof).

End Methods.

End Service.

(** ** The request cache (requestCache.ts) *)

Module RequestCache.

(** A part of a cache key: a string, or a number, here a non-negative
    integer below 10^21, which JavaScript prints in decimal digits. *)
Inductive Part : Type :=
| Str (s : string)
| Num (n : N).

(** [String(part)] *)
Definition part_string (part : Part) : string :=
  match part with
  | Str s => s
  | Num n => NilEmpty.string_of_uint (N.to_uint n)
  end.

(** [parts.join(':')] *)
Definition createCacheKey (parts : list Part) : string :=
  String.concat ":" (map part_string parts).

Section Cache.

Variable T : Type.

Record CacheEntry : Type := mkCacheEntry {
  data : T;
  timestamp : Z
}.

(** Promises are told apart by the order in which they were created. *)
Definition Promise : Type := nat.

(** The two maps of the class, and how many promises [dedupe] has made. *)
Record State : Type := mkState {
  cache : gmap string CacheEntry;
  pendingRequests : gmap string Promise;
  created : nat
}.

Definition new : State := mkState ∅ ∅ 0.

(** What a call of [dedupe] hands back: the cached data, the promise of
    the request in flight, or the promise of the request it has just
    started by calling [fetcher()]. *)
Inductive Answer : Type :=
| Cached (d : T)
| Pending (p : Promise)
| Started (p : Promise).

(** [cached && Date.now() - cached.timestamp < ttl] *)
Definition still_valid (cached : option CacheEntry) (ttl now : Z)
    : option CacheEntry :=
  match cached with
  | Some entry => if now - timestamp entry <? ttl then Some entry else None
  | None => None
  end.

(** [dedupe(key, fetcher, ttl)] at time [now = Date.now()], up to the
    point where it returns; the callbacks on the fetcher's promise are
    [fulfilled] and [rejected] below. *)
Definition dedupe (key : string) (ttl now : Z) (rc : State)
    : Answer * State :=
  match still_valid (cache rc !! key) ttl now with
  | Some cached => (Cached (data cached), rc)
  | None =>
      match pendingRequests rc !! key with
      | Some pending => (Pending pending, rc)
      | None =>
          let promise := created rc in
          (Started promise,
           mkState (cache rc) (<[key := promise]> (pendingRequests rc))
             (S (created rc)))
      end
  end.

(** The [.then] callback of the request for [key], run when the fetcher
    resolves with [d] at time [now]. *)
Definition fulfilled (key : string) (d : T) (now : Z) (rc : State) : State :=
  mkState (<[key := mkCacheEntry d now]> (cache rc))
    (delete key (pendingRequests rc)) (created rc).

(** The [.catch] callback, run when the fetcher rejects; the error is
    thrown on to the callers. *)
Definition rejected (key : string) (rc : State) : State :=
  mkState (cache rc) (delete key (pendingRequests rc)) (created rc).

Definition invalidate (key : string) (rc : State) : State :=
  mkState (delete key (cache rc)) (pendingRequests rc) (created rc).

(** [invalidatePattern(pattern)]; [test] is [new RegExp(pattern).test]. *)
Definition invalidatePattern (test : string -> bool) (rc : State) : State :=
  mkState (filter (fun entry => negb (test (fst entry))) (cache rc))
    (pendingRequests rc) (created rc).

Definition clear (rc : State) : State := mkState ∅ ∅ (created rc).

(** Calls of [dedupe] for one key, one after the other, each with its
    [ttl] and the time it is made at, no callback running in between. *)
Fixpoint dedupes (key : string) (calls : list (Z * Z)) (rc : State)
    : list Answer * State :=
  match calls with
  | [] => ([], rc)
  | (ttl, now) :: rest =>
      let (answer, rc1) := dedupe key ttl now rc in
      let (answers, rc2) := dedupes key rest rc1 in
      (answer :: answers, rc2)
  end.

End Cache.

Arguments mkCacheEntry {T}.
Arguments data {T}.
Arguments timestamp {T}.
Arguments mkState {T}.
Arguments cache {T}.
Arguments pendingRequests {T}.
Arguments created {T}.
Arguments new {T}.
Arguments Cached {T}.
Arguments Pending {T}.
Arguments Started {T}.
Arguments dedupe {T}.
Arguments fulfilled {T}.
Arguments rejected {T}.
Arguments invalidate {T}.
Arguments invalidatePattern {T}.
Arguments clear {T}.
Arguments dedupes {T}.

End RequestCache.

(** ** Loading a game and revealing the winner (NumberGuessGame) *)

Module NumberGuess.
Import RequestCache.

Definition Address : Type := string.

(** [Game] of the bindings, by the fields the component reads; [None]
    is null or undefined. *)
Record Game : Type := mkGame {
  player1 : Address;
  player2 : Address;
  player1_guess : option Z;
  player2_guess : option Z;
  winner : option Address;
  winning_number : option Z
}.

(** The slice of the component's state these handlers touch. *)
Record View : Type := mkView {
  loading : bool;
  quickstartLoading : bool;
  error : option string;
  success : option string;
  sessionId : Z;
  gameState : option Game;
  loadSessionId : string;
  gamePhase : ImportFlow.GamePhase;
  actionLock : bool
}.

Inductive Effect : Type :=
| GetGame (sessionId : Z)
| RevealWinner (sessionId : Z) (player : Address)
| Sleep (ms : Z)
| ClearSuccessIn (ms : Z)
| StandingsRefresh.

(** The first bytes of the two "You won" messages, as the source file
    has them. *)
Definition party : string :=
  string_of_list_ascii
    (map ascii_of_nat [239; 163; 191; 195; 188; 195; 169; 195; 162]%nat).

(** [actionLock.current || isBusy], the guard of [runAction]. *)
Definition busy (ui : View) : bool :=
  actionLock ui || (loading ui || quickstartLoading ui).

(** [setLoading(true); setError(null); setSuccess(null)] *)
Definition started (ui : View) : View :=
  mkView true (quickstartLoading ui) None None (sessionId ui) (gameState ui)
    (loadSessionId ui) (gamePhase ui) (actionLock ui).

(** [catch (err) { setError(err instanceof Error ? err.message :
    fallback) } finally { setLoading(false) }] *)
Definition failed (fallback : string) (err : ImportFlow.Thrown) (ui : View)
    : View :=
  mkView false (quickstartLoading ui)
    (Some match err with
          | ImportFlow.ErrorObj message => message
          | ImportFlow.NotAnError => fallback
          end)
    (success ui) (sessionId ui) (gameState ui) (loadSessionId ui)
    (gamePhase ui) (actionLock ui).

(** [game.player1_guess] and [game.player2_guess] are both there. *)
Definition both_guessed (game : Game) : bool :=
  match player1_guess game, player2_guess game with
  | Some _, Some _ => true
  | _, _ => false
  end.

Definition Cache : Type := RequestCache.State (option Game).

(** The promise of a request settles: its callback in the cache runs,
    then whoever awaits it goes on. *)
Definition settle (key : string)
    (answer : ImportFlow.Thrown + option Game) (resolved : Z) (rc : Cache)
    : (ImportFlow.Thrown + option Game) * Cache :=
  match answer with
  | inr game => (inr game, fulfilled key game resolved rc)
  | inl err => (inl err, rejected key rc)
  end.

Section Handlers.

(** [parseInt], [None] for NaN; [numberGuessService.getGame];
    [inFlight p]: what the request [p], found in flight, settles with. *)
Variable parseInt : string -> option Z.
Variable getGame : Z -> ImportFlow.Thrown + option Game.
Variable inFlight : Promise -> ImportFlow.Thrown + option Game.
Variable userAddress : Address.

(** [await requestCache.dedupe(createCacheKey('game-state', id),
    () => numberGuessService.getGame(id), 5000)], called at time [now],
    the request settling at time [resolved]. *)
Definition cachedGame (id now resolved : Z) (rc : Cache)
    : (ImportFlow.Thrown + option Game) * Cache * list Effect :=
  let key := createCacheKey [Str "game-state"; Num (Z.to_N id)] in
  match dedupe key 5000 now rc with
  | (Cached game, rc1) => (inr game, rc1, [])
  | (Pending p, rc1) => (settle key (inFlight p) resolved rc1, [])
  | (Started _, rc1) => (settle key (getGame id) resolved rc1, [GetGame id])
  end.

(** What the handler does with the game it has loaded. *)
Definition show_loaded (parsedSessionId : Z) (game : Game) (ui : View)
    : View :=
  match winner game with
  | Some won =>
      mkView false (quickstartLoading ui) (error ui)
        (Some (if decide (won = userAddress)
               then (party ++ " You won this game!")%string
               else "Game complete. Winner revealed."))
        parsedSessionId (Some game) "" ImportFlow.phase_reveal (actionLock ui)
  | None =>
      if both_guessed game
      then mkView false (quickstartLoading ui) (error ui)
             (Some "Game loaded! Both players have guessed. You can reveal the winner.")
             parsedSessionId (Some game) "" ImportFlow.phase_reveal
             (actionLock ui)
      else mkView false (quickstartLoading ui) (error ui)
             (Some "Game loaded! Make your guess.")
             parsedSessionId (Some game) "" ImportFlow.phase_guess
             (actionLock ui)
  end.

Definition handleLoadExistingGame (now resolved : Z) (ui : View) (rc : Cache)
    : View * Cache * list Effect :=
  if busy ui then (ui, rc, []) else
  let ui1 := started ui in
  let fail := failed "Failed to load game" in
  match parseInt (ImportFlow.trim (loadSessionId ui)) with
  | None => (fail (ImportFlow.ErrorObj "Enter a valid session ID") ui1, rc, [])
  | Some parsedSessionId =>
      if parsedSessionId <=? 0
      then (fail (ImportFlow.ErrorObj "Enter a valid session ID") ui1, rc, [])
      else
        match cachedGame parsedSessionId now resolved rc with
        | (inl err, rc1, log) => (fail err ui1, rc1, log)
        | (inr None, rc1, log) =>
            (fail (ImportFlow.ErrorObj "Game not found") ui1, rc1, log)
        | (inr (Some game), rc1, log) =>
            if negb (bool_decide (player1 game = userAddress))
               && negb (bool_decide (player2 game = userAddress))
            then (fail (ImportFlow.ErrorObj "You are not a player in this game")
                    ui1, rc1, log)
            else (show_loaded parsedSessionId game ui1, rc1,
                  log ++ [ClearSuccessIn 2000])
        end
  end.

(** [loadGameState], run on entering a game and every 5 seconds. *)
Definition loadGameState (ui : View) : View * list Effect :=
  match getGame (sessionId ui) with
  | inr game =>
      let phase :=
        match game with
        | Some g =>
            match winner g with
            | Some _ => ImportFlow.phase_complete
            | None => if both_guessed g then ImportFlow.phase_reveal
                      else ImportFlow.phase_guess
            end
        | None => ImportFlow.phase_guess
        end in
      (mkView (loading ui) (quickstartLoading ui) (error ui) (success ui)
         (sessionId ui) game (loadSessionId ui) phase (actionLock ui),
       [GetGame (sessionId ui)])
  | inl _ =>
      (mkView (loading ui) (quickstartLoading ui) (error ui) (success ui)
         (sessionId ui) None (loadSessionId ui) (gamePhase ui) (actionLock ui),
       [GetGame (sessionId ui)])
  end.

End Handlers.

(** [!updatedGame || updatedGame.winner === null ||
    updatedGame.winner === undefined], negated. *)
Definition has_winner (updatedGame : option Game) : bool :=
  match updatedGame with
  | Some game => bool_decide (winner game <> None)
  | None => false
  end.

Section Reveal.

(** [poll n]: what the [n]-th [getGame] of a reveal answers (the state
    on chain moves between them). *)
Variable poll : nat -> ImportFlow.Thrown + option Game.

(** The loop of [waitForWinner], [left = 5 - attempts], after [calls]
    reads. *)
Fixpoint wait_loop (left calls : nat) (updatedGame : option Game)
    : (ImportFlow.Thrown + option Game) * nat :=
  match left with
  | O => (inr updatedGame, calls)
  | S left' =>
      if has_winner updatedGame then (inr updatedGame, calls)
      else
        match poll calls with
        | inl err => (inl err, S calls)
        | inr game => wait_loop left' (S calls) game
        end
  end.

(** [waitForWinner]: the game it returns (or what a read threw) and the
    number of reads it made. *)
Definition waitForWinner : (ImportFlow.Thrown + option Game) * nat :=
  match poll 0%nat with
  | inl err => (inl err, 1%nat)
  | inr game => wait_loop 5 1 game
  end.

(** [getContractSigner()] and [numberGuessService.revealWinner(...)]:
    whether each throws. *)
Variable getContractSigner : ImportFlow.Thrown + unit.
Variable revealWinner : ImportFlow.Thrown + unit.
Variable userAddress : Address.

(** The reads of [waitForWinner], a second of sleep before each one
    after the first. *)
Fixpoint reads (sessionId : Z) (n : nat) : list Effect :=
  match n with
  | O => []
  | S O => [GetGame sessionId]
  | S n' => reads sessionId n' ++ [Sleep 1000; GetGame sessionId]
  end.

Definition handleRevealWinner (ui : View) : View * list Effect :=
  if busy ui then (ui, []) else
  let ui1 := started ui in
  let fail := failed "Failed to reveal winner" in
  match getContractSigner with
  | inl err => (fail err ui1, [])
  | inr _ =>
      match revealWinner with
      | inl err => (fail err ui1, [RevealWinner (sessionId ui) userAddress])
      | inr _ =>
          match waitForWinner with
          | (inl err, n) =>
              (fail err ui1,
               RevealWinner (sessionId ui) userAddress :: reads (sessionId ui) n)
          | (inr updatedGame, n) =>
              let isWinner :=
                match updatedGame with
                | Some game => bool_decide (winner game = Some userAddress)
                | None => false
                end in
              (mkView false (quickstartLoading ui1) (error ui1)
                 (Some (if isWinner then (party ++ " You won!")%string
                        else "Game complete! Winner revealed."))
                 (sessionId ui1) updatedGame (loadSessionId ui1)
                 ImportFlow.phase_complete (actionLock ui1),
               RevealWinner (sessionId ui) userAddress
                 :: reads (sessionId ui) n ++ [StandingsRefresh])
          end
      end
  end.

End Reveal.

End NumberGuess.

(** ** The account a transaction is built and simulated from
    (simulationUtils.ts) *)

Module Simulation.

Inductive Network : Type := testnet | mainnet.

(** [NETWORK] of constants.ts *)
Definition NETWORK (SOROBAN_RPC_URL : string) : Network :=
  if ImportFlow.includes SOROBAN_RPC_URL "testnet" then testnet else mainnet.

(** [Boolean(s)] for a string *)
Definition Boolean (s : string) : bool := negb (String.eqb s "").

(** [String(n)] for a status code *)
Definition show_status (status : Z) : string :=
  NilEmpty.string_of_uint (N.to_uint (Z.to_N status)).

(** [res.ok] *)
Definition ok (status : Z) : bool := (200 <=? status) && (status <=? 299).

Definition no_account_message : string :=
  "No valid on-chain account available to build/simulate this transaction. Run `bun run setup` to populate `VITE_DEV_*_ADDRESS`, or fund your connected wallet account.".

Inductive Request : Type :=
| Horizon (address : string)
| Friendbot (address : string)
| Sleep (ms : Z).

Section Source.

Variable isValidEd25519PublicKey : string -> bool.
Variable RUNTIME_SIMULATION_SOURCE : string.
Variable DEV_ADMIN_ADDRESS : string.
Variable DEV_PLAYER2_ADDRESS : string.
Variable DEV_PLAYER1_ADDRESS : string.

(** [for (const candidate of candidates)] *)
Fixpoint first_usable (avoid candidates : list string) : option string :=
  match candidates with
  | [] => None
  | candidate :: rest =>
      if existsb (String.eqb candidate) avoid then first_usable avoid rest
      else if isValidEd25519PublicKey candidate then Some candidate
      else first_usable avoid rest
  end.

Definition getSimulationSourceAddress (avoidAddresses : list string)
    : ImportFlow.Thrown + string :=
  let avoid := List.filter Boolean avoidAddresses in
  let candidates :=
    List.filter Boolean
      [RUNTIME_SIMULATION_SOURCE; DEV_ADMIN_ADDRESS; DEV_PLAYER2_ADDRESS;
       DEV_PLAYER1_ADDRESS] in
  match first_usable avoid candidates with
  | Some candidate => inr candidate
  | None => inl (ImportFlow.ErrorObj no_account_message)
  end.

(** [network]: the [NETWORK] constant.  [horizon n]: how the [n]-th
    request to Horizon ends, with a status or by throwing; [friendbot]:
    the same for the funding request. *)
Variable network : Network.
Variable horizon : nat -> ImportFlow.Thrown + Z.
Variable friendbot : ImportFlow.Thrown + Z.

(** [horizonAccountExists], on the answer of its request. *)
Definition horizonAccountExists (response : ImportFlow.Thrown + Z)
    : ImportFlow.Thrown + bool :=
  match response with
  | inl err => inl err
  | inr status =>
      if status =? 404 then inr false
      else if negb (ok status)
      then inl (ImportFlow.ErrorObj
                  ("Horizon error " ++ show_status status
                   ++ " checking account existence"))
      else inr true
  end.

(** [for (let attempt = 0; attempt < 5; attempt++)], with [left = 5 -
    attempt] and [asked] requests made to Horizon so far. *)
Fixpoint index_loop (address : string) (left asked : nat)
    : (ImportFlow.Thrown + unit) * list Request :=
  match left with
  | O =>
      (inl (ImportFlow.ErrorObj
              ("Funded " ++ address
               ++ " but it still doesn't appear on Horizon yet")), [])
  | S left' =>
      match horizonAccountExists (horizon asked) with
      | inl err => (inl err, [Sleep 750; Horizon address])
      | inr true => (inr tt, [Sleep 750; Horizon address])
      | inr false =>
          let (outcome, requests) := index_loop address left' (S asked) in
          (outcome, [Sleep 750; Horizon address] ++ requests)
      end
  end.

Definition ensureTestnetAccountFunded (address : string)
    : (ImportFlow.Thrown + unit) * list Request :=
  match network with
  | mainnet => (inr tt, [])
  | testnet =>
      match horizonAccountExists (horizon 0%nat) with
      | inl err => (inl err, [Horizon address])
      | inr true => (inr tt, [Horizon address])
      | inr false =>
          match friendbot with
          | inl err => (inl err, [Horizon address; Friendbot address])
          | inr status =>
              if negb (ok status)
              then (inl (ImportFlow.ErrorObj
                           ("Friendbot funding failed (" ++ show_status status
                            ++ ") for " ++ address)),
                    [Horizon address; Friendbot address])
              else
                let (outcome, requests) := index_loop address 5 1 in
                (outcome, [Horizon address; Friendbot address] ++ requests)
          end
      end
  end.

Definition getFundedSimulationSourceAddress (avoidAddresses : list string)
    : (ImportFlow.Thrown + string) * list Request :=
  match getSimulationSourceAddress avoidAddresses with
  | inl err => (inl err, [])
  | inr addr =>
      match ensureTestnetAccountFunded addr with
      | (inl err, requests) => (inl err, requests)
      | (inr _, requests) => (inr addr, requests)
      end
  end.

End Source.

End Simulation.

(** ** The query string and the route (location.ts, App.tsx) *)

Module Routing.

(** [window.location], by the three parts the code reads. *)
Record Location : Type := mkLocation {
  pathname : string;
  search : string;
  hash : string
}.

Inductive Page : Type := home | docs | games.

(** [s.indexOf(c)], [None] for -1. *)
Fixpoint indexOf (c : ascii) (s : string) : option nat :=
  match s with
  | EmptyString => None
  | String c' s' =>
      if Ascii.eqb c' c then Some 0%nat
      else match indexOf c s' with
           | Some i => Some (S i)
           | None => None
           end
  end.

(** [s.slice(i)] *)
Fixpoint slice (i : nat) (s : string) : string :=
  match i, s with
  | O, _ => s
  | S i', String _ s' => slice i' s'
  | S _, EmptyString => EmptyString
  end.

(** [getLocationSearch()]; [None] is the case [typeof window ===
    'undefined']. *)
Definition getLocationSearch (window : option Location) : string :=
  match window with
  | None => ""
  | Some location =>
      if negb (String.eqb (search location) "") then search location
      else
        match indexOf "?" (hash location) with
        | Some queryIndex => slice queryIndex (hash location)
        | None => ""
        end
  end.

(** [s.replace(c, '')]: the first [c] goes. *)
Fixpoint remove_first (c : ascii) (s : string) : string :=
  match s with
  | EmptyString => EmptyString
  | String c' s' =>
      if Ascii.eqb c' c then s' else String c' (remove_first c s')
  end.

(** [s.split(c)]: never empty. *)
Fixpoint split (c : ascii) (s : string) : list string :=
  match s with
  | EmptyString => [EmptyString]
  | String c' s' =>
      if Ascii.eqb c' c then EmptyString :: split c s'
      else match split c s' with
           | piece :: pieces => String c' piece :: pieces
           | [] => [String c' EmptyString]
           end
  end.

(** [s.replace(/^\/+/, '')] *)
Fixpoint drop_slashes (s : string) : string :=
  match s with
  | String c s' => if Ascii.eqb c "/" then drop_slashes s' else s
  | EmptyString => EmptyString
  end.

(** [path.replace(/^\/+/, '').split('/')[0]] *)
Definition first_segment (path : string) : string :=
  match split "/" (drop_slashes path) with
  | segment :: _ => segment
  | [] => ""
  end.

Definition parseHashRoute (window : option Location)
    : option (Page * string) :=
  match window with
  | None => None
  | Some location =>
      let raw := remove_first "#" (hash location) in
      if String.eqb raw "" then None
      else
        let pieces := split "?" raw in
        let pathPart := nth 0 pieces ""%string in
        let queryPart := nth 1 pieces ""%string in
        let segment := first_segment pathPart in
        let search :=
          if String.eqb queryPart "" then ""%string
          else ("?" ++ queryPart)%string in
        if String.eqb segment "docs" then Some (docs, search)
        else if String.eqb segment "games" then Some (games, search)
        else None
  end.

Section Base.

(** [import.meta.env.BASE_URL || '/'] *)
Variable baseUrl : string.

(** [s.endsWith('/') ? s.slice(0, -1) : s] *)
Fixpoint drop_last_slash (s : string) : string :=
  match s with
  | EmptyString => EmptyString
  | String c EmptyString => if Ascii.eqb c "/" then EmptyString else s
  | String c s' => String c (drop_last_slash s')
  end.

Definition normalizedBase : string := drop_last_slash baseUrl.

Definition rootPath : string :=
  if String.eqb normalizedBase "" then "/"%string
  else (normalizedBase ++ "/")%string.

Definition page_name (page : Page) : string :=
  match page with
  | home => "home"
  | docs => "docs"
  | games => "games"
  end.

Definition resolvePageFromLocation (window : option Location) : Page :=
  match window with
  | None => home
  | Some location =>
      match parseHashRoute window with
      | Some (page, _) => page
      | None =>
          let path := pathname location in
          let relative :=
            if negb (String.eqb normalizedBase "")
               && String.prefix normalizedBase path
            then slice (String.length normalizedBase) path
            else path in
          let segment := first_segment relative in
          if String.eqb segment "docs" then docs
          else if String.eqb segment "games" then games
          else home
      end
  end.

Definition buildPath (page : Page) : string :=
  match page with
  | home => rootPath
  | _ => (normalizedBase ++ "/" ++ page_name page)%string
  end.

End Base.

End Routing.

(** ** The dev wallets (devWalletService.ts) and the quickstart's use of
    them *)

Module DevWallet.

(** [1 | 2 | 3] *)
Inductive Player : Type := player_1 | player_2 | player_3.

(** [`${playerNumber}`] *)
Definition number (playerNumber : Player) : string :=
  match playerNumber with
  | player_1 => "1"
  | player_2 => "2"
  | player_3 => "3"
  end.

Definition playerKey (playerNumber : Player) : string :=
  ("player" ++ number playerNumber)%string.

(** The double quote character. *)
Definition quote : string := String (ascii_of_nat 34) EmptyString.

Definition not_available_message (playerNumber : Player) : string :=
  ("Player " ++ number playerNumber
   ++ " secret key not available. Run " ++ quote ++ "bun run setup" ++ quote
   ++ " first.")%string.

Section Service.

Variable Keypair : Type.

(** The three environment variables ([None]: undefined), the SDK's
    [Keypair.fromSecret] (which throws on a malformed secret) and
    [keypair.publicKey()]. *)
Variable VITE_DEV_PLAYER1_SECRET : option string.
Variable VITE_DEV_PLAYER2_SECRET : option string.
Variable VITE_DEV_PLAYER3_SECRET : option string.
Variable fromSecret : string -> ImportFlow.Thrown + Keypair.
Variable publicKey : Keypair -> string.

Record State : Type := mkState {
  currentPlayer : option Player;
  keypairs : gmap string Keypair
}.

(** A service as the module creates it. *)
Definition devWalletService : State := mkState None ∅.

(** [!!secret] *)
Definition truthy (secret : option string) : bool :=
  match secret with
  | Some s => negb (String.eqb s "")
  | None => false
  end.

Definition secrets (playerNumber : Player) : option string :=
  match playerNumber with
  | player_1 => VITE_DEV_PLAYER1_SECRET
  | player_2 => VITE_DEV_PLAYER2_SECRET
  | player_3 => VITE_DEV_PLAYER3_SECRET
  end.

Definition isDevModeAvailable : bool :=
  truthy VITE_DEV_PLAYER1_SECRET && truthy VITE_DEV_PLAYER2_SECRET.

Definition isPlayerAvailable (playerNumber : Player) : bool :=
  match secrets playerNumber with
  | Some secret =>
      negb (String.eqb secret "") && negb (String.eqb secret "NOT_AVAILABLE")
  | None => false
  end.

Definition initPlayer (playerNumber : Player) (service : State)
    : (ImportFlow.Thrown + unit) * State :=
  match secrets playerNumber with
  | None =>
      (inl (ImportFlow.ErrorObj (not_available_message playerNumber)), service)
  | Some secretEnvVar =>
      if String.eqb secretEnvVar "" || String.eqb secretEnvVar "NOT_AVAILABLE"
      then (inl (ImportFlow.ErrorObj (not_available_message playerNumber)),
            service)
      else
        match fromSecret secretEnvVar with
        | inl err => (inl err, service)
        | inr keypair =>
            (inr tt,
             mkState (Some playerNumber)
               (<[playerKey playerNumber := keypair]> (keypairs service)))
        end
  end.

Definition getPublicKey (service : State) : ImportFlow.Thrown + string :=
  match currentPlayer service with
  | None => inl (ImportFlow.ErrorObj "No player initialized")
  | Some current =>
      match keypairs service !! playerKey current with
      | None =>
          inl (ImportFlow.ErrorObj
                 ("Player " ++ number current ++ " not initialized"))
      | Some keypair => inr (publicKey keypair)
      end
  end.

Definition getCurrentPlayer (service : State) : option Player :=
  currentPlayer service.

Definition switchPlayer (playerNumber : Player) (service : State)
    : (ImportFlow.Thrown + unit) * State :=
  initPlayer playerNumber service.

Definition disconnect (service : State) : State := mkState None ∅.

(** [getSigner()]: the signer it returns signs with the keypair it was
    made from, which stands for it here. *)
Definition getSigner (service : State) : ImportFlow.Thrown + Keypair :=
  match currentPlayer service with
  | None => inl (ImportFlow.ErrorObj "No player initialized")
  | Some current =>
      match keypairs service !! playerKey current with
      | None => inl (ImportFlow.ErrorObj "No player initialized")
      | Some keypair => inr keypair
      end
  end.

(** The states the exported service can be in. *)
Inductive reachable : State -> Prop :=
| reach_new : reachable devWalletService
| reach_initPlayer (playerNumber : Player) (service : State) :
    reachable service -> reachable (snd (initPlayer playerNumber service))
| reach_disconnect (service : State) :
    reachable service -> reachable (disconnect service).

(** One address and one signer of the quickstart:
    [await devWalletService.initPlayer(n); devWalletService.getPublicKey();
    devWalletService.getSigner()]. *)
Definition take_wallet (playerNumber : Player) (service : State)
    : (ImportFlow.Thrown + string * Keypair) * State :=
  match initPlayer playerNumber service with
  | (inl err, service1) => (inl err, service1)
  | (inr _, service1) =>
      match getPublicKey service1 with
      | inl err => (inl err, service1)
      | inr address =>
          match getSigner service1 with
          | inl err => (inl err, service1)
          | inr signer => (inr (address, signer), service1)
          end
      end
  end.

(** The [try ... finally] of [handleQuickStart] that collects the two
    wallets and puts the original player back. *)
Definition quickstart_wallets (service : State)
    : (ImportFlow.Thrown + (string * Keypair) * (string * Keypair)) * State :=
  let originalPlayer := getCurrentPlayer service in
  let (collected, service2) :=
    match take_wallet player_1 service with
    | (inl err, service1) => (inl err, service1)
    | (inr wallet1, service1) =>
        match take_wallet player_2 service1 with
        | (inl err, service2) => (inl err, service2)
        | (inr wallet2, service2) => (inr (wallet1, wallet2), service2)
        end
    end in
  match originalPlayer with
  | None => (collected, service2)
  | Some original =>
      match initPlayer original service2 with
      | (inl err, service3) => (inl err, service3)
      | (inr _, service3) => (collected, service3)
      end
  end.

End Service.

Arguments mkState {Keypair}.
Arguments currentPlayer {Keypair}.
Arguments keypairs {Keypair}.
Arguments devWalletService {Keypair}.
Arguments getCurrentPlayer {Keypair}.
Arguments disconnect {Keypair}.

End DevWallet.

(** ** Whose turn it is at the table (ZkMafiaGame) *)

Module Table.
Import Ruleta.

Inductive GameMode : Type := SINGLEPLAYER | MULTIPLAYER.

(** [players.findIndex(p => p.address === addr)] *)
Fixpoint findIndex (addr : Address) (players : list Jugador) : Z :=
  match players with
  | [] => -1
  | p :: rest =>
      if decide (address p = addr) then 0
      else if findIndex addr rest =? -1 then -1
      else findIndex addr rest + 1
  end.

(** [players[i]] for a number [i] *)
Definition at_index (players : list Jugador) (i : Z) : option Jugador :=
  if i <? 0 then None else players !! Z.to_nat i.

Section Derived.

(** [game] is the session record last read ([None]: null). *)
Variable game : option PartidaRuleta.
Variable userAddress : Address.
Variable gameMode : option GameMode.

(** [game?.phase ?? -1] *)
Definition phase_shown : Z :=
  match game with
  | Some g => phase g
  | None => -1
  end.

(** [game?.players?.findIndex(...) ?? -1] *)
Definition myPlayerIndex : Z :=
  match game with
  | Some g => findIndex userAddress (players g)
  | None => -1
  end.

(** [game?.current_turn === myPlayerIndex && phase === PHASE_PLAYING] *)
Definition isMyTurn : bool :=
  match game with
  | Some g => (current_turn g =? myPlayerIndex) && (phase_shown =? PHASE_PLAYING)
  | None => false
  end.

(** [myPlayerIndex >= 0 ? game?.players?.[myPlayerIndex] : null] *)
Definition myPlayer : option Jugador :=
  if myPlayerIndex >=? 0
  then match game with
       | Some g => at_index (players g) myPlayerIndex
       | None => None
       end
  else None.

(** [myPlayer?.is_alive ?? true] *)
Definition isAlive : bool :=
  match myPlayer with
  | Some p => is_alive p
  | None => true
  end.

(** The trigger button is rendered: [isMyTurn && isAlive]. *)
Definition trigger_shown : bool := isMyTurn && isAlive.

(** The bot-shot effect gets as far as scheduling [handleBotShot]. *)
Definition bot_shot_scheduled : bool :=
  match gameMode with
  | Some SINGLEPLAYER =>
      match game with
      | Some g =>
          if negb (phase_shown =? PHASE_PLAYING) then false
          else
            match at_index (players g) (current_turn g) with
            | None => false
            | Some turnPlayer =>
                if bool_decide (address turnPlayer = userAddress) then false
                else is_alive turnPlayer
            end
      | None => false
      end
  | _ => false
  end.

End Derived.

End Table.

(** ** Contract ids from the environment (constants.ts, config.ts)

    Strings here are ASCII, as crate names and environment keys are;
    an object is the list of its own properties in insertion order,
    names inherited from [Object.prototype] being outside the model. *)

Module Constants.

Definition code (c : ascii) : N := N_of_ascii c.

Definition is_lower (c : ascii) : bool := (97 <=? code c)%N && (code c <=? 122)%N.
Definition is_upper (c : ascii) : bool := (65 <=? code c)%N && (code c <=? 90)%N.

Definition upper_char (c : ascii) : ascii :=
  if is_lower c then ascii_of_N (code c - 32) else c.

Definition lower_char (c : ascii) : ascii :=
  if is_upper c then ascii_of_N (code c + 32) else c.

Definition map_chars (f : ascii -> ascii) (s : string) : string :=
  string_of_list_ascii (map f (list_ascii_of_string s)).

(** [s.toUpperCase()], [s.toLowerCase()] *)
Definition toUpperCase : string -> string := map_chars upper_char.
Definition toLowerCase : string -> string := map_chars lower_char.

(** [s.replace(/c/g, d)] for single characters *)
Definition replaceAll (c d : ascii) : string -> string :=
  map_chars (fun x => if Ascii.eqb x c then d else x).

(** [s.startsWith(p)], [s.endsWith(p)] *)
Definition startsWith (p s : string) : bool := String.prefix p s.

Definition endsWith (p s : string) : bool :=
  (String.length p <=? String.length s)%nat
  && bool_decide (drop (String.length s - String.length p)
                    (list_ascii_of_string s)
                  = list_ascii_of_string p).

(** [s.slice(from, to)] for indices within the string *)
Definition slice (from to : nat) (s : string) : string :=
  string_of_list_ascii (take (to - from) (drop from (list_ascii_of_string s))).

(** [Boolean(s)] for a string or undefined *)
Definition truthy (value : option string) : bool :=
  match value with
  | Some s => negb (String.eqb s "")
  | None => false
  end.

(** A [Record<string, string>] and [record[key]]. *)
Definition Record_ : Type := list (string * string).

Fixpoint get (record : Record_) (key : string) : option string :=
  match record with
  | [] => None
  | (k, v) :: rest => if String.eqb k key then Some v else get rest key
  end.

(** [RuntimeConfig] of runtimeConfig.ts; [None] is a missing field. *)
Record RuntimeConfig : Type := mkRuntimeConfig {
  rpcUrl : option string;
  networkPassphrase : option string;
  contractIds : option Record_;
  simulationSourceAddress : option string
}.

Definition contractEnvKey (crateName : string) : string :=
  let envKey := toUpperCase (replaceAll "-" "_" crateName) in
  ("VITE_" ++ envKey ++ "_CONTRACT_ID")%string.

(** [key.slice('VITE_'.length, key.length - '_CONTRACT_ID'.length)
    .toLowerCase().replace(/_/g, '-')] *)
Definition crateName_of (key : string) : string :=
  let envKey := slice 5 (String.length key - 12) key in
  replaceAll "_" "-" (toLowerCase envKey).

Section Config.

(** [getRuntimeConfig()] ([None]: null) and [import.meta.env]. *)
Variable runtimeConfig : option RuntimeConfig.
Variable env : Record_.

(** [runtimeConfig?.contractIds] *)
Definition runtime_ids : option Record_ :=
  match runtimeConfig with
  | Some config => contractIds config
  | None => None
  end.

Definition getContractId (crateName : string) : string :=
  let runtimeId :=
    match runtime_ids with
    | Some ids => get ids crateName
    | None => None
    end in
  if truthy runtimeId then default ""%string runtimeId
  else
    let fromEnv := get env (contractEnvKey crateName) in
    if truthy fromEnv then default ""%string fromEnv else ""%string.

(** One turn of the first loop of [getAllContractIds]. *)
Definition take_runtime (out : gmap string string) (entry : string * string)
    : gmap string string :=
  if negb (truthy (Some (snd entry))) then out
  else <[fst entry := snd entry]> out.

(** One turn of its second loop. *)
Definition take_env (out : gmap string string) (entry : string * string)
    : gmap string string :=
  let key := fst entry in
  let value := snd entry in
  if negb (startsWith "VITE_" key) || negb (endsWith "_CONTRACT_ID" key)
  then out
  else if negb (truthy (Some value)) then out
  else
    let crateName := crateName_of key in
    if negb (truthy (out !! crateName)) then <[crateName := value]> out
    else out.

Definition getAllContractIds : gmap string string :=
  let out :=
    match runtime_ids with
    | Some ids => fold_left take_runtime ids ∅
    | None => ∅
    end in
  fold_left take_env env out.

(** config.ts: the table of contract ids, with the id of the bindings
    put in for 'zk-mafia' when the environment gives none, and the named
    alias. *)
Variable ZK_MAFIA_FALLBACK_ID : string.

Definition envContractIds : gmap string string :=
  if negb (truthy (getAllContractIds !! "zk-mafia"%string))
     && truthy (Some ZK_MAFIA_FALLBACK_ID)
  then <["zk-mafia"%string := ZK_MAFIA_FALLBACK_ID]> getAllContractIds
  else getAllContractIds.

Definition zkMafiaId : string :=
  if truthy (Some (getContractId "zk-mafia")) then getContractId "zk-mafia"
  else ZK_MAFIA_FALLBACK_ID.

End Config.

(** A crate name of lower-case letters, digits and hyphens; an
    environment key of upper-case letters, digits and underscores. *)
Definition crate_char (c : ascii) : bool :=
  is_lower c || Digits.is_digit c || Ascii.eqb c "-".

Definition env_char (c : ascii) : bool :=
  is_upper c || Digits.is_digit c || Ascii.eqb c "_".

Definition crate_name (s : string) : Prop :=
  forallb crate_char (list_ascii_of_string s) = true.

Definition env_name (s : string) : Prop :=
  forallb env_char (list_ascii_of_string s) = true.

End Constants.

(** * Properties *)

(** ** Digit strings *)

Section DigitFacts.
Import Digits.

Lemma digit_val_range (c : ascii) :
  is_digit c = true -> 0 <= digit_val c <= 9.
Proof.
  unfold is_digit, digit_val. intros H.
  apply andb_true_iff in H as [H1 H2].
  apply Nat.leb_le in H1, H2. lia.
Qed.

Lemma dval_snoc (s : list ascii) (c : ascii) :
  dval (s ++ [c]) = 10 * dval s + digit_val c.
Proof. unfold dval. now rewrite fold_left_app. Qed.

Lemma dval_app (a b : list ascii) :
  dval (a ++ b) = dval a * 10 ^ Z.of_nat (length b) + dval b.
Proof.
  induction b as [|c b IH] using rev_ind.
  - rewrite app_nil_r. cbn. lia.
  - rewrite app_assoc, !dval_snoc, IH, length_app. cbn [length].
    replace (Z.of_nat (length b + 1)) with (Z.succ (Z.of_nat (length b))) by lia.
    rewrite Z.pow_succ_r by lia. ring.
Qed.

Lemma dval_bounds (s : list ascii) :
  all_digits s = true -> 0 <= dval s < 10 ^ Z.of_nat (length s).
Proof.
  induction s as [|c s IH] using rev_ind; intros H.
  - cbn. lia.
  - unfold all_digits in *. rewrite forallb_app in H.
    apply andb_true_iff in H as [Hs Hc]. cbn in Hc.
    rewrite andb_true_r in Hc. apply digit_val_range in Hc.
    specialize (IH Hs). rewrite dval_snoc, length_app. cbn [length].
    replace (Z.of_nat (length s + 1)) with (Z.succ (Z.of_nat (length s))) by lia.
    rewrite Z.pow_succ_r by lia.
    clear Hs. generalize dependent (10 ^ Z.of_nat (length s)). intros; lia.
Qed.

Lemma dval_zeros (n : nat) : dval (repeat "0"%char n) = 0.
Proof.
  induction n as [|n IH]; [reflexivity|].
  change (repeat "0"%char (S n)) with (["0"%char] ++ repeat "0"%char n).
  rewrite dval_app, IH. change (dval ["0"%char]) with 0. lia.
Qed.

Lemma all_digits_app (a b : list ascii) :
  all_digits (a ++ b) = all_digits a && all_digits b.
Proof. apply forallb_app. Qed.

Lemma all_digits_zeros (n : nat) : all_digits (repeat "0"%char n) = true.
Proof. induction n; [reflexivity | assumption]. Qed.

Lemma all_digits_firstn (n : nat) (s : list ascii) :
  all_digits s = true -> all_digits (firstn n s) = true.
Proof.
  revert n. induction s as [|c s IH]; intros [|n] H; try reflexivity.
  cbn in *. apply andb_true_iff in H as [Hc Hs].
  rewrite Hc. cbn. now apply IH.
Qed.

End DigitFacts.

(** ** [parsePoints] *)

Section PointsFacts.
Import Digits Points.

Lemma clean_chars (value : list ascii) :
  forallb digit_or_dot (clean value) = true.
Proof.
  unfold clean. induction value as [|c v IH]; [reflexivity|].
  cbn [List.filter]. destruct (digit_or_dot c) eqn:E; [|exact IH].
  cbn [forallb]. now rewrite E.
Qed.

Lemma split_dot_pieces (s : list ascii) :
  forallb digit_or_dot s = true ->
  forallb all_digits (split_dot s) = true.
Proof.
  induction s as [|c s IH]; intros H; [reflexivity|].
  cbn in H. apply andb_true_iff in H as [Hc Hs]. specialize (IH Hs).
  cbn [split_dot]. destruct (is_dot c) eqn:Ed.
  - cbn. exact IH.
  - unfold digit_or_dot in Hc. rewrite Ed, orb_false_r in Hc.
    destruct (split_dot s) as [|piece rest]; cbn [forallb] in *.
    + unfold all_digits. cbn [forallb]. now rewrite Hc.
    + apply andb_true_iff in IH as [Hp Hr]. rewrite Hr, andb_true_r.
      unfold all_digits in *. cbn [forallb]. now rewrite Hc, Hp.
Qed.

Lemma destructure_digits (parts : list (list ascii)) (i : nat)
    (default : list ascii) :
  forallb all_digits parts = true -> all_digits default = true ->
  all_digits (destructure parts i default) = true.
Proof.
  intros Hp Hd. unfold destructure.
  destruct (parts !! i) as [piece|] eqn:E; [|exact Hd].
  rewrite forallb_forall in Hp. apply Hp.
  apply list_elem_of_In. eapply list_elem_of_lookup_2; eauto.
Qed.

Lemma whole_of_digits (value : list ascii) :
  all_digits (whole_of (clean value)) = true.
Proof.
  apply destructure_digits; [|reflexivity].
  apply split_dot_pieces, clean_chars.
Qed.

Lemma fraction_of_digits (value : list ascii) :
  all_digits (fraction_of (clean value)) = true.
Proof.
  apply destructure_digits; [|reflexivity].
  apply split_dot_pieces, clean_chars.
Qed.

Lemma padded_length (f : list ascii) : length (padded f) = 7%nat.
Proof.
  unfold padded, slice0, padEnd, POINTS_DECIMALS.
  rewrite length_firstn, length_app, repeat_length. lia.
Qed.

Lemma padded_digits (f : list ascii) :
  all_digits f = true -> all_digits (padded f) = true.
Proof.
  intros H. unfold padded, slice0, padEnd.
  apply all_digits_firstn. now rewrite all_digits_app, H, all_digits_zeros.
Qed.

(** Padding with zeros and cutting after seven digits multiplies the
    fraction by 10^7 and truncates. *)
Lemma padded_value (f : list ascii) :
  all_digits f = true ->
  dval (padded f) = dval f * 10 ^ 7 / 10 ^ Z.of_nat (length f).
Proof.
  intros H. unfold padded, slice0, padEnd, POINTS_DECIMALS.
  destruct (Nat.le_gt_cases (length f) 7) as [Hle|Hgt].
  - rewrite firstn_all2 by (rewrite length_app, repeat_length; lia).
    rewrite dval_app, dval_zeros, repeat_length, Z.add_0_r.
    assert (E : 10 ^ 7
                = 10 ^ Z.of_nat (7 - length f) * 10 ^ Z.of_nat (length f)).
    { rewrite <- Z.pow_add_r by lia. f_equal. lia. }
    rewrite E, Z.mul_assoc.
    rewrite Z.div_mul; [reflexivity|]. apply Z.pow_nonzero; lia.
  - replace (7 - length f)%nat with 0%nat by lia. cbn [repeat].
    rewrite app_nil_r.
    rewrite <- (firstn_skipn 7 f) at 2 3.
    assert (Hl : length (firstn 7 f) = 7%nat) by (rewrite length_firstn; lia).
    rewrite dval_app, length_app, Hl.
    pose proof (dval_bounds (skipn 7 f)) as Hb.
    rewrite <- (firstn_skipn 7 f) in H. rewrite all_digits_app in H.
    apply andb_true_iff in H as [_ H]. specialize (Hb H). clear H.
    set (k := Z.of_nat (length (skipn 7 f))) in *.
    replace (Z.of_nat (7 + length (skipn 7 f))) with (7 + k) by lia.
    rewrite Z.pow_add_r by lia.
    assert (Hk : 0 < 10 ^ k) by (apply Z.pow_pos_nonneg; lia).
    rewrite Z.mul_comm, Z.div_mul_cancel_l by lia.
    rewrite Z.div_add_l by lia. rewrite Z.div_small by lia. lia.
Qed.

Lemma Qfloor_decimal (w f : list ascii) :
  Qfloor (decimal_value w f * inject_Z (10 ^ 7))
  = dval w * 10 ^ 7 + dval f * 10 ^ 7 / 10 ^ Z.of_nat (length f).
Proof.
  unfold decimal_value.
  assert (Hp : 0 < 10 ^ Z.of_nat (length f)) by (apply Z.pow_pos_nonneg; lia).
  set (p := 10 ^ Z.of_nat (length f)) in *.
  unfold Qfloor, Qmult, Qplus, inject_Z. cbn [Qnum Qden].
  rewrite !Pos.mul_1_l, Pos.mul_1_r, Z.mul_1_r.
  rewrite Z2Pos.id by exact Hp.
  replace ((dval w * p + dval f) * 10 ^ 7)
    with (dval w * 10 ^ 7 * p + dval f * 10 ^ 7) by ring.
  apply Z.div_add_l. lia.
Qed.

End PointsFacts.

Section PointsTheorem.
Import Digits Points.

Example parsePoints_default : parsePoints "0.1" = Some 1000000.
Proof. reflexivity. Qed.

Example parsePoints_truncates : parsePoints "1.23456789" = Some 12345678.
Proof. reflexivity. Qed.

Example parsePoints_drops_sign : parsePoints "-5" = Some 50000000.
Proof. reflexivity. Qed.

Example parsePoints_letters : parsePoints "abc" = None.
Proof. reflexivity. Qed.

Example parsePoints_second_dot : parsePoints "1.2.3" = Some 12000000.
Proof. reflexivity. Qed.

(** What [parsePoints] computes, in terms of the pieces it cuts the
    cleaned string into. *)
Lemma parsePoints_pieces (value : list ascii) :
  let cleaned := clean value in
  parsePoints_try value <> inl tt /\
  (((cleaned = [] \/ cleaned = ["."%char]) /\ parsePoints_chars value = None)
   \/
   ((cleaned <> [] /\ cleaned <> ["."%char]) /\
    exists n : Z,
      parsePoints_chars value = Some n /\ 0 <= n /\
      n = Qfloor (decimal_value (whole_of cleaned) (fraction_of cleaned)
                  * inject_Z (10 ^ 7)))).
Proof.
  intros cleaned. unfold parsePoints_chars, parsePoints_try.
  fold cleaned.
  destruct cleaned as [|c0 rest] eqn:Ec.
  { split; [discriminate|]. left. split; [now left | reflexivity]. }
  rewrite <- Ec. destruct (decide (cleaned = ["."%char])) as [Hd|Hd].
  { split; [discriminate|]. left. split; [now right | reflexivity]. }
  pose proof (whole_of_digits value) as Hw.
  pose proof (fraction_of_digits value) as Hf.
  fold cleaned in Hw, Hf.
  pose proof (padded_digits _ Hf) as Hp.
  unfold BigInt. rewrite all_digits_app, Hw, Hp. cbn [andb].
  split; [discriminate|]. right. split.
  { split; [rewrite Ec; discriminate | exact Hd]. }
  eexists. split; [reflexivity|].
  rewrite dval_app, padded_length, (padded_value _ Hf), Qfloor_decimal.
  split; [|reflexivity].
  pose proof (dval_bounds _ Hw) as [Hw0 _].
  pose proof (dval_bounds _ Hf) as [Hf0 _].
  assert (0 <= dval (fraction_of cleaned) * 10 ^ 7
               / 10 ^ Z.of_nat (length (fraction_of cleaned))).
  { apply Z.div_pos; [|apply Z.pow_pos_nonneg; lia]. lia. }
  change (Z.of_nat 7) with 7. lia.
Qed.

(** The character classes of the regular expression, against the
    reference reading of a character. *)
Lemma kind_spec (c : ascii) :
  match Numeral.kind c with
  | Numeral.Digit d =>
      is_digit c = true /\ is_dot c = false /\ digit_val c = d
  | Numeral.Dot => is_digit c = false /\ is_dot c = true
  | Numeral.Other => is_digit c = false /\ is_dot c = false
  end.
Proof.
  destruct c as [[] [] [] [] [] [] [] []]; vm_compute; repeat split.
Qed.

Lemma split_dot_cons (s : list ascii) :
  exists (piece : list ascii) (rest : list (list ascii)),
    split_dot s = piece :: rest.
Proof.
  induction s as [|c s (piece & rest & IH)]; [now exists [], []|].
  cbn [split_dot]. destruct (is_dot c); [now eexists _, _|].
  rewrite IH. now eexists _, _.
Qed.

Lemma after_dot_Qmake (f : list ascii) :
  (Qmake (dval f) (Z.to_pos (10 ^ Z.of_nat (length f))) == after_dot f)%Q.
Proof.
  unfold after_dot.
  assert (Hp : 0 < 10 ^ Z.of_nat (length f)) by (apply Z.pow_pos_nonneg; lia).
  destruct (10 ^ Z.of_nat (length f)) as [|q|q] eqn:E; try lia.
  cbn [Z.to_pos]. apply Qmake_Qdiv.
Qed.

Lemma after_dot_cons (c : ascii) (f : list ascii) :
  (after_dot (c :: f) == (inject_Z (digit_val c) + after_dot f) / 10)%Q.
Proof.
  unfold after_dot.
  change (c :: f) with ([c] ++ f). rewrite dval_app.
  change (dval [c]) with (10 * 0 + digit_val c). cbn [app length].
  rewrite Nat2Z.inj_succ, Z.pow_succ_r by lia.
  assert (Hp : 0 < 10 ^ Z.of_nat (length f)) by (apply Z.pow_pos_nonneg; lia).
  set (q := 10 ^ Z.of_nat (length f)) in *.
  rewrite !inject_Z_plus, !inject_Z_mult.
  assert (Hq : ~ (inject_Z q == 0)%Q).
  { intros H. apply (Qeq_bool_neq (inject_Z q) 0); [|exact H].
    unfold Qeq_bool, inject_Z. cbn. apply Z.eqb_neq. lia. }
  change (inject_Z 10) with 10%Q.
  replace (10 * 0 + digit_val c) with (digit_val c) by lia.
  clearbody q. generalize dependent (inject_Z q). intros x Hx.
  generalize (inject_Z (digit_val c)) (inject_Z (dval f)). intros y z.
  field. exact Hx.
Qed.

(** The first piece of the split is what the reference reads as
    decimals when it starts right after a dot ... *)
Lemma decimals_first_piece (value : list ascii) :
  (Numeral.decimals value
   == after_dot (destructure (split_dot (clean value)) 0 []))%Q.
Proof.
  induction value as [|c v IH]; [reflexivity|].
  pose proof (kind_spec c) as Hk. unfold clean in *.
  cbn [Numeral.decimals List.filter].
  change (digit_or_dot c) with (is_digit c || is_dot c).
  destruct (Numeral.kind c) as [d| |].
  - destruct Hk as (-> & Hdot & <-). cbn [orb split_dot]. rewrite Hdot.
    destruct (split_dot_cons (List.filter digit_or_dot v))
      as (piece & rest & E).
    rewrite E in *.
    unfold destructure in *. cbn [lookup list_lookup] in *.
    now rewrite after_dot_cons, IH.
  - destruct Hk as (Hdig & Hdot). rewrite Hdig, Hdot.
    cbn [orb split_dot]. rewrite Hdot. reflexivity.
  - destruct Hk as (-> & ->). cbn [orb]. exact IH.
Qed.

(** ... and the first two pieces are what it reads from the start. *)
Lemma reading_pieces (value : list ascii) (integral : Z) :
  (Numeral.reading value integral
   == inject_Z (fold_left (fun acc c => (10 * acc + digit_val c)%Z)
                  (destructure (split_dot (clean value)) 0 []) integral)
      + after_dot (fraction_of (clean value)))%Q.
Proof.
  revert integral. induction value as [|c v IH]; intros integral.
  { change (inject_Z integral == inject_Z integral + 0)%Q.
    now rewrite Qplus_0_r. }
  pose proof (kind_spec c) as Hk. unfold fraction_of, clean in *.
  cbn [Numeral.reading List.filter].
  change (digit_or_dot c) with (is_digit c || is_dot c).
  destruct (Numeral.kind c) as [d| |].
  - destruct Hk as (-> & Hdot & <-). cbn [orb split_dot]. rewrite Hdot.
    rewrite IH.
    destruct (split_dot_cons (List.filter digit_or_dot v))
      as (piece & rest & E).
    rewrite E.
    unfold destructure. cbn [lookup list_lookup fold_left]. reflexivity.
  - destruct Hk as (Hdig & Hdot). rewrite Hdig, Hdot.
    cbn [orb split_dot]. rewrite Hdot.
    unfold destructure at 1 2. cbn [lookup list_lookup fold_left].
    apply Qplus_comp; [reflexivity|].
    apply (decimals_first_piece v).
  - destruct Hk as (-> & ->). cbn [orb]. apply IH.
Qed.

Lemma whole_of_first_piece (s : list ascii) :
  whole_of s = destructure (split_dot s) 0 [].
Proof.
  unfold whole_of, destructure.
  now destruct (split_dot_cons s) as (piece & rest & ->).
Qed.

Lemma written_pieces (value : list ascii) :
  (Numeral.written value
   == decimal_value (whole_of (clean value)) (fraction_of (clean value)))%Q.
Proof.
  unfold Numeral.written, decimal_value.
  rewrite reading_pieces, after_dot_Qmake, whole_of_first_piece.
  reflexivity.
Qed.

(** What is left after cleaning, by the digits and dots of the string. *)
Lemma clean_counts (value : list ascii) :
  (clean value = [] <->
   Numeral.digits_in value = 0%nat /\ Numeral.dots_in value = 0%nat) /\
  (clean value = ["."%char] <->
   Numeral.digits_in value = 0%nat /\ Numeral.dots_in value = 1%nat).
Proof.
  induction value as [|c v [IH0 IH1]].
  { cbn. repeat split; try discriminate; intros [_ H]; discriminate. }
  pose proof (kind_spec c) as Hk. unfold clean in *.
  cbn [Numeral.digits_in Numeral.dots_in List.filter].
  change (digit_or_dot c) with (is_digit c || is_dot c).
  destruct (Numeral.kind c) as [d| |] eqn:Ek.
  - destruct Hk as (-> & Hdot & _). cbn [orb].
    split; split; try discriminate; try (intros [H _]; discriminate H).
    intros [= -> _]. vm_compute in Hdot. discriminate Hdot.
  - destruct Hk as (-> & Hdot). rewrite Hdot. cbn [orb].
    split; split; try discriminate; try (intros [_ H]; discriminate).
    + intros [= _ H]. apply IH0 in H as [H1 H2]. now rewrite H1, H2.
    + intros [H1 [= H2]]. f_equal.
      * destruct c as [[] [] [] [] [] [] [] []]; try discriminate.
        reflexivity.
      * now apply IH0.
  - destruct Hk as (-> & ->). cbn [orb]. now split.
Qed.

Lemma no_number_clean (value : list ascii) :
  Numeral.no_number value = true <->
  clean value = [] \/ clean value = ["."%char].
Proof.
  destruct (clean_counts value) as [H0 H1]. unfold Numeral.no_number.
  rewrite andb_true_iff, Nat.eqb_eq, Nat.leb_le, H0, H1. lia.
Qed.

(** C9. [parsePoints] never throws (the body of its [try] block never
    raises, so the [catch] is dead).  On every input string it returns
    [null] when the string spells no number (not one digit, and at most
    one dot), and otherwise the number the string spells (its digits up
    to the first dot, then the digits up to the next dot as decimals,
    every other character passed over), scaled by 10^7 and rounded down,
    that is, cut after the seventh decimal.  The number spelled is never
    negative, and neither is the result. *)
Theorem parsePoints_total_nonneg_scaled (value : string) :
  let chars := list_ascii_of_string value in
  parsePoints_try chars <> inl tt /\
  parsePoints value
  = (if Numeral.no_number chars then None
     else Some (Qfloor (Numeral.written chars * inject_Z (10 ^ 7)))) /\
  (0 <= Numeral.written chars)%Q /\
  (forall n : Z, parsePoints value = Some n -> 0 <= n).
Proof.
  intros chars. unfold parsePoints. fold chars.
  destruct (parsePoints_pieces chars) as [Htotal Hcases].
  assert (Hwritten : (0 <= Numeral.written chars)%Q).
  { rewrite written_pieces. unfold decimal_value.
    pose proof (dval_bounds _ (whole_of_digits chars)) as [Hw _].
    pose proof (dval_bounds _ (fraction_of_digits chars)) as [Hf _].
    apply Qle_trans with (inject_Z 0 + 0)%Q; [discriminate|].
    apply Qplus_le_compat.
    - now rewrite <- Zle_Qle.
    - unfold Qle. cbn. lia. }
  split; [exact Htotal|].
  destruct Hcases as [[Hnone ->]|[[Hsome Hdot] (n & -> & Hn & ->)]].
  - apply no_number_clean in Hnone. rewrite Hnone.
    split; [reflexivity|]. split; [exact Hwritten | discriminate].
  - destruct (Numeral.no_number chars) eqn:E.
    { apply no_number_clean in E as [E|E]; contradiction. }
    split; [|split; [exact Hwritten|]].
    + f_equal. apply Qfloor_comp. now rewrite written_pieces.
    + intros m [= <-]. exact Hn.
Qed.

End PointsTheorem.

Lemma parsePoints_total_nonneg_scaled_witness :
  Points.parsePoints "a1.23456789" = Some 12345678 /\
  Points.parsePoints "5" = Some 50000000 /\
  Points.parsePoints "-." = None /\
  0 <= 12345678.
Proof.
  split; [|split; [|split]].
  - exact (proj1 (proj2 (parsePoints_total_nonneg_scaled "a1.23456789"))).
  - exact (proj1 (proj2 (parsePoints_total_nonneg_scaled "5"))).
  - exact (proj1 (proj2 (parsePoints_total_nonneg_scaled "-."))).
  - apply (proj2 (proj2 (proj2
             (parsePoints_total_nonneg_scaled "a1.23456789")))).
    reflexivity.
Defined.

(** ** Session identifiers *)

Section SessionIdFacts.
Import JS SessionId.

Lemma ToUint32_range (x : Z) : 0 <= ToUint32 x < 2 ^ 32.
Proof. unfold ToUint32. apply Z.mod_pos_bound. lia. Qed.

Lemma ToUint8_range (x : Z) : 0 <= ToUint8 x < 256.
Proof. unfold ToUint8. apply Z.mod_pos_bound. lia. Qed.

Lemma ToUint8_id (x : Z) : is_u8 x -> ToUint8 x = x.
Proof. unfold is_u8, ToUint8. intros H. apply Z.mod_small. lia. Qed.

Lemma or_else_one_range (x : Z) :
  0 <= x < 2 ^ 32 -> 1 <= or_else x 1 <= 2 ^ 32 - 1.
Proof.
  unfold or_else. intros H. destruct (Z.eqb_spec x 0); lia.
Qed.

(** Whatever the loop returns is a non-zero u32 that the generator
    produced at or after the current position. *)
Lemma draw_until_nonzero_sound (rng : entropy) (fuel drawn : nat) (v : Z) :
  draw_until_nonzero rng fuel drawn = Some v ->
  1 <= v <= 2 ^ 32 - 1 /\
  exists j : nat, (drawn <= j < drawn + fuel)%nat /\ v = ToUint32 (rng j).
Proof.
  revert drawn. induction fuel as [|fuel IH]; intros drawn H; [discriminate|].
  cbn [draw_until_nonzero] in H. unfold getRandomValues_u32 in H.
  destruct (Z.eqb_spec (ToUint32 (rng drawn)) 0) as [E|E].
  - apply IH in H as [Hr (j & Hj & Hv)]. split; [exact Hr|].
    exists j. split; [lia | exact Hv].
  - injection H as <-. pose proof (ToUint32_range (rng drawn)). split; [lia|].
    exists drawn. split; [lia | reflexivity].
Qed.

(** The loop stops as soon as the generator hands out a value that is
    not 0 modulo 2^32: [n] more draws after the first are enough. *)
Lemma draw_until_nonzero_stops (rng : entropy) (n drawn : nat) :
  ToUint32 (rng (drawn + n)%nat) <> 0 ->
  exists v : Z, forall fuel : nat,
    (n < fuel)%nat -> draw_until_nonzero rng fuel drawn = Some v.
Proof.
  revert drawn. induction n as [|n IH]; intros drawn H.
  - rewrite Nat.add_0_r in H. exists (ToUint32 (rng drawn)).
    intros [|fuel] Hf; [lia|]. cbn [draw_until_nonzero].
    unfold getRandomValues_u32. now destruct (Z.eqb_spec (ToUint32 (rng drawn)) 0).
  - destruct (Z.eqb_spec (ToUint32 (rng drawn)) 0) as [E|E].
    + destruct (IH (S drawn)) as [v Hv].
      { now replace (S drawn + n)%nat with (drawn + S n)%nat by lia. }
      exists v. intros [|fuel] Hf; [lia|]. cbn [draw_until_nonzero].
      unfold getRandomValues_u32. rewrite E. cbn. apply Hv. lia.
    + exists (ToUint32 (rng drawn)). intros [|fuel] Hf; [lia|].
      cbn [draw_until_nonzero]. unfold getRandomValues_u32.
      now destruct (Z.eqb_spec (ToUint32 (rng drawn)) 0).
Qed.

(** A generator that only ever hands out multiples of 2^32 keeps the
    loop running for ever. *)
Lemma draw_until_nonzero_spins (rng : entropy) :
  (forall i : nat, ToUint32 (rng i) = 0) ->
  forall fuel drawn : nat, draw_until_nonzero rng fuel drawn = None.
Proof.
  intros H fuel. induction fuel as [|fuel IH]; intros drawn; [reflexivity|].
  cbn [draw_until_nonzero]. unfold getRandomValues_u32. rewrite H. cbn. apply IH.
Qed.

Example createRandomSessionId_after_three_zero_draws :
  createRandomSessionId
    (WithCrypto (fun i => if (i <? 3)%nat then 0 else 2 ^ 32 + 7)) 10 = Some 7.
Proof. reflexivity. Qed.

Example createRandomSessionId_math_random_zero :
  createRandomSessionId (MathRandomOnly 0) 0 = Some 1.
Proof. reflexivity. Qed.

(** C8. [createRandomSessionId] and the fallback of [getInitialSessionId]
    return a session id between 1 and 2^32-1: every value returned, on
    either branch and after any number of draws, lies in that range; the
    [Math.random] branch always returns; the [crypto] branch returns as
    soon as one draw is not zero; and without a [session] URL parameter
    [getInitialSessionId] is in range too. *)
Theorem session_id_in_u32_range :
  (forall (p : platform) (fuel : nat) (v : Z),
      createRandomSessionId p fuel = Some v -> 1 <= v <= 2 ^ 32 - 1) /\
  (forall floored : Z, exists v : Z,
      1 <= v <= 2 ^ 32 - 1 /\
      forall fuel : nat,
        createRandomSessionId (MathRandomOnly floored) fuel = Some v) /\
  (forall (rng : entropy) (n : nat),
      ToUint32 (rng n) <> 0 ->
      exists v : Z,
        1 <= v <= 2 ^ 32 - 1 /\
        forall fuel : nat,
          (n < fuel)%nat ->
          createRandomSessionId (WithCrypto rng) fuel = Some v) /\
  (forall (Number : string -> option Z) (rng : entropy),
      1 <= getInitialSessionId Number None rng <= 2 ^ 32 - 1).
Proof.
  assert (Hsafe : forall p fuel v,
             createRandomSessionId p fuel = Some v -> 1 <= v <= 2 ^ 32 - 1).
  { intros [rng|floored] fuel v H; cbn in H.
    - now apply draw_until_nonzero_sound in H.
    - injection H as <-. apply or_else_one_range, ToUint32_range. }
  split; [exact Hsafe|]. split; [|split].
  - intros floored. eexists. split; [|intros fuel; reflexivity].
    apply or_else_one_range, ToUint32_range.
  - intros rng n Hn.
    destruct (draw_until_nonzero_stops rng n 0 Hn) as [v Hv].
    exists v. split; [|exact Hv].
    apply (Hsafe (WithCrypto rng) (S n)). apply Hv. lia.
  - intros Number rng. cbn. apply or_else_one_range, ToUint32_range.
Qed.

Lemma session_id_in_u32_range_witness :
  createRandomSessionId
    (WithCrypto (fun i => if (i <? 3)%nat then 0 else 2 ^ 32 + 7)) 4 = Some 7
  /\ 1 <= 7 <= 2 ^ 32 - 1.
Proof.
  split; [reflexivity|].
  apply (proj1 session_id_in_u32_range
           (WithCrypto (fun i => if (i <? 3)%nat then 0 else 2 ^ 32 + 7)) 4%nat 7).
  reflexivity.
Defined.

End SessionIdFacts.

Section Sha256Facts.
Import Sha256.

Example sha256_abc :
  hex (sha256 (bytes_of_string "abc"))
  = "ba7816bf8f01cfea414140de5dae2223b00361a396177a9cb410ff61f20015ad"%string.
Proof. vm_compute. reflexivity. Qed.

Example sha256_empty :
  hex (sha256 [])
  = "e3b0c44298fc1c149afbf4c8996fb92427ae41e4649b934ca495991b7852b855"%string.
Proof. vm_compute. reflexivity. Qed.

Example sha256_two_blocks :
  hex (sha256 (bytes_of_string
         "abcdbcdecdefdefgefghfghighijhijkijkljklmklmnlmnomnopnopq"))
  = "248d6a61d20638b8e5c026930c3e6039a33ce45964ff2167f6ecedd419db06c1"%string.
Proof. vm_compute. reflexivity. Qed.

End Sha256Facts.

(** ** The bullet commitment and the shot proof *)

Section CommitmentFacts.
Import JS Sha256 Commitment.

Lemma be_bytes_length (n : nat) (x : Z) : length (be_bytes n x) = n.
Proof. induction n as [|n IH]; cbn [be_bytes length]; congruence. Qed.

Lemma be_bytes_u8 (n : nat) (x : Z) : Forall is_u8 (be_bytes n x).
Proof.
  induction n as [|n IH]; cbn [be_bytes]; constructor; [|exact IH].
  unfold is_u8. apply Z.mod_pos_bound. lia.
Qed.

Lemma state_bytes_length (s : state) : length (state_bytes s) = 32%nat.
Proof.
  destruct s as [[[[[[[a b] c] d] e] f] g] h]. unfold state_bytes.
  rewrite !length_app, !be_bytes_length. reflexivity.
Qed.

Lemma sha256_length (msg : list Z) : length (sha256 msg) = 32%nat.
Proof. unfold sha256. apply state_bytes_length. Qed.

Lemma sha256_u8 (msg : list Z) : Forall is_u8 (sha256 msg).
Proof.
  unfold sha256.
  destruct (fold_left _ _ _) as [[[[[[[a b] c] d] e] f] g] h].
  unfold state_bytes. rewrite !Forall_app. repeat split; apply be_bytes_u8.
Qed.

Lemma map_ToUint8_id (bytes : list Z) :
  Forall is_u8 bytes -> List.map ToUint8 bytes = bytes.
Proof.
  induction 1 as [|b bytes Hb _ IH]; [reflexivity|].
  cbn [List.map]. now rewrite ToUint8_id, IH.
Qed.

Lemma insert_last (bytes : list Z) (n : nat) (old new : Z) :
  length bytes = n -> <[n := new]> (bytes ++ [old]) = bytes ++ [new].
Proof.
  revert n. induction bytes as [|b bytes IH]; intros n <-; [reflexivity|].
  cbn [length app insert list_insert]. f_equal. now apply IH.
Qed.

Lemma bullet_preimage_layout (salt : list Z) (position : Z) :
  length salt = 32%nat -> Forall is_u8 salt ->
  bullet_preimage salt position = Some (salt ++ [position mod 256]).
Proof.
  intros Hlen Hbytes. unfold bullet_preimage, Uint8Array_set, Uint8Array_new.
  rewrite Hlen, repeat_length. cbn [Nat.add Nat.leb firstn app].
  rewrite (map_ToUint8_id _ Hbytes).
  change (skipn 32 (repeat 0 33)) with [0].
  unfold Uint8Array_store. f_equal. now apply insert_last.
Qed.

(** A salt longer than the 33-byte buffer makes [set] throw. *)
Example computeBulletCommitment_long_salt :
  computeBulletCommitment (repeat 7 34) 3 = None.
Proof. reflexivity. Qed.

Example computeBulletCommitment_zero_salt :
  option_map hex (computeBulletCommitment (repeat 0 32) 3)
  = Some (hex (sha256 (repeat 0 32 ++ [3]))).
Proof. vm_compute. reflexivity. Qed.

(** C2. For a 32-byte salt and any position, [computeBulletCommitment]
    hashes the 33-byte preimage made of the salt followed by the
    position as one byte (the position modulo 256), and returns its
    SHA-256 digest, of 32 bytes. *)
Theorem computeBulletCommitment_is_sha256 (salt : list Z) (position : Z) :
  length salt = 32%nat -> Forall is_u8 salt ->
  bullet_preimage salt position = Some (salt ++ [position mod 256]) /\
  length (salt ++ [position mod 256]) = 33%nat /\
  Forall is_u8 (salt ++ [position mod 256]) /\
  computeBulletCommitment salt position
  = Some (sha256 (salt ++ [position mod 256])) /\
  length (sha256 (salt ++ [position mod 256])) = 32%nat /\
  Forall is_u8 (sha256 (salt ++ [position mod 256])).
Proof.
  intros Hlen Hbytes.
  pose proof (bullet_preimage_layout salt position Hlen Hbytes) as Hpre.
  split; [exact Hpre|]. split; [|split; [|split; [|split]]].
  - rewrite length_app, Hlen. reflexivity.
  - apply Forall_app. split; [exact Hbytes|].
    constructor; [apply (ToUint8_range position) | constructor].
  - unfold computeBulletCommitment. now rewrite Hpre.
  - apply sha256_length.
  - apply sha256_u8.
Qed.

(** The client's commitment is the one the on-chain helper
    [compute_bullet_hash] is documented to return. *)
Lemma computeBulletCommitment_mirrors_contract (salt : list Z) (position : Z) :
  length salt = 32%nat -> Forall is_u8 salt ->
  computeBulletCommitment salt position
  = Some (Contract.compute_bullet_hash salt position).
Proof.
  intros Hlen Hbytes. unfold computeBulletCommitment, Contract.compute_bullet_hash.
  now rewrite (bullet_preimage_layout salt position Hlen Hbytes).
Qed.

Lemma computeBulletCommitment_is_sha256_witness :
  (length (repeat 0 32) = 32%nat /\ Forall is_u8 (repeat 0 32)) /\
  computeBulletCommitment (repeat 0 32) 3
  = Some (sha256 (repeat 0 32 ++ [3 mod 256])).
Proof.
  assert (Hlen : length (repeat 0 32) = 32%nat) by reflexivity.
  assert (Hbytes : Forall is_u8 (repeat 0 32)).
  { cbn [repeat]. repeat (constructor; [unfold is_u8; lia|]). constructor. }
  split; [split; assumption|].
  exact (proj1 (proj2 (proj2 (proj2
           (computeBulletCommitment_is_sha256 (repeat 0 32) 3 Hlen Hbytes))))).
Defined.

Lemma getRandomValues_u8_length (rng : entropy) (from n : nat) :
  length (getRandomValues_u8 rng from n) = n.
Proof. unfold getRandomValues_u8. now rewrite length_map, length_seq. Qed.

Lemma getRandomValues_u8_bytes (rng : entropy) (from n : nat) :
  Forall is_u8 (getRandomValues_u8 rng from n).
Proof.
  unfold getRandomValues_u8. apply Forall_map, Forall_forall.
  intros i _. apply ToUint8_range.
Qed.

Lemma not_all_zero_exists (bytes : list Z) :
  forallb (fun b => b =? 0) bytes = false -> Exists (fun b => b <> 0) bytes.
Proof.
  induction bytes as [|b bytes IH]; cbn [forallb]; [discriminate|].
  destruct (Z.eqb_spec b 0) as [E|E]; cbn [andb].
  - intros H. apply Exists_cons_tl, IH, H.
  - intros _. now apply Exists_cons_hd.
Qed.

Example generateZkProof_all_zero_draws :
  generateZkProof (fun _ => 256) = 1 :: repeat 0 31.
Proof. reflexivity. Qed.

Lemma exists_not_all_zero (bytes : list Z) :
  Exists (fun b => b <> 0) bytes -> forallb (fun b => b =? 0) bytes = false.
Proof.
  induction 1 as [b l Hb | b l _ IH]; cbn [forallb].
  - now destruct (Z.eqb_spec b 0).
  - rewrite IH. apply andb_false_r.
Qed.

(** The shape of what [generateZkProof] returns. *)
Lemma generateZkProof_shape (rng : entropy) :
  length (generateZkProof rng) = 32%nat /\
  Forall is_u8 (generateZkProof rng) /\
  Exists (fun b => b <> 0) (generateZkProof rng).
Proof.
  pose proof (getRandomValues_u8_length rng 0 32) as Hlen.
  pose proof (getRandomValues_u8_bytes rng 0 32) as Hbytes.
  unfold generateZkProof.
  destruct (forallb (fun b => b =? 0) (getRandomValues_u8 rng 0 32)) eqn:E.
  - unfold Uint8Array_store.
    destruct (getRandomValues_u8 rng 0 32) as [|b0 rest]; [discriminate|].
    cbn [insert list_insert]. change (ToUint8 1) with 1.
    split; [exact Hlen|]. split.
    + inversion Hbytes; subst. constructor; [unfold is_u8; lia | assumption].
    + apply Exists_cons_hd. lia.
  - split; [exact Hlen|]. split; [exact Hbytes|].
    now apply not_all_zero_exists.
Qed.

(** C10. [generateZkProof] returns 32 bytes of which at least one is not
    zero: the all-zero array is never returned.  When the random bytes
    are not all zero they are returned as they are. *)
Theorem generateZkProof_nonzero (rng : entropy) :
  length (generateZkProof rng) = 32%nat /\
  Forall is_u8 (generateZkProof rng) /\
  Exists (fun b => b <> 0) (generateZkProof rng) /\
  generateZkProof rng <> repeat 0 32 /\
  (forallb (fun b => b =? 0) (getRandomValues_u8 rng 0 32) = false ->
   generateZkProof rng = getRandomValues_u8 rng 0 32).
Proof.
  destruct (generateZkProof_shape rng) as (Hlen & Hbytes & Hnz).
  split; [exact Hlen|]. split; [exact Hbytes|]. split; [exact Hnz|]. split.
  - intros E. rewrite E in Hnz. apply exists_not_all_zero in Hnz.
    discriminate Hnz.
  - intros E. unfold generateZkProof. now rewrite E.
Qed.

(** The proof [generateZkProof] makes passes the contract's check, which
    refuses the all-zero proof. *)
Lemma generateZkProof_passes_contract_check (rng : entropy) :
  Contract.all_zero (generateZkProof rng) = false.
Proof.
  unfold Contract.all_zero. apply exists_not_all_zero.
  apply (generateZkProof_shape rng).
Qed.

Lemma generateZkProof_nonzero_witness :
  generateZkProof (fun i => Z.of_nat i)
  = getRandomValues_u8 (fun i => Z.of_nat i) 0 32.
Proof.
  apply (proj2 (proj2 (proj2 (proj2
           (generateZkProof_nonzero (fun i => Z.of_nat i)))))).
  reflexivity.
Defined.

End CommitmentFacts.

(** ** The session state machine *)

Section ContractFacts.
Import JS Sha256 Ruleta Contract.

Lemma find_player_spec (ps : list Jugador) (who : Address) (i seat : nat)
    (p : Jugador) :
  find_player ps who i = Some (seat, p) ->
  (i <= seat)%nat /\ ps !! (seat - i)%nat = Some p /\ address p = who.
Proof.
  revert i. induction ps as [|q ps IH]; intros i H; [discriminate|].
  cbn [find_player] in H. destruct (decide (address q = who)) as [E|E].
  - injection H as <- <-. rewrite Nat.sub_diag. auto.
  - apply IH in H as (Hle & Hl & Ha). split; [lia|]. split; [|exact Ha].
    replace (seat - i)%nat with (S (seat - S i)) by lia. exact Hl.
Qed.

Lemma find_player_seat (ps : list Jugador) (who : Address) (seat : nat)
    (p : Jugador) :
  find_player ps who 0 = Some (seat, p) ->
  ps !! seat = Some p /\ address p = who.
Proof.
  intros H. apply find_player_spec in H as (_ & Hl & Ha).
  now rewrite Nat.sub_0_r in Hl.
Qed.

Lemma checked_succ_fits (x : Z) :
  x + 1 < 2 ^ 32 -> checked_succ x = Some (x + 1).
Proof.
  intros H. unfold checked_succ. destruct (Z.ltb_spec (x + 1) (2 ^ 32)); [reflexivity | lia].
Qed.

Lemma reload_position_range (seed_bytes : Z -> Z -> list Z)
    (digest_number : list Z -> Z) (sid shots : Z) :
  0 <= reload_position seed_bytes digest_number sid shots < 6.
Proof. unfold reload_position, NUM_CHAMBERS. apply Z.mod_pos_bound. lia. Qed.

(** What [cargar_revolver] stores is what it was given. *)
Lemma cargar_revolver_stores (auth : Address -> bool) (w w' : World)
    (sid : Z) (player : Address) (commitment : list Z) (position : Z) :
  cargar_revolver auth w sid player commitment position = Done tt w' ->
  exists game' : PartidaRuleta,
    get_game w' sid = ResOk game' /\
    bullet_commitment game' = commitment /\
    bullet_position game' = position /\
    phase game' = PHASE_PLAYING /\
    shots_fired game' = 0 /\ current_chamber game' = 0.
Proof.
  unfold cargar_revolver. intros H.
  destruct (auth player); cbn [negb] in H; [|discriminate].
  destruct (games w !! sid) as [game|] eqn:Eg; [|discriminate].
  destruct (phase game =? PHASE_WAITING); cbn [negb] in H; [|discriminate].
  destruct (find_player (players game) player 0); [|discriminate].
  destruct (length (players game) <? 2)%nat; [discriminate|].
  destruct ((0 <=? position) && (position <? NUM_CHAMBERS));
    cbn [negb] in H; [|discriminate].
  injection H as <-. eexists. unfold get_game. cbn [games].
  rewrite lookup_insert_eq. repeat split.
Qed.

(** The guards of [disparar], for a call that is in order. *)
Ltac pass_guards Hauth Hgame Hphase Hfind Halive Hturn Hproof Hshots :=
  unfold disparar;
  rewrite Hauth; cbn [negb];
  rewrite Hgame, Hphase;
  change (PHASE_PLAYING =? PHASE_FINISHED) with false;
  change (PHASE_PLAYING =? PHASE_PLAYING) with true; cbn [negb];
  rewrite Hfind, Halive; cbn [negb];
  rewrite Hturn, Z.eqb_refl; cbn [negb];
  rewrite Hproof, (checked_succ_fits _ Hshots).

Lemma alive_addresses_length (ps : list Jugador) :
  length (alive_addresses ps) = length (List.filter is_alive ps).
Proof. unfold alive_addresses. apply length_map. Qed.

Lemma alive_after_elimination (ps : list Jugador) (seat : nat) (p : Jugador) :
  ps !! seat = Some p -> is_alive p = true ->
  S (length (alive_addresses (<[seat := eliminate p]> ps)))
  = length (alive_addresses ps).
Proof.
  rewrite !alive_addresses_length.
  revert seat. induction ps as [|q ps IH]; intros [|seat] Hl Ha;
    try discriminate.
  - cbn in Hl. injection Hl as ->.
    cbn [insert list_insert List.filter eliminate is_alive].
    rewrite Ha. reflexivity.
  - cbn in Hl. cbn [insert list_insert List.filter].
    destruct (is_alive q); cbn [length]; rewrite <- (IH seat Hl Ha); reflexivity.
Qed.

Section Shot.

Variable seed_bytes : Z -> Z -> list Z.
Variable digest_number : list Z -> Z.
Variable chamber_after_reload : Z -> Z.

Variable auth : Address -> bool.
Variable w : World.
Variable sid : Z.
Variable player : Address.
Variable zk_proof : list Z.
Variable game : PartidaRuleta.
Variable seat : nat.
Variable p : Jugador.

(** The call is in order: the session is being played, it is the
    caller's turn, the caller is alive and has authorized the call, the
    proof is not all zero, and the u32 shot counter has room. *)
Hypothesis Hgame : games w !! sid = Some game.
Hypothesis Hphase : phase game = PHASE_PLAYING.
Hypothesis Hfind : find_player (players game) player 0 = Some (seat, p).
Hypothesis Halive : is_alive p = true.
Hypothesis Hturn : current_turn game = Z.of_nat seat.
Hypothesis Hauth : auth player = true.
Hypothesis Hproof : all_zero zk_proof = false.
Hypothesis Hshots : shots_fired game + 1 < 2 ^ 32.

Lemma shot_missed :
  (current_chamber game =? bullet_position game) = false ->
  current_chamber game + 1 < 2 ^ 32 ->
  disparar seed_bytes digest_number chamber_after_reload
    auth w sid player zk_proof
  = Done false
           (mkWorld
              (<[sid := after_miss game seat (shots_fired game + 1)
                          (current_chamber game + 1)]> (games w))
              (hub_calls w)).
Proof.
  intros Hmiss Hchamber.
  pass_guards Hauth Hgame Hphase Hfind Halive Hturn Hproof Hshots.
  rewrite Hmiss, (checked_succ_fits _ Hchamber). reflexivity.
Qed.

Lemma shot_hit_last (survivor : Address) :
  (current_chamber game =? bullet_position game) = true ->
  alive_addresses (seats_after_hit game seat p) = [survivor] ->
  disparar seed_bytes digest_number chamber_after_reload
    auth w sid player zk_proof
  = Done true
           (mkWorld
              (<[sid := after_last_hit game (seats_after_hit game seat p)
                          player survivor
                          (shots_fired game + 1)]> (games w))
              (hub_calls w ++
                 [end_game sid (bool_decide (survivor = hub_player1 game))])).
Proof.
  intros Hhit Hone.
  pass_guards Hauth Hgame Hphase Hfind Halive Hturn Hproof Hshots.
  rewrite Hhit, Hone. reflexivity.
Qed.

Lemma shot_hit_reload :
  (current_chamber game =? bullet_position game) = true ->
  (2 <= length (alive_addresses (seats_after_hit game seat p)))%nat ->
  disparar seed_bytes digest_number chamber_after_reload
    auth w sid player zk_proof
  = Done true
           (mkWorld
              (<[sid := after_reload seed_bytes digest_number
                          chamber_after_reload sid game seat
                          (seats_after_hit game seat p)
                          player (shots_fired game + 1)]> (games w))
              (hub_calls w)).
Proof.
  intros Hhit Hmany.
  pass_guards Hauth Hgame Hphase Hfind Halive Hturn Hproof Hshots.
  rewrite Hhit.
  destruct (alive_addresses (seats_after_hit game seat p)) as [|a [|b rest]];
    cbn [length] in Hmany; try lia.
  reflexivity.
Qed.


(** C3. A hit that leaves two or more players alive goes on with a new
    bullet chamber, [hash(session_id ‖ shots_fired) mod 6] taken at the
    shot counter that includes the shot just fired; the counter goes on
    from its value and is not reset, the session stays in play without a
    winner, and the stored commitment is not replaced. *)
Theorem reload_after_elimination :
  current_chamber game = bullet_position game ->
  (2 <= length (alive_addresses (seats_after_hit game seat p)))%nat ->
  exists (w' : World) (game' : PartidaRuleta),
    disparar seed_bytes digest_number chamber_after_reload
      auth w sid player zk_proof
    = Done true w' /\
    games w' !! sid = Some game' /\
    bullet_position game'
    = digest_number (sha256 (seed_bytes sid (shots_fired game + 1))) mod 6 /\
    0 <= bullet_position game' < 6 /\
    shots_fired game' = shots_fired game + 1 /\
    players game' = seats_after_hit game seat p /\
    phase game' = PHASE_PLAYING /\
    winner game' = None /\
    bullet_commitment game' = bullet_commitment game /\
    hub_calls w' = hub_calls w.
Proof.
  intros Hhit Hmany. apply Z.eqb_eq in Hhit.
  eexists _, _. split; [now apply shot_hit_reload|].
  cbn [games]. rewrite lookup_insert_eq. split; [reflexivity|].
  cbn [after_reload bullet_position shots_fired players phase winner
       bullet_commitment hub_calls].
  split; [reflexivity|]. split; [apply reload_position_range|].
  repeat split.
Qed.

End Shot.

(** Only a call that is in order gets through: the conditions under
    which the shot is studied above are the ones [disparar] checks. *)
Lemma disparar_done_inv (seed_bytes : Z -> Z -> list Z)
    (digest_number : list Z -> Z) (chamber_after_reload : Z -> Z)
    (auth : Address -> bool) (w w' : World) (sid : Z) (player : Address)
    (zk_proof : list Z) (was_hit : bool) :
  disparar seed_bytes digest_number chamber_after_reload
    auth w sid player zk_proof = Done was_hit w' ->
  exists (game : PartidaRuleta) (seat : nat) (p : Jugador),
    games w !! sid = Some game /\
    phase game = PHASE_PLAYING /\
    find_player (players game) player 0 = Some (seat, p) /\
    is_alive p = true /\
    current_turn game = Z.of_nat seat /\
    auth player = true /\
    all_zero zk_proof = false /\
    shots_fired game + 1 < 2 ^ 32 /\
    was_hit = (current_chamber game =? bullet_position game) /\
    (was_hit = false -> current_chamber game + 1 < 2 ^ 32).
Proof.
  unfold disparar. intros H.
  destruct (auth player) eqn:Ea; cbn [negb] in H; [|discriminate].
  destruct (games w !! sid) as [game|] eqn:Eg; [|discriminate].
  destruct (Z.eqb_spec (phase game) PHASE_FINISHED) as [|_]; [discriminate|].
  destruct (Z.eqb_spec (phase game) PHASE_PLAYING) as [Ep|];
    cbn [negb] in H; [|discriminate].
  destruct (find_player (players game) player 0) as [[seat p]|] eqn:Ef;
    [|discriminate].
  destruct (is_alive p) eqn:El; cbn [negb] in H; [|discriminate].
  destruct (Z.eqb_spec (Z.of_nat seat) (current_turn game)) as [Et|];
    cbn [negb] in H; [|discriminate].
  destruct (all_zero zk_proof) eqn:Ez; [discriminate|].
  unfold checked_succ in H.
  destruct (Z.ltb_spec (shots_fired game + 1) (2 ^ 32)) as [Hs|];
    [|discriminate].
  exists game, seat, p. do 8 (split; [auto|]).
  destruct (current_chamber game =? bullet_position game) eqn:Eh.
  - destruct (alive_addresses (seats_after_hit game seat p)) as [|a [|b rest]];
      try discriminate; injection H as <- _; (split; [reflexivity | discriminate]).
  - destruct (Z.ltb_spec (current_chamber game + 1) (2 ^ 32)) as [Hc|];
      [|discriminate].
    injection H as <- _. split; [reflexivity | intros _; exact Hc].
Qed.

Lemma all_alive_count (ps : list Jugador) :
  Forall (fun p => is_alive p = true) ps ->
  length (alive_addresses ps) = length ps.
Proof.
  rewrite alive_addresses_length.
  induction 1 as [|p ps Hp _ IH]; [reflexivity|].
  cbn [List.filter]. rewrite Hp. cbn [length]. now rewrite IH.
Qed.

(** Loading the revolver on a lobby where nobody is out yet puts the
    session in play with at least two players alive. *)
Lemma cargar_revolver_in_play (auth : Address -> bool) (w w' : World)
    (sid : Z) (player : Address) (commitment : list Z) (position : Z)
    (lobby : PartidaRuleta) :
  games w !! sid = Some lobby ->
  Forall (fun p => is_alive p = true) (players lobby) ->
  cargar_revolver auth w sid player commitment position = Done tt w' ->
  exists game' : PartidaRuleta,
    games w' !! sid = Some game' /\ in_play game' /\
    0 <= bullet_position game' < 6.
Proof.
  unfold cargar_revolver. intros Hl Hall H.
  destruct (auth player); cbn [negb] in H; [|discriminate].
  rewrite Hl in H.
  destruct (phase lobby =? PHASE_WAITING); cbn [negb] in H; [|discriminate].
  destruct (find_player (players lobby) player 0); [|discriminate].
  destruct (Nat.ltb_spec (length (players lobby)) 2) as [|Hn]; [discriminate|].
  destruct (Z.leb_spec 0 position) as [H0|]; cbn [andb negb] in H;
    [|discriminate].
  destruct (Z.ltb_spec position NUM_CHAMBERS) as [H6|]; cbn [negb] in H;
    [|discriminate].
  injection H as <-. eexists. cbn [games]. rewrite lookup_insert_eq.
  split; [reflexivity|]. split.
  - intros _. cbn [players]. now rewrite all_alive_count.
  - cbn [bullet_position]. unfold NUM_CHAMBERS in H6. lia.
Qed.

(** A shot keeps a session that is in play in play, until it ends. *)
Lemma disparar_keeps_in_play (seed_bytes : Z -> Z -> list Z)
    (digest_number : list Z -> Z) (chamber_after_reload : Z -> Z)
    (auth : Address -> bool) (w w' : World) (sid : Z) (player : Address)
    (zk_proof : list Z) (was_hit : bool) (game : PartidaRuleta) :
  games w !! sid = Some game ->
  in_play game ->
  disparar seed_bytes digest_number chamber_after_reload
    auth w sid player zk_proof = Done was_hit w' ->
  exists game' : PartidaRuleta, games w' !! sid = Some game' /\ in_play game'.
Proof.
  intros Hg Hin Hdone.
  destruct (disparar_done_inv _ _ _ _ _ _ _ _ _ _ Hdone)
    as (game0 & seat & p & Hg0 & Hphase & Hfind & Halive & Hturn & Hauth
        & Hproof & Hshots & Hhit & Hroom).
  rewrite Hg in Hg0. injection Hg0 as <-.
  destruct was_hit.
  - symmetry in Hhit.
    destruct (alive_addresses (seats_after_hit game seat p))
      as [|s1 [|s2 rest]] eqn:Ealive.
    + unfold disparar in Hdone. revert Hdone.
      pass_guards Hauth Hg Hphase Hfind Halive Hturn Hproof Hshots.
      rewrite Hhit, Ealive. discriminate.
    + rewrite (shot_hit_last seed_bytes digest_number chamber_after_reload
                 auth w sid player zk_proof game seat p Hg Hphase Hfind
                 Halive Hturn Hauth Hproof Hshots s1 Hhit Ealive) in Hdone.
      injection Hdone as <-. eexists. cbn [games]. rewrite lookup_insert_eq.
      split; [reflexivity|]. intros Hp. discriminate Hp.
    + assert (Hmany : (2 <= length (alive_addresses
                                      (seats_after_hit game seat p)))%nat)
        by (rewrite Ealive; cbn [length]; lia).
      rewrite (shot_hit_reload seed_bytes digest_number chamber_after_reload
                 auth w sid player zk_proof game seat p Hg Hphase Hfind
                 Halive Hturn Hauth Hproof Hshots Hhit Hmany) in Hdone.
      injection Hdone as <-. eexists. cbn [games]. rewrite lookup_insert_eq.
      split; [reflexivity|]. intros _. exact Hmany.
  - symmetry in Hhit.
    rewrite (shot_missed seed_bytes digest_number chamber_after_reload
               auth w sid player zk_proof game seat p Hg Hphase Hfind
               Halive Hturn Hauth Hproof Hshots Hhit (Hroom eq_refl))
      in Hdone.
    injection Hdone as <-. eexists. cbn [games]. rewrite lookup_insert_eq.
    split; [reflexivity|]. intros _. cbn [after_miss players]. now apply Hin.
Qed.

Section ScenarioFacts.
Import Scenario.

Example shot1_misses : returned (shoot (loaded 2) alice) = Some false.
Proof. vm_compute. reflexivity. Qed.

Example shot2_misses : returned (shoot after_shot1 bob) = Some false.
Proof. vm_compute. reflexivity. Qed.

Example shot3_hits : returned (shoot after_shot2 carol) = Some true.
Proof. vm_compute. reflexivity. Qed.

Example out_of_turn_refused :
  shoot (loaded 2) bob = Failed NotYourTurn.
Proof. vm_compute. reflexivity. Qed.

Example zero_proof_refused :
  disparar_be everyone (loaded 2) 7 alice (repeat 0 32) = Failed InvalidProof.
Proof. vm_compute. reflexivity. Qed.

(** The scenario of the specification: three players, bullet in chamber
    2, chambers 0 and 1 miss, chamber 2 hits the third firer; two players
    are left, the bullet moves to [hash(7 ‖ 3) mod 6] and the shot
    counter stands at 3. *)
Example elimination_and_reseed :
  option_map
    (fun g => (bullet_position g, shots_fired g, eliminated g,
               alive_addresses (players g), phase g, winner g))
    (read after_shot3)
  = Some (be_value (sha256 (seed_bytes_be 7 3)) mod 6, 3, [carol],
          [alice; bob], PHASE_PLAYING, None).
Proof. vm_compute. reflexivity. Qed.


Lemma reload_after_elimination_witness :
  exists (w' : World) (game' : PartidaRuleta),
    shoot after_shot2 carol = Done true w' /\
    games w' !! 7 = Some game' /\
    bullet_position game' = be_value (sha256 (seed_bytes_be 7 (2 + 1))) mod 6 /\
    shots_fired game' = 2 + 1.
Proof.
  destruct (reload_after_elimination seed_bytes_be be_value
              (fun _ => 0) everyone after_shot2 7 carol proof
              (on_table after_shot2) 2 (sitting carol))
    as (w' & game' & Hfire & Hstored & Hbullet & _ & Hshots & _).
  - vm_compute. reflexivity.
  - vm_compute. reflexivity.
  - vm_compute. reflexivity.
  - reflexivity.
  - vm_compute. reflexivity.
  - reflexivity.
  - reflexivity.
  - vm_compute. reflexivity.
  - vm_compute. reflexivity.
  - vm_compute. lia.
  - exists w', game'.
    split; [exact Hfire|]. split; [exact Hstored|].
    split; [exact Hbullet | exact Hshots].
Defined.

(** Whoever reads a session after the revolver was loaded reads the
    bullet chamber. *)
Lemma loaded_position_is_readable (auth : Address -> bool) (w w' : World)
    (sid : Z) (host : Address) (commitment : list Z) (position : Z) :
  cargar_revolver auth w sid host commitment position = Done tt w' ->
  option_map bullet_position (getGame (Simulated (get_game w' sid)))
  = Some position.
Proof.
  intros H. apply cargar_revolver_stores in H as (game' & Hg & _ & Hp & _).
  rewrite Hg. cbn. now rewrite Hp.
Qed.

(** End to end, on the modelled contract: with the bullet in chamber 2
    and in chamber 4, session 7 otherwise the same, the two reads of a
    player who is not the host differ, and in each the chamber is there
    to read before any shot is fired; with the bullet in chamber 1 that
    player's client shows, before it sends the shot, that the shot is
    going to be a hit, and so it is. *)
Lemma bullet_chamber_readable_after_loading :
  option_map bullet_position (read (loaded 2)) = Some 2 /\
  option_map bullet_position (read (loaded 4)) = Some 4 /\
  option_map shots_fired (read (loaded 2)) = Some 0 /\
  option_map shots_fired (read (loaded 4)) = Some 0 /\
  read (loaded 2) <> read (loaded 4) /\
  (let before_bob := world_after (loaded 1) (shoot (loaded 1) alice) in
   option_map animated (handleDisparar (read before_bob) (fun _ => 1) 7 bob)
   = Some true /\
   returned (shoot before_bob bob) = Some true).
Proof.
  assert (H2 : option_map bullet_position (read (loaded 2)) = Some 2)
    by (vm_compute; reflexivity).
  assert (H4 : option_map bullet_position (read (loaded 4)) = Some 4)
    by (vm_compute; reflexivity).
  repeat split; try (vm_compute; reflexivity).
  intros E. rewrite E in H2. rewrite H2 in H4. clear E H2. discriminate H4.
Qed.

Lemma handleCargarRevolver_call (rng : entropy) (pos sid : Z)
    (host : Address) :
  exists commitment : list Z,
    handleCargarRevolver rng pos sid host
    = Some (Call_cargar_revolver sid host commitment pos) /\
    Commitment.computeBulletCommitment (Commitment.generateSalt rng) pos
    = Some commitment.
Proof.
  unfold handleCargarRevolver, Commitment.computeBulletCommitment.
  rewrite (bullet_preimage_layout (Commitment.generateSalt rng) pos
             (getRandomValues_u8_length rng 0 32)
             (getRandomValues_u8_bytes rng 0 32)).
  eexists. split; reflexivity.
Qed.

(** C1, evaluated on the client.  The bullet chamber is not kept from
    the other players: the call [handleCargarRevolver] sends carries the
    position in the clear next to its commitment, whatever the salt;
    [getGame] hands the whole session record, [bullet_position]
    included, to whoever asks; and [handleDisparar] reads the outcome of
    the coming shot off that record before the shot is sent.  Two loads
    that differ only in the position, 2 or 4, are told apart by the
    position they publish. *)
Theorem bullet_position_published_in_clear :
  (forall (rng : entropy) (pos sid : Z) (host : Address),
      option_map invocation_position (handleCargarRevolver rng pos sid host)
      = Some (Some pos)) /\
  (forall game : PartidaRuleta,
      option_map bullet_position (getGame (Simulated (ResOk game)))
      = Some (bullet_position game)) /\
  (forall (game : PartidaRuleta) (rng : entropy) (sid : Z) (user : Address),
      option_map animated
        (handleDisparar (getGame (Simulated (ResOk game))) rng sid user)
      = Some (current_chamber game =? bullet_position game)) /\
  option_map invocation_position
    (handleCargarRevolver (fun _ => 0) 2 7 alice) = Some (Some 2) /\
  option_map invocation_position
    (handleCargarRevolver (fun _ => 0) 4 7 alice) = Some (Some 4) /\
  handleCargarRevolver (fun _ => 0) 2 7 alice
  <> handleCargarRevolver (fun _ => 0) 4 7 alice.
Proof.
  assert (Hsent : forall rng pos sid host,
             option_map invocation_position
               (handleCargarRevolver rng pos sid host) = Some (Some pos)).
  { intros rng pos sid host.
    destruct (handleCargarRevolver_call rng pos sid host) as (c & -> & _).
    reflexivity. }
  split; [exact Hsent|]. split; [reflexivity|]. split; [reflexivity|].
  split; [apply Hsent|]. split; [apply Hsent|].
  intros E. pose proof (Hsent (fun _ => 0) 2 7 alice) as H2.
  rewrite E, Hsent in H2. clear E. discriminate H2.
Qed.

End ScenarioFacts.

End ContractFacts.

(** ** The read calls of the service *)

Section ServiceFacts.
Import Ruleta Contract.

(** C7, as stated, fails: for [getGame] a thrown exception and any other
    contract error give the caller the same [null] as [GameNotFound]
    does, and for [whoIsAlive] the same empty list. *)
Lemma service_reads_do_not_tell_not_found_apart :
  ~ tells_not_found_apart getGame /\
  ~ tells_not_found_apart whoIsAlive /\
  getGame Thrown = getGame (Simulated (ResErr GameNotFound)) /\
  getGame (Simulated (ResErr WrongPhase))
  = getGame (Simulated (ResErr GameNotFound)) /\
  whoIsAlive Thrown = whoIsAlive (Simulated (ResErr GameNotFound)).
Proof.
  repeat split.
  - intros H. apply (H Thrown); [exact I | discriminate | reflexivity].
  - intros H. apply (H Thrown); [exact I | discriminate | reflexivity].
Qed.

(** The modelled contract's read calls answer with a typed result,
    [GameNotFound] exactly for an unknown session. *)
Lemma contract_reads_are_typed (w : World) (sid : Z) :
  (get_game w sid = ResErr GameNotFound <-> games w !! sid = None) /\
  (who_is_alive w sid = ResErr GameNotFound <-> games w !! sid = None) /\
  (forall game : PartidaRuleta,
      get_game w sid = ResOk game <-> games w !! sid = Some game).
Proof.
  unfold get_game, who_is_alive.
  destruct (games w !! sid) as [g|]; repeat split;
    try discriminate; try congruence.
Qed.

Section Propagation.

Variable R S : Type.
Variable client : Invocation -> Launchtube.Thrown + Launchtube.Tx R S.
Variable getLatestLedger : string -> Launchtube.Thrown + Z.
Variable RPC_URL : string.

(** When the shared body of the transaction methods returns, every step
    before went through, and what is returned is what [signAndSend]
    gave, or the simulated result of a send refused twice as a read
    call. *)
Lemma submit_returns (call : Invocation) (out : Launchtube.Sent R S) :
  snd (Service.submit R S client getLatestLedger RPC_URL call) = inr out ->
  exists (simulated : Launchtube.Simulated R S) (tx_result : option R),
    client call = inr (Launchtube.Assembled (inr simulated) tx_result) /\
    (exists sequence : Z, getLatestLedger RPC_URL = inr sequence) /\
    match out with
    | Launchtube.FromNetwork sent =>
        Launchtube.signAndSend simulated false = inr sent \/
        exists err : Launchtube.Thrown,
          Launchtube.signAndSend simulated false = inl err /\
          Launchtube.isNoSignatureNeeded err = true /\
          Launchtube.signAndSend simulated true = inr sent
    | Launchtube.SimulationOnly r =>
        exists err forceErr : Launchtube.Thrown,
          Launchtube.signAndSend simulated false = inl err /\
          Launchtube.isNoSignatureNeeded err = true /\
          Launchtube.signAndSend simulated true = inl forceErr /\
          Launchtube.isStillReadOnly forceErr = true /\
          r = Launchtube.nullish R (Launchtube.result simulated)
                (Launchtube.nullish R
                   (Launchtube.simulationResult_result simulated)
                   (Launchtube.nullish R (Launchtube.returnValue simulated)
                      tx_result))
    end.
Proof.
  unfold Service.submit, Ledger.calculateValidUntilLedger.
  destruct (client call) as [e|tx]; [discriminate|].
  destruct (getLatestLedger RPC_URL) as [e|sequence]; [discriminate|].
  destruct tx as [xdr|[e|simulated] tx_result|]; try discriminate.
  cbn [Launchtube.signAndSendViaLaunchtube].
  destruct (Launchtube.signAndSend simulated false) as [err|sent] eqn:E1.
  - destruct (Launchtube.isNoSignatureNeeded err) eqn:Eread; [|discriminate].
    destruct (Launchtube.signAndSend simulated true) as [forceErr|sent]
      eqn:E2.
    + destruct (Launchtube.isStillReadOnly forceErr) eqn:Estill;
        [|discriminate].
      cbn [snd]. intros [= <-]. exists simulated, tx_result.
      split; [reflexivity|]. split; [now exists sequence|].
      exists err, forceErr. now repeat split.
    + cbn [snd]. intros [= <-]. exists simulated, tx_result.
      split; [reflexivity|]. split; [now exists sequence|].
      right. exists err. now repeat split.
  - cbn [snd]. intros [= <-]. exists simulated, tx_result.
    split; [reflexivity|]. split; [now exists sequence|]. now left.
Qed.

(** When it throws, what is thrown is the error of the step that
    failed. *)
Lemma submit_throws (call : Invocation) (err : Launchtube.Thrown) :
  snd (Service.submit R S client getLatestLedger RPC_URL call) = inl err ->
  client call = inl err \/
  exists tx : Launchtube.Tx R S,
    client call = inr tx /\
    (getLatestLedger RPC_URL = inl err \/
     match tx with
     | Launchtube.Assembled simulate _ =>
         simulate = inl err \/
         exists simulated : Launchtube.Simulated R S,
           simulate = inr simulated /\
           (Launchtube.signAndSend simulated false = inl err \/
            Launchtube.signAndSend simulated true = inl err)
     | Launchtube.XDR _ => err = Launchtube.newError Launchtube.xdr_message
     | Launchtube.OtherObject =>
         err = Launchtube.newError Launchtube.xdr_message
     end).
Proof.
  unfold Service.submit, Ledger.calculateValidUntilLedger.
  destruct (client call) as [e|tx]; [cbn; intros [= <-]; now left|].
  intros H. right. exists tx. split; [reflexivity|]. revert H.
  destruct (getLatestLedger RPC_URL) as [e|sequence];
    [cbn; intros [= <-]; now left|].
  intros H. right. revert H.
  destruct tx as [xdr|[e|simulated] tx_result|];
    cbn [Launchtube.signAndSendViaLaunchtube];
    try (cbn; intros [= <-]; reflexivity).
  - cbn. intros [= <-]. now left.
  - intros H. right. exists simulated. split; [reflexivity|]. revert H.
    destruct (Launchtube.signAndSend simulated false) as [e1|sent];
      [|discriminate].
    destruct (Launchtube.isNoSignatureNeeded e1);
      [|cbn; intros [= <-]; now left].
    destruct (Launchtube.signAndSend simulated true) as [e2|sent];
      [|discriminate].
    destruct (Launchtube.isStillReadOnly e2); [discriminate|].
    cbn. intros [= <-]. now right.
Qed.

(** C7, amended.  The transaction methods of the service swallow no
    failure but one: they return only when building the transaction,
    the latest-ledger request and the simulation went through, handing
    back what [signAndSend] returned, and what they throw is the error
    of the step that failed; the exception is a send refused twice as a
    read call, for which the simulated result is returned.  The reads do
    swallow: [getGame] returns the record exactly when the simulated
    call succeeded and [null] exactly when it failed; [whoIsAlive]
    returns the alive list when it succeeded and the empty list on every
    failure, which is also what a success with nobody alive gives; for
    both, every contract error gives what a thrown exception gives, so
    the typed result of the contract call is not passed on. *)
Theorem service_reads_collapse_failures :
  (forall (sim : Simulation PartidaRuleta) (game : PartidaRuleta),
      getGame sim = Some game <-> sim = Simulated (ResOk game)) /\
  (forall sim : Simulation PartidaRuleta,
      getGame sim = None <-> is_failure sim) /\
  (forall (sim : Simulation (list Address)) (alive : list Address),
      whoIsAlive sim = alive <->
      sim = Simulated (ResOk alive) \/ (is_failure sim /\ alive = [])) /\
  (forall e : Error,
      getGame (Simulated (ResErr e)) = getGame Thrown /\
      whoIsAlive (Simulated (ResErr e)) = whoIsAlive Thrown /\
      whoIsAlive (Simulated (ResErr e)) = whoIsAlive (Simulated (ResOk []))) /\
  (forall (sessionId : Z) (player : Address) (points : Z)
          (bulletCommitment : list Z) (bulletPosition : Z) (zkProof : list Z)
          (call : Invocation)
          (run : list Service.Step
                 * (Launchtube.Thrown + Launchtube.Sent R S)),
      In (call, run)
        [ (Call_entrar_a_la_ruleta sessionId player points,
           Service.entrarALaRuleta R S client getLatestLedger RPC_URL
             sessionId player points);
          (Call_cargar_revolver sessionId player bulletCommitment
             bulletPosition,
           Service.cargarRevolver R S client getLatestLedger RPC_URL
             sessionId player bulletCommitment bulletPosition);
          (Call_disparar sessionId player zkProof,
           Service.disparar R S client getLatestLedger RPC_URL sessionId
             player zkProof) ] ->
      (forall out : Launchtube.Sent R S,
          snd run = inr out ->
          exists (simulated : Launchtube.Simulated R S)
                 (tx_result : option R),
            client call = inr (Launchtube.Assembled (inr simulated) tx_result)
            /\
            (exists sequence : Z, getLatestLedger RPC_URL = inr sequence) /\
            match out with
            | Launchtube.FromNetwork sent =>
                Launchtube.signAndSend simulated false = inr sent \/
                exists err : Launchtube.Thrown,
                  Launchtube.signAndSend simulated false = inl err /\
                  Launchtube.isNoSignatureNeeded err = true /\
                  Launchtube.signAndSend simulated true = inr sent
            | Launchtube.SimulationOnly r =>
                exists err forceErr : Launchtube.Thrown,
                  Launchtube.signAndSend simulated false = inl err /\
                  Launchtube.isNoSignatureNeeded err = true /\
                  Launchtube.signAndSend simulated true = inl forceErr /\
                  Launchtube.isStillReadOnly forceErr = true /\
                  r = Launchtube.nullish R (Launchtube.result simulated)
                        (Launchtube.nullish R
                           (Launchtube.simulationResult_result simulated)
                           (Launchtube.nullish R
                              (Launchtube.returnValue simulated) tx_result))
            end) /\
      (forall err : Launchtube.Thrown,
          snd run = inl err ->
          client call = inl err \/
          exists tx : Launchtube.Tx R S,
            client call = inr tx /\
            (getLatestLedger RPC_URL = inl err \/
             match tx with
             | Launchtube.Assembled simulate _ =>
                 simulate = inl err \/
                 exists simulated : Launchtube.Simulated R S,
                   simulate = inr simulated /\
                   (Launchtube.signAndSend simulated false = inl err \/
                    Launchtube.signAndSend simulated true = inl err)
             | Launchtube.XDR _ =>
                 err = Launchtube.newError Launchtube.xdr_message
             | Launchtube.OtherObject =>
                 err = Launchtube.newError Launchtube.xdr_message
             end))).
Proof.
  split; [|split; [|split; [|split]]].
  - intros [|[g|e]] game; cbn; split; intros H; try discriminate; congruence.
  - intros [|[g|e]]; cbn; split; intros H;
      try reflexivity; try exact I; try discriminate; contradiction.
  - intros [|[l|e]] alive; cbn; split.
    + intros <-. right. now split.
    + intros [H|[_ ->]]; [discriminate | reflexivity].
    + intros <-. now left.
    + intros [H|[[] _]]. now injection H as <-.
    + intros <-. right. now split.
    + intros [H|[_ ->]]; [discriminate | reflexivity].
  - intros e. repeat split.
  - intros sessionId player points bulletCommitment bulletPosition zkProof
      call run Hin.
    assert (Hrun : run
                   = Service.submit R S client getLatestLedger RPC_URL call).
    { destruct Hin as [[= <- <-]|[[= <- <-]|[[= <- <-]|[]]]]; reflexivity. }
    rewrite Hrun. split.
    + intros out. apply submit_returns.
    + intros err. apply submit_throws.
Qed.

End Propagation.

Lemma service_reads_collapse_failures_witness :
  whoIsAlive (Simulated (ResErr NotPlayer)) = whoIsAlive (Simulated (ResOk []))
  /\
  (getGame (Simulated (ResErr NotPlayer)) = None <->
   is_failure (Simulated (@ResErr PartidaRuleta NotPlayer))) /\
  forall err : Launchtube.Thrown,
    snd (Service.disparar unit unit (fun _ => inr Launchtube.OtherObject)
           (fun _ => inr 1000) "https://rpc.example" 7 "GALICE" [1])
    = inl err ->
    err = Launchtube.newError Launchtube.xdr_message.
Proof.
  destruct (service_reads_collapse_failures unit unit
              (fun _ => inr Launchtube.OtherObject) (fun _ => inr 1000)
              "https://rpc.example")
    as (_ & Hnull & _ & Hsame & Hmethods).
  split; [exact (proj2 (proj2 (Hsame NotPlayer)))|].
  split; [exact (Hnull (Simulated (ResErr NotPlayer)))|].
  intros err Hthrown.
  destruct (Hmethods 7 "GALICE"%string 0 [] 0 [1]
              (Call_disparar 7 "GALICE" [1]) _
              (or_intror (or_intror (or_introl eq_refl))))
    as [_ Hthrows].
  destruct (Hthrows err Hthrown) as [H|(tx & Htx & [H|H])].
  - discriminate H.
  - injection Htx as <-. discriminate H.
  - injection Htx as <-. exact H.
Defined.

End ServiceFacts.

(** ** Splicing Player 1's signed entry *)

Section AuthEntryFacts.
Import AuthEntry.

Variable player1 player2 : Address.

Lemma scan_entry_keeps_p1 (i : nat) (e : Entry) (found : Found) :
  ~ has_address player1 e ->
  player1StubIndex (scan_entry player1 player2 i e found)
  = player1StubIndex found.
Proof.
  unfold scan_entry, has_address. intros H.
  destruct (credentials e) as [|a|]; try reflexivity.
  destruct (decide (a = player1)) as [->|_]; [now contradiction H|].
  destruct (decide (a = player2)); reflexivity.
Qed.

Lemma scan_entry_keeps_p2 (i : nat) (e : Entry) (found : Found) :
  player1 = player2 \/ ~ has_address player2 e ->
  player2AuthEntry (scan_entry player1 player2 i e found)
  = player2AuthEntry found /\
  player2Index (scan_entry player1 player2 i e found) = player2Index found.
Proof.
  unfold scan_entry, has_address. intros H.
  destruct (credentials e) as [|a|]; try (split; reflexivity).
  destruct (decide (a = player1)) as [->|Hn1]; [split; reflexivity|].
  destruct (decide (a = player2)) as [->|_]; [|split; reflexivity].
  destruct H as [H|H]; [now contradiction Hn1 | now contradiction H].
Qed.

(** No entry of Player 1 in what is left to scan: the index stays. *)
Lemma scan_without_p1 (entries : list Entry) (i : nat) (found : Found) :
  (forall (k : nat) (e : Entry),
      entries !! k = Some e -> ~ has_address player1 e) ->
  player1StubIndex (scan player1 player2 entries i found)
  = player1StubIndex found.
Proof.
  revert i found. induction entries as [|e rest IH]; intros i found H;
    [reflexivity|].
  cbn [scan]. rewrite IH.
  - apply scan_entry_keeps_p1. apply (H 0%nat). reflexivity.
  - intros k e' Hk. apply (H (S k)). exact Hk.
Qed.

Lemma scan_without_p2 (entries : list Entry) (i : nat) (found : Found) :
  player1 = player2 \/
  (forall (k : nat) (e : Entry),
      entries !! k = Some e -> ~ has_address player2 e) ->
  player2AuthEntry (scan player1 player2 entries i found)
  = player2AuthEntry found /\
  player2Index (scan player1 player2 entries i found) = player2Index found.
Proof.
  revert i found. induction entries as [|e rest IH]; intros i found H;
    [split; reflexivity|].
  cbn [scan].
  destruct (IH (S i) (scan_entry player1 player2 i e found)) as [E1 E2].
  { destruct H as [H|H]; [now left | right].
    intros k e' Hk. apply (H (S k)). exact Hk. }
  rewrite E1, E2. apply scan_entry_keeps_p2.
  destruct H as [H|H]; [now left | right]. apply (H 0%nat). reflexivity.
Qed.

Lemma is_last_with_tail (P : Entry -> Prop) (e : Entry) (rest : list Entry)
    (k : nat) :
  is_last_with P (e :: rest) (S k) -> is_last_with P rest k.
Proof.
  intros [(e' & Hl & HP) Hlater]. split; [now exists e'|].
  intros j e'' Hj Hl'. apply (Hlater (S j)); [lia | exact Hl'].
Qed.

(** The loop leaves in [player1StubIndex] the last entry of Player 1. *)
Lemma scan_finds_p1 (entries : list Entry) (i k : nat) (found : Found) :
  is_last_with (has_address player1) entries k ->
  player1StubIndex (scan player1 player2 entries i found) = Some (i + k)%nat.
Proof.
  revert i k found. induction entries as [|e rest IH]; intros i k found Hk.
  { destruct Hk as [(e & Hl & _) _]. discriminate. }
  cbn [scan]. destruct k as [|k].
  - destruct Hk as [(e0 & Hl & HP) Hlater]. cbn in Hl. injection Hl as <-.
    rewrite scan_without_p1.
    + unfold scan_entry. unfold has_address in HP. rewrite HP.
      destruct (decide (player1 = player1)); [|congruence].
      cbn. f_equal. lia.
    + intros j e' Hj. apply (Hlater (S j)); [lia | exact Hj].
  - rewrite (IH (S i) k); [f_equal; lia|]. now apply is_last_with_tail in Hk.
Qed.

(** And in [player2AuthEntry], [player2Index] the last entry of Player 2,
    when Player 2 is not Player 1. *)
Lemma scan_finds_p2 (entries : list Entry) (i k : nat) (found : Found)
    (e2 : Entry) :
  player1 <> player2 ->
  is_last_with (has_address player2) entries k ->
  entries !! k = Some e2 ->
  player2AuthEntry (scan player1 player2 entries i found) = Some e2 /\
  player2Index (scan player1 player2 entries i found) = Some (i + k)%nat.
Proof.
  intros Hne. revert i k found.
  induction entries as [|e rest IH]; intros i k found Hk Hl; [discriminate|].
  cbn [scan]. destruct k as [|k].
  - destruct Hk as [(e0 & Hl0 & HP) Hlater]. cbn in Hl, Hl0.
    injection Hl as <-. injection Hl0 as <-.
    destruct (scan_without_p2 rest (S i) (scan_entry player1 player2 i e found))
      as [E1 E2].
    { right. intros j e' Hj. apply (Hlater (S j)); [lia | exact Hj]. }
    rewrite E1, E2. unfold scan_entry. unfold has_address in HP. rewrite HP.
    destruct (decide (player2 = player1)); [congruence|].
    destruct (decide (player2 = player2)); [|congruence].
    cbn. split; [reflexivity | f_equal; lia].
  - destruct (IH (S i) k (scan_entry player1 player2 i e found)) as [E1 E2].
    + now apply is_last_with_tail in Hk.
    + exact Hl.
    + rewrite E1, E2. split; [reflexivity | f_equal; lia].
Qed.

Variable fromXDR : string -> option Entry.
Variable calculateValidUntilLedger : string -> option Z.
Variable verify : Address -> Preimage -> list Z -> bool.
Variable tx : Tx.
Variable player1AuthEntryXDR : string.
Variable player2Signer : Signer.
Variable validUntilLedgerSeq : option Z.
Variable player1SignedAuthEntry : Entry.
Variable authEntries : list Entry.

(** Player 1's artifact parses to an entry with Player 1's address
    credentials, and the simulation produced authorization entries. *)
Hypothesis Hparse : fromXDR player1AuthEntryXDR = Some player1SignedAuthEntry.
Hypothesis Hsigned : has_address player1 player1SignedAuthEntry.
Hypothesis Hsim : auth tx = Some authEntries.

(** C6. [injectSignedAuthEntry] puts Player 1's pre-signed entry in the
    place of the simulated entry that carries Player 1's address (the
    last one, should there be several) and touches no other entry but
    Player 2's.  When an entry carries Player 2's address (again the last
    one), Player 2's wallet is asked to sign for it; if what the wallet
    returns verifies against Player 2's key, the entry is put back in
    its place with that signature and its expiration, credentials and
    invocation as they were; if it does not verify, the call throws with
    Player 1's entry already written and Player 2's as it was.  When no
    entry carries Player 2's address (or Player 2 is Player 1) Player 2
    is taken to be the invoker and nothing is signed.  When no entry
    carries Player 1's address the call throws 'Could not find Player 1
    stub entry in transaction' and the transaction is left as it was. *)
Theorem injectSignedAuthEntry_splices :
  ((forall (k : nat) (e : Entry),
       authEntries !! k = Some e -> ~ has_address player1 e) ->
   injectSignedAuthEntry fromXDR calculateValidUntilLedger verify tx
     player1AuthEntryXDR player2 player2Signer validUntilLedgerSeq
   = (Threw (Error "Could not find Player 1 stub entry in transaction"), tx))
  /\
  (forall i : nat,
      is_last_with (has_address player1) authEntries i ->
      (player1 = player2 \/
       (forall (k : nat) (e : Entry),
           authEntries !! k = Some e -> ~ has_address player2 e) ->
       injectSignedAuthEntry fromXDR calculateValidUntilLedger verify tx
         player1AuthEntryXDR player2 player2Signer validUntilLedgerSeq
       = (Returned,
          mkTx (Some (<[i := player1SignedAuthEntry]> authEntries))
            (rpcUrl tx) (networkPassphrase tx)))
      /\
      (forall (j : nat) (e2 : Entry) (sign : Preimage -> Address -> SignResult)
              (v : Z) (sig : list Z),
          player1 <> player2 ->
          is_last_with (has_address player2) authEntries j ->
          authEntries !! j = Some e2 ->
          signAuthEntry player2Signer = Some sign ->
          match validUntilLedgerSeq with
          | Some given => Some given
          | None => calculateValidUntilLedger (rpcUrl tx)
          end = Some v ->
          let shown := mkPreimage (networkPassphrase tx) v (rootInvocation e2) in
          let signed2 :=
            mkEntry (sorobanCredentialsAddress player2) (rootInvocation e2)
              (Some sig) v in
          sign shown player2 = Signed sig ->
          i <> j /\
          (verify player2 shown sig = false ->
           injectSignedAuthEntry fromXDR calculateValidUntilLedger verify tx
             player1AuthEntryXDR player2 player2Signer validUntilLedgerSeq
           = (Threw LibraryError,
              mkTx (Some (<[i := player1SignedAuthEntry]> authEntries))
                (rpcUrl tx) (networkPassphrase tx)) /\
           (<[i := player1SignedAuthEntry]> authEntries) !! i
           = Some player1SignedAuthEntry /\
           (<[i := player1SignedAuthEntry]> authEntries) !! j = Some e2) /\
          (verify player2 shown sig = true ->
           exists spliced : list Entry,
             injectSignedAuthEntry fromXDR calculateValidUntilLedger verify tx
               player1AuthEntryXDR player2 player2Signer validUntilLedgerSeq
             = (Returned,
                mkTx (Some spliced) (rpcUrl tx) (networkPassphrase tx)) /\
             spliced = <[j := signed2]>
                         (<[i := player1SignedAuthEntry]> authEntries) /\
             length spliced = length authEntries /\
             spliced !! i = Some player1SignedAuthEntry /\
             spliced !! j = Some signed2 /\
             forall k : nat,
               k <> i -> k <> j -> spliced !! k = authEntries !! k))).
Proof.
  unfold injectSignedAuthEntry. rewrite Hparse.
  unfold has_address in Hsigned. rewrite Hsigned, Hsim.
  split.
  - intros Hnone.
    rewrite (scan_without_p1 authEntries 0 nothing_found Hnone).
    reflexivity.
  - intros i Hi.
    rewrite (scan_finds_p1 authEntries 0 i nothing_found Hi).
    cbn [Nat.add]. split.
    + intros Hno2.
      destruct (scan_without_p2 authEntries 0 nothing_found Hno2) as [E1 E2].
      rewrite E1. reflexivity.
    + intros j e2 sign v sig Hne Hj Hl Hsign Hv Hsig.
      set (shown := mkPreimage (networkPassphrase tx) v (rootInvocation e2))
        in *.
      set (signed2 := mkEntry (sorobanCredentialsAddress player2)
                        (rootInvocation e2) (Some sig) v).
      destruct (scan_finds_p2 authEntries 0 j nothing_found e2 Hne Hj Hl)
        as [E1 E2].
      rewrite E1, E2, Hsign, Hv. cbn [Nat.add].
      assert (Hcred : credentials e2 = sorobanCredentialsAddress player2).
      { destruct Hj as [(e2' & Hl2 & H2) _]. rewrite Hl in Hl2.
        injection Hl2 as <-. exact H2. }
      unfold authorizeEntry. rewrite Hcred.
      change (preimage_of e2 v (networkPassphrase tx)) with shown.
      rewrite Hsig.
      assert (Hij : i <> j).
      { intros <-. destruct Hi as [(e1 & Hl1 & H1) _].
        rewrite Hl in Hl1. injection Hl1 as <-.
        unfold has_address in H1. congruence. }
      assert (Hilt : (i < length authEntries)%nat).
      { destruct Hi as [(e1 & Hl1 & _) _]. now apply lookup_lt_Some in Hl1. }
      assert (Hjlt : (j < length authEntries)%nat)
        by now apply lookup_lt_Some in Hl.
      split; [exact Hij|]. split.
      * intros ->. split; [reflexivity|]. split.
        -- now apply list_lookup_insert_eq.
        -- now rewrite list_lookup_insert_ne.
      * intros ->.
        replace (authorized e2 sig v) with signed2
          by (unfold authorized, signed2; now rewrite Hcred).
        eexists. split; [reflexivity|]. split; [reflexivity|].
        split; [now rewrite !length_insert|].
        split; [|split].
        -- rewrite list_lookup_insert_ne by congruence.
           now apply list_lookup_insert_eq.
        -- apply list_lookup_insert_eq. now rewrite length_insert.
        -- intros k Hki Hkj. now rewrite !list_lookup_insert_ne by congruence.
Qed.

End AuthEntryFacts.

(** ** Importing one's own authorization *)

Section ImportFacts.
Import ImportFlow.

Variable ContractSigner : Type.
Variable parseAuthEntry : string -> Thrown + GameParams.
Variable getContractSigner : Thrown + ContractSigner.
Variable importAndSignAuthEntry :
  string -> Address -> Z -> ContractSigner -> Thrown + string.
Variable finalizeStartGame :
  string -> Address -> ContractSigner -> Thrown + unit.
Variable loadGameState : M unit.
Variable showNumber : Z -> string.
Variable showPoints : Z -> string.
Variable playPhase : GamePhase.
Variable userAddress : Address.

Variable ui : UI.
Variable gameParams : GameParams.

(** The pasted artifact parses, and its Player 1 is the importing user. *)
Hypothesis Hparsed :
  parseAuthEntry (trim (importAuthEntryXDR ui)) = inr gameParams.
Hypothesis Hself : player1 gameParams = userAddress.

Ltac run_handler :=
  unfold mbind, handler_bind, bind, set, when, throw, lift, ImportFlow.ret.

Lemma rejection_messages_shown (message : string) :
  In message rejection_messages ->
  import_error_message (ErrorObj message) = message.
Proof.
  cbn [In rejection_messages].
  intros [<-|[<-|[<-|[<-|[]]]]]; vm_compute; reflexivity.
Qed.

(** The steps of the import stop at a throw, before any effect. *)
Lemma import_steps_stop (start : UI) (log : list Effect) :
  exists (message : string) (ui' : UI),
    import_steps ContractSigner parseAuthEntry getContractSigner
      importAndSignAuthEntry finalizeStartGame loadGameState showNumber
      showPoints playPhase userAddress ui start log
    = (inl (ErrorObj message), ui', log) /\
    In message rejection_messages /\
    success ui' = None /\
    gamePhase ui' = gamePhase start /\
    currentSessionId ui' = currentSessionId start /\
    actionLock ui' = actionLock start /\
    (blank (importAuthEntryXDR ui) = false ->
     blank (importPlayer2Points ui) = false ->
     (exists n : Z,
         Points.parsePoints (importPlayer2Points ui) = Some n /\ 0 < n) ->
     message = self_play_message).
Proof.
  unfold import_steps, parsePlayer2Points. run_handler.
  cbn [setLoading setError setSuccess].
  destruct (blank (importAuthEntryXDR ui)) eqn:Ex.
  { eexists _, _. split; [reflexivity|]. cbn.
    split; [now left|]. repeat split; discriminate. }
  destruct (blank (importPlayer2Points ui)) eqn:Ep.
  { eexists _, _. split; [reflexivity|]. cbn.
    split; [now right; left|]. repeat split; discriminate. }
  destruct (Points.parsePoints (importPlayer2Points ui)) as [n|] eqn:En.
  2:{ eexists _, _. split; [reflexivity|]. cbn.
      split; [now right; right; left|]. repeat split.
      intros _ _ (n & Hn & _). discriminate. }
  destruct (Z.leb_spec n 0) as [Hle|Hgt].
  { eexists _, _. split; [reflexivity|]. cbn.
    split; [now right; right; left|]. repeat split.
    intros _ _ (n' & Hn & Hpos). injection Hn as <-. lia. }
  rewrite Hparsed. rewrite bool_decide_eq_true_2 by exact Hself.
  eexists _, _. split; [reflexivity|]. cbn.
  split; [now right; right; right; left|]. repeat split.
Qed.

(** C5. An artifact whose Player 1 is the importing user is refused
    before anything is signed or submitted.  [handleImportTransaction]
    (when it runs at all: not locked, not busy) ends with an error shown,
    no success, the game not started, and not one effect emitted; with
    valid inputs the error is the self-play refusal.  The auto-parse
    step, in import mode on a non-empty field, ends with the parse error
    set to the self-play refusal, no parse success, the auto-filled
    fields cleared, and no effect either. *)
Theorem self_play_import_rejected (log : list Effect) :
  (exists ui' : UI,
      handleImportTransaction ContractSigner parseAuthEntry
        getContractSigner importAndSignAuthEntry finalizeStartGame
        loadGameState showNumber showPoints playPhase userAddress ui log
      = (inr tt, ui', log) /\
      (actionLock ui || (loading ui || quickstartLoading ui) = true ->
       ui' = ui) /\
      (actionLock ui || (loading ui || quickstartLoading ui) = false ->
       (exists message : string,
           error ui' = Some message /\ In message rejection_messages) /\
       success ui' = None /\
       loading ui' = false /\
       gamePhase ui' = gamePhase ui /\
       currentSessionId ui' = currentSessionId ui /\
       (blank (importAuthEntryXDR ui) = false ->
        blank (importPlayer2Points ui) = false ->
        (exists n : Z,
            Points.parsePoints (importPlayer2Points ui) = Some n /\ 0 < n) ->
        error ui' = Some self_play_message)))
  /\
  (in_import_mode ui = true ->
   blank (importAuthEntryXDR ui) = false ->
   exists ui' : UI,
     autoParse parseAuthEntry showNumber showPoints userAddress ui log
     = (inr tt, ui', log) /\
     xdrParseError ui' = Some own_entry_message /\
     xdrParseSuccess ui' = false /\
     xdrParsing ui' = false /\
     importSessionId ui' = EmptyString /\
     importPlayer1 ui' = EmptyString /\
     importPlayer1Points ui' = EmptyString).
Proof.
  split.
  - unfold handleImportTransaction, runAction.
    destruct (actionLock ui || (loading ui || quickstartLoading ui)) eqn:Ebusy.
    { exists ui. split; [reflexivity|]. split; [reflexivity | discriminate]. }
    unfold try_catch_finally.
    destruct (import_steps_stop (setActionLock true ui) log)
      as (message & stopped & Hrun & Hin & Hsucc & Hphase & Hsid & _ & Hprecise).
    rewrite Hrun. run_handler.
    rewrite (rejection_messages_shown message Hin).
    eexists. split; [reflexivity|]. split; [discriminate|]. intros _.
    cbn. split; [exists message; split; [reflexivity | exact Hin]|].
    split; [exact Hsucc|]. split; [reflexivity|].
    split; [exact Hphase|]. split; [exact Hsid|].
    intros Hx Hp Hn. now rewrite (Hprecise Hx Hp Hn).
  - intros Hmode Hxdr. unfold autoParse. rewrite Hmode, Hxdr. cbn [negb orb].
    unfold parseXDR, try_catch_finally. run_handler.
    rewrite Hparsed. rewrite bool_decide_eq_true_2 by exact Hself.
    eexists. split; [reflexivity|]. cbn. repeat split.
Qed.

End ImportFacts.

(** ** Worked examples of the handshake *)

Section DemoFacts.
Import AuthEntry ImportFlow Demo.

(** Another user imports the artifact: the wallet signs, the transaction
    is submitted, the game starts. *)
Example import_by_another_user :
  import_as "GOTHER"
  = (inr tt,
     mkUI mode_import "" "0.1" "" "" "" false None false false false None
       (Some "Game created successfully! Both players signed.") 42
       phase_guess false,
     [SignAuthEntries "AAAA" "GOTHER" 1000000;
      SubmitTransaction "SIGNEDTX" "GOTHER";
      StandingsRefresh]).
Proof. vm_compute. reflexivity. Qed.

Example import_without_wallet :
  handleImportTransaction unit parseAuthEntry not_connected
    importAndSignAuthEntry finalizeStartGame loadGameState show show
    phase_guess "GOTHER" form []
  = (inr tt,
     mkUI mode_import " AAAA " "0.1" "#" "GUSER" "#" false None false false
       false (Some "Wallet not connected") None 5 phase_create false,
     []).
Proof. vm_compute. reflexivity. Qed.

Example import_by_player1 :
  import_as "GUSER"
  = (inr tt,
     mkUI mode_import " AAAA " "0.1" "#" "GUSER" "#" false None false false
       false (Some self_play_message) None 5 phase_create false,
     []).
Proof. vm_compute. reflexivity. Qed.

Example auto_parse_by_player1 :
  auto_parse_as "GUSER"
  = (inr tt,
     mkUI mode_import " AAAA " "0.1" "" "" "" false (Some own_entry_message)
       false false false None None 5 phase_create false,
     []).
Proof. vm_compute. reflexivity. Qed.

Example auto_parse_by_another_user :
  auto_parse_as "GOTHER"
  = (inr tt,
     mkUI mode_import " AAAA " "0.1" "#" "GUSER" "#" false None true
       false false None None 5 phase_create false,
     []).
Proof. vm_compute. reflexivity. Qed.

Lemma self_play_import_rejected_witness :
  exists ui' : UI,
    import_as "GUSER" = (inr tt, ui', []) /\
    error ui' = Some self_play_message.
Proof.
  destruct (self_play_import_rejected unit parseAuthEntry connected
              importAndSignAuthEntry finalizeStartGame loadGameState show
              show phase_guess "GUSER" form params eq_refl eq_refl [])
    as [(ui' & Hrun & _ & Hshown) _].
  exists ui'. split; [exact Hrun|].
  destruct Hshown as (_ & _ & _ & _ & _ & Hmessage); [reflexivity|].
  apply Hmessage; [reflexivity | reflexivity |].
  exists 1000000. split; [reflexivity | lia].
Defined.

(** Two simulated entries, one per player: both are replaced, each in
    its place. *)
Example inject_both_players :
  injectSignedAuthEntry fromXDR no_rpc verify (tx_of [stub1; stub2; source_entry])
    "P1SIGNED" "GP2" wallet (Some 700)
  = (Returned,
     tx_of [signed1; authorized stub2 [9; 9] 700; source_entry]).
Proof. vm_compute. reflexivity. Qed.

(** Player 2 is the source account: only Player 1's entry changes. *)
Example inject_invoker :
  injectSignedAuthEntry fromXDR no_rpc verify (tx_of [source_entry; stub1])
    "P1SIGNED" "GP2" no_wallet None
  = (Returned, tx_of [source_entry; signed1]).
Proof. vm_compute. reflexivity. Qed.

(** Should two entries carry Player 1's address, the last one is the one
    replaced. *)
Example inject_two_stubs :
  injectSignedAuthEntry fromXDR no_rpc verify (tx_of [stub1; stub1])
    "P1SIGNED" "GP2" wallet (Some 700)
  = (Returned, tx_of [stub1; signed1]).
Proof. vm_compute. reflexivity. Qed.

Example inject_no_stub :
  injectSignedAuthEntry fromXDR no_rpc verify (tx_of [stub2; source_entry])
    "P1SIGNED" "GP2" wallet (Some 700)
  = (Threw (Error "Could not find Player 1 stub entry in transaction"),
     tx_of [stub2; source_entry]).
Proof. vm_compute. reflexivity. Qed.

(** A wallet that cannot sign entries: the call throws after Player 1's
    entry has been put in place. *)
Example inject_wallet_cannot_sign :
  injectSignedAuthEntry fromXDR no_rpc verify (tx_of [stub1; stub2])
    "P1SIGNED" "GP2" no_wallet (Some 700)
  = (Threw (Error "signAuthEntry function not available"),
     tx_of [signed1; stub2]).
Proof. vm_compute. reflexivity. Qed.

(** A wallet whose signature is not Player 2's: the SDK refuses it, after
    Player 1's entry has been put in place. *)
Example inject_signature_refused :
  injectSignedAuthEntry fromXDR no_rpc verify (tx_of [stub1; stub2])
    "P1SIGNED" "GP2" other_wallet (Some 700)
  = (Threw LibraryError, tx_of [signed1; stub2]).
Proof. vm_compute. reflexivity. Qed.

Lemma injectSignedAuthEntry_splices_witness :
  injectSignedAuthEntry fromXDR no_rpc verify
    (tx_of [stub1; stub2; source_entry])
    "P1SIGNED" "GP2" wallet (Some 700)
  = (Returned,
     with_auth (tx_of [stub1; stub2; source_entry])
       (<[1%nat := mkEntry (sorobanCredentialsAddress "GP2") "start_game"
                     (Some [9; 9]) 700]>
          (<[0%nat := signed1]> [stub1; stub2; source_entry]))).
Proof.
  destruct (injectSignedAuthEntry_splices "GP1" "GP2" fromXDR no_rpc verify
              (tx_of [stub1; stub2; source_entry]) "P1SIGNED" wallet
              (Some 700) signed1 [stub1; stub2; source_entry]
              eq_refl eq_refl eq_refl) as [_ Hfound].
  destruct (Hfound 0%nat) as [_ Hboth].
  { split; [exists stub1; split; reflexivity|].
    intros [|[|[|k]]] e Hk He; try lia; cbn in He;
      try discriminate; injection He as <-; discriminate. }
  destruct (Hboth 1%nat stub2 (fun _ _ => Signed [9; 9]) 700 [9; 9])
    as (_ & _ & Hvalid).
  - discriminate.
  - split; [exists stub2; split; reflexivity|].
    intros [|[|[|k]]] e Hk He; try lia; cbn in He;
      try discriminate; injection He as <-; discriminate.
  - reflexivity.
  - reflexivity.
  - reflexivity.
  - reflexivity.
  - destruct Hvalid as (spliced & Hrun & -> & _); [reflexivity|].
    exact Hrun.
Defined.

End DemoFacts.

(** ** What the splice leaves alone, and what a failed signing leaves
    behind *)

Section AuthEntryInvariants.
Import AuthEntry.

Variable player1 player2 : Address.

(** What one turn of the loop records lies in the list at hand. *)
Lemma scan_entry_sound (all : list Entry) (i : nat) (e : Entry)
    (found : Found) :
  all !! i = Some e ->
  (forall k : nat, player1StubIndex found = Some k ->
     exists e1 : Entry, all !! k = Some e1 /\ has_address player1 e1) ->
  (forall (k : nat) (e2 : Entry),
     player2Index found = Some k -> player2AuthEntry found = Some e2 ->
     all !! k = Some e2 /\ has_address player2 e2) ->
  (forall k : nat,
     player1StubIndex (scan_entry player1 player2 i e found) = Some k ->
     exists e1 : Entry, all !! k = Some e1 /\ has_address player1 e1) /\
  (forall (k : nat) (e2 : Entry),
     player2Index (scan_entry player1 player2 i e found) = Some k ->
     player2AuthEntry (scan_entry player1 player2 i e found) = Some e2 ->
     all !! k = Some e2 /\ has_address player2 e2).
Proof.
  intros Hi H1 H2. unfold scan_entry.
  destruct (credentials e) as [|a|] eqn:Ecred; [now split| |now split].
  destruct (decide (a = player1)) as [->|_].
  - split; [|exact H2]. cbn. intros k [= <-]. now exists e.
  - destruct (decide (a = player2)) as [->|_]; [|now split].
    split; [exact H1|]. cbn. intros k e2 [= <-] [= <-]. now split.
Qed.

Lemma scan_sound (pre rest : list Entry) (found : Found) :
  (forall k : nat, player1StubIndex found = Some k ->
     exists e1 : Entry, (pre ++ rest) !! k = Some e1 /\ has_address player1 e1) ->
  (forall (k : nat) (e2 : Entry),
     player2Index found = Some k -> player2AuthEntry found = Some e2 ->
     (pre ++ rest) !! k = Some e2 /\ has_address player2 e2) ->
  (forall k : nat,
     player1StubIndex (scan player1 player2 rest (length pre) found) = Some k ->
     exists e1 : Entry, (pre ++ rest) !! k = Some e1 /\ has_address player1 e1) /\
  (forall (k : nat) (e2 : Entry),
     player2Index (scan player1 player2 rest (length pre) found) = Some k ->
     player2AuthEntry (scan player1 player2 rest (length pre) found) = Some e2 ->
     (pre ++ rest) !! k = Some e2 /\ has_address player2 e2).
Proof.
  revert pre found. induction rest as [|e rest IH]; intros pre found H1 H2;
    [now split|].
  cbn [scan].
  assert (Hi : (pre ++ e :: rest) !! length pre = Some e)
    by apply list_lookup_middle, eq_refl.
  destruct (scan_entry_sound (pre ++ e :: rest) (length pre) e found Hi H1 H2)
    as [H1' H2'].
  specialize (IH (pre ++ [e]) (scan_entry player1 player2 (length pre) e found)).
  rewrite <- app_assoc in IH. cbn [app] in IH.
  rewrite length_app, Nat.add_1_r in IH. apply IH; assumption.
Qed.

(** The loop run by [injectSignedAuthEntry], from its initial state. *)
Lemma scan_from_start_sound (entries : list Entry) :
  (forall k : nat,
     player1StubIndex (scan player1 player2 entries 0 nothing_found) = Some k ->
     exists e1 : Entry, entries !! k = Some e1 /\ has_address player1 e1) /\
  (forall (k : nat) (e2 : Entry),
     player2Index (scan player1 player2 entries 0 nothing_found) = Some k ->
     player2AuthEntry (scan player1 player2 entries 0 nothing_found) = Some e2 ->
     entries !! k = Some e2 /\ has_address player2 e2).
Proof.
  apply (scan_sound [] entries nothing_found); cbn; intros; discriminate.
Qed.

End AuthEntryInvariants.

Section InjectFrame.
Import AuthEntry.

Variable player2 : Address.
Variable fromXDR : string -> option Entry.
Variable calculateValidUntilLedger : string -> option Z.
Variable verify : Address -> Preimage -> list Z -> bool.

(** X1. Whatever [injectSignedAuthEntry] does to a transaction that has
    simulated entries, returning or throwing, the entries keep their
    number and each keeps its credentials (source account, or the same
    address); an entry is left exactly as it was unless it carries
    Player 2's address or the credentials of Player 1's parsed entry. *)
Theorem injectSignedAuthEntry_frame (tx tx' : Tx) (outcome : Completion)
    (player1AuthEntryXDR : string) (player2Signer : Signer)
    (validUntilLedgerSeq : option Z) (authEntries : list Entry) :
  auth tx = Some authEntries ->
  injectSignedAuthEntry fromXDR calculateValidUntilLedger verify tx
    player1AuthEntryXDR player2 player2Signer validUntilLedgerSeq
  = (outcome, tx') ->
  rpcUrl tx' = rpcUrl tx /\
  networkPassphrase tx' = networkPassphrase tx /\
  exists entries' : list Entry,
    auth tx' = Some entries' /\
    length entries' = length authEntries /\
    credentials <$> entries' = credentials <$> authEntries /\
    forall (k : nat) (e : Entry),
      authEntries !! k = Some e ->
      ~ has_address player2 e ->
      (forall signed : Entry,
         fromXDR player1AuthEntryXDR = Some signed ->
         credentials signed <> credentials e) ->
      entries' !! k = Some e.
Proof.
  intros Hsim. unfold injectSignedAuthEntry.
  assert (Hsame : forall c : Completion, (c, tx) = (outcome, tx') ->
    rpcUrl tx' = rpcUrl tx /\ networkPassphrase tx' = networkPassphrase tx /\
    exists entries' : list Entry,
      auth tx' = Some entries' /\ length entries' = length authEntries /\
      credentials <$> entries' = credentials <$> authEntries /\
      forall (k : nat) (e : Entry),
        authEntries !! k = Some e -> ~ has_address player2 e ->
        (forall signed : Entry,
           fromXDR player1AuthEntryXDR = Some signed ->
           credentials signed <> credentials e) ->
        entries' !! k = Some e).
  { intros c [= _ <-]. split; [reflexivity|]. split; [reflexivity|].
    exists authEntries. rewrite Hsim. now repeat split. }
  destruct (fromXDR player1AuthEntryXDR) as [signed|] eqn:Hparse;
    [|apply Hsame].
  destruct (credentials signed) as [|p1|] eqn:Hcred;
    [apply Hsame| |apply Hsame].
  rewrite Hsim.
  pose proof (scan_from_start_sound p1 player2 authEntries) as [Hp1 Hp2].
  destruct (player1StubIndex (scan p1 player2 authEntries 0 nothing_found))
    as [i|]; [|apply Hsame].
  destruct (Hp1 i eq_refl) as (e1 & Hl1 & Ha1).
  assert (Hone : forall c : Completion,
    (c, with_auth tx (<[i := signed]> authEntries)) = (outcome, tx') ->
    rpcUrl tx' = rpcUrl tx /\ networkPassphrase tx' = networkPassphrase tx /\
    exists entries' : list Entry,
      auth tx' = Some entries' /\ length entries' = length authEntries /\
      credentials <$> entries' = credentials <$> authEntries /\
      forall (k : nat) (e : Entry),
        authEntries !! k = Some e -> ~ has_address player2 e ->
        (forall s : Entry, Some signed = Some s ->
           credentials s <> credentials e) ->
        entries' !! k = Some e).
  { intros c [= _ <-]. split; [reflexivity|]. split; [reflexivity|].
    exists (<[i := signed]> authEntries). split; [reflexivity|].
    split; [apply length_insert|]. split.
    - rewrite list_fmap_insert, Hcred. apply list_insert_id.
      rewrite list_lookup_fmap, Hl1. cbn. now rewrite Ha1.
    - intros k e Hk _ Hnot. rewrite list_lookup_insert_ne; [exact Hk|].
      intros <-. rewrite Hl1 in Hk. injection Hk as <-.
      apply (Hnot signed eq_refl). now rewrite Hcred, Ha1. }
  destruct (player2AuthEntry (scan p1 player2 authEntries 0 nothing_found))
    as [p2entry|]; [|apply Hone].
  destruct (player2Index (scan p1 player2 authEntries 0 nothing_found))
    as [j|]; [|apply Hone].
  destruct (Hp2 j p2entry eq_refl eq_refl) as [Hl2 Ha2].
  destruct (signAuthEntry player2Signer) as [sign|]; [|apply Hone].
  destruct (match validUntilLedgerSeq with
            | Some v => Some v
            | None => calculateValidUntilLedger (rpcUrl tx)
            end) as [v|]; [|apply Hone].
  unfold authorizeEntry. unfold has_address in Ha2. rewrite Ha2.
  destruct (sign (preimage_of p2entry v (networkPassphrase tx)) player2)
    as [sig|message]; [|apply Hone].
  destruct (verify player2 (preimage_of p2entry v (networkPassphrase tx)) sig);
    [|apply Hone].
  intros [= _ <-]. split; [reflexivity|]. split; [reflexivity|].
  eexists. split; [reflexivity|].
  split; [now rewrite !length_insert|]. split.
  - rewrite !list_fmap_insert, Hcred. cbn [authorized credentials].
    rewrite list_insert_id.
    + apply list_insert_id. rewrite list_lookup_fmap, Hl1. cbn.
      now rewrite Ha1.
    + destruct (decide (j = i)) as [->|Hne].
      * rewrite list_lookup_insert_eq
          by (rewrite length_fmap; now apply lookup_lt_Some in Hl1).
        rewrite Hl1 in Hl2. injection Hl2 as <-. congruence.
      * rewrite list_lookup_insert_ne by congruence.
        rewrite list_lookup_fmap, Hl2. reflexivity.
  - intros k e Hk Hnot2 Hnot1.
    rewrite list_lookup_insert_ne.
    + rewrite list_lookup_insert_ne; [exact Hk|].
      intros <-. rewrite Hl1 in Hk. injection Hk as <-.
      apply (Hnot1 signed eq_refl). now rewrite Hcred, Ha1.
    + intros <-. rewrite Hl2 in Hk. injection Hk as <-. now apply Hnot2.
Qed.

End InjectFrame.

Section InjectFailures.
Import AuthEntry.

Variable player1 player2 : Address.
Variable fromXDR : string -> option Entry.
Variable calculateValidUntilLedger : string -> option Z.
Variable verify : Address -> Preimage -> list Z -> bool.
Variable tx : Tx.
Variable player1AuthEntryXDR : string.
Variable player2Signer : Signer.
Variable validUntilLedgerSeq : option Z.
Variable player1SignedAuthEntry : Entry.
Variable authEntries : list Entry.
Variable i j : nat.
Variable e2 : Entry.

Hypothesis Hparse : fromXDR player1AuthEntryXDR = Some player1SignedAuthEntry.
Hypothesis Hsigned : has_address player1 player1SignedAuthEntry.
Hypothesis Hsim : auth tx = Some authEntries.
Hypothesis Hne : player1 <> player2.
Hypothesis Hi : is_last_with (has_address player1) authEntries i.
Hypothesis Hj : is_last_with (has_address player2) authEntries j.
Hypothesis Hl : authEntries !! j = Some e2.

(** X2. When Player 2's entry has to be signed and the signing fails (the
    wallet has no [signAuthEntry], it answers with an error, or no ledger
    bound can be computed), [injectSignedAuthEntry] throws after Player
    1's signed entry has been written into the transaction's array: the
    caller is left with a transaction that carries Player 1's signature
    and Player 2's unsigned entry. *)
Theorem injectSignedAuthEntry_failed_signing :
  (signAuthEntry player2Signer = None ->
   injectSignedAuthEntry fromXDR calculateValidUntilLedger verify tx
     player1AuthEntryXDR player2 player2Signer validUntilLedgerSeq
   = (Threw (Error "signAuthEntry function not available"),
      with_auth tx (<[i := player1SignedAuthEntry]> authEntries))) /\
  (forall (sign : Preimage -> Address -> SignResult) (v : Z)
          (message : string),
      signAuthEntry player2Signer = Some sign ->
      match validUntilLedgerSeq with
      | Some given => Some given
      | None => calculateValidUntilLedger (rpcUrl tx)
      end = Some v ->
      sign (preimage_of e2 v (networkPassphrase tx)) player2
      = SignError message ->
      injectSignedAuthEntry fromXDR calculateValidUntilLedger verify tx
        player1AuthEntryXDR player2 player2Signer validUntilLedgerSeq
      = (Threw (Error ("Failed to sign auth entry: " ++ message)),
         with_auth tx (<[i := player1SignedAuthEntry]> authEntries))) /\
  (forall sign : Preimage -> Address -> SignResult,
      signAuthEntry player2Signer = Some sign ->
      validUntilLedgerSeq = None ->
      calculateValidUntilLedger (rpcUrl tx) = None ->
      injectSignedAuthEntry fromXDR calculateValidUntilLedger verify tx
        player1AuthEntryXDR player2 player2Signer validUntilLedgerSeq
      = (Threw LibraryError,
         with_auth tx (<[i := player1SignedAuthEntry]> authEntries))) /\
  (<[i := player1SignedAuthEntry]> authEntries) !! i
  = Some player1SignedAuthEntry /\
  (<[i := player1SignedAuthEntry]> authEntries) !! j = Some e2.
Proof.
  unfold injectSignedAuthEntry. rewrite Hparse.
  unfold has_address in Hsigned. rewrite Hsigned, Hsim.
  rewrite (scan_finds_p1 player1 player2 authEntries 0 i nothing_found Hi).
  destruct (scan_finds_p2 player1 player2 authEntries 0 j nothing_found e2
              Hne Hj Hl) as [E1 E2].
  rewrite E1, E2. cbn [Nat.add].
  assert (Hcred : credentials e2 = sorobanCredentialsAddress player2).
  { destruct Hj as [(e2' & Hl2 & H2) _]. rewrite Hl in Hl2.
    injection Hl2 as <-. exact H2. }
  split; [now intros ->|]. split.
  { intros sign v message -> Hv Hsign. unfold authorizeEntry.
    rewrite Hv, Hcred, Hsign. reflexivity. }
  split.
  { intros sign -> -> Hnone. rewrite Hnone. reflexivity. }
  assert (Hij : i <> j).
  { intros <-. destruct Hi as [(e1 & Hl1 & H1) _].
    destruct Hj as [(e2' & Hl2 & H2) _].
    rewrite Hl1 in Hl2. injection Hl2 as <-.
    unfold has_address in H1, H2. congruence. }
  split.
  - apply list_lookup_insert_eq.
    destruct Hi as [(e1 & Hl1 & _) _]. now apply lookup_lt_Some in Hl1.
  - now rewrite list_lookup_insert_ne.
Qed.

End InjectFailures.

Section InjectWitnesses.
Import AuthEntry Demo.

Lemma demo_last_with_p1 :
  is_last_with (has_address "GP1") [stub1; stub2; source_entry] 0.
Proof.
  split; [exists stub1; split; reflexivity|].
  intros [|[|[|k]]] e Hk He; try lia; cbn in He;
    try discriminate; injection He as <-; discriminate.
Qed.

Lemma demo_last_with_p2 :
  is_last_with (has_address "GP2") [stub1; stub2; source_entry] 1.
Proof.
  split; [exists stub2; split; reflexivity|].
  intros [|[|[|k]]] e Hk He; try lia; cbn in He;
    try discriminate; injection He as <-; discriminate.
Qed.

Lemma injectSignedAuthEntry_frame_witness :
  exists entries' : list Entry,
    auth (tx_of [signed1; authorized stub2 [9; 9] 700; source_entry])
    = Some entries' /\
    entries' !! 2%nat = Some source_entry.
Proof.
  destruct (injectSignedAuthEntry_frame "GP2" fromXDR no_rpc verify
              (tx_of [stub1; stub2; source_entry])
              (tx_of [signed1; authorized stub2 [9; 9] 700; source_entry])
              Returned "P1SIGNED" wallet (Some 700)
              [stub1; stub2; source_entry] eq_refl eq_refl)
    as (_ & _ & entries' & Hauth & _ & _ & Hkept).
  exists entries'. split; [exact Hauth|].
  apply Hkept; [reflexivity | discriminate |].
  intros signed [= <-]. discriminate.
Defined.

Lemma injectSignedAuthEntry_failed_signing_witness :
  injectSignedAuthEntry fromXDR no_rpc verify (tx_of [stub1; stub2; source_entry])
    "P1SIGNED" "GP2" no_wallet (Some 700)
  = (Threw (Error "signAuthEntry function not available"),
     with_auth (tx_of [stub1; stub2; source_entry])
       (<[0%nat := signed1]> [stub1; stub2; source_entry])).
Proof.
  exact (proj1 (injectSignedAuthEntry_failed_signing "GP1" "GP2" fromXDR
                  no_rpc verify (tx_of [stub1; stub2; source_entry]) "P1SIGNED"
                  no_wallet (Some 700) signed1 [stub1; stub2; source_entry]
                  0%nat 1%nat stub2 eq_refl eq_refl eq_refl
                  ltac:(discriminate) demo_last_with_p1 demo_last_with_p2
                  eq_refl) eq_refl).
Defined.

End InjectWitnesses.

(** ** Signing and sending *)

Section LaunchtubeFacts.
Import Launchtube.

Variable R S : Type.

(** X3. [signAndSendViaLaunchtube] simulates first and calls
    [signAndSend] at most twice: once plainly, and once more with
    [force: true] exactly when the plain attempt threw an error that
    reads as "no signature needed".  An XDR string is refused before
    anything is called.  A result that did not come from [signAndSend]
    (the simulated result, with no transaction response) is returned
    exactly when both attempts threw and both errors read as a read
    call; neither the timeout nor the ledger bound has any effect. *)
Theorem signAndSendViaLaunchtube_attempts (tx : Tx R S)
    (timeoutInSeconds : Z) (validUntilLedgerSeq : option Z) :
  let run := signAndSendViaLaunchtube tx timeoutInSeconds validUntilLedgerSeq in
  (exists n : nat,
     fst run = take n [Simulate; SignAndSend false; SignAndSend true]) /\
  (In (SignAndSend true) (fst run) <->
   exists (simulated : Simulated R S) (tx_result : option R) (err : Thrown),
     tx = Assembled (inr simulated) tx_result /\
     signAndSend simulated false = inl err /\
     isNoSignatureNeeded err = true) /\
  (forall xdr : string,
     tx = XDR xdr -> run = ([], inl (newError xdr_message))) /\
  (forall sent : S,
     snd run = inr (FromNetwork sent) ->
     exists (simulated : Simulated R S) (tx_result : option R) (force : bool),
       tx = Assembled (inr simulated) tx_result /\
       In (SignAndSend force) (fst run) /\
       signAndSend simulated force = inr sent) /\
  (forall res : option R,
     snd run = inr (SimulationOnly res) <->
     exists (simulated : Simulated R S) (tx_result : option R)
            (err forceErr : Thrown),
       tx = Assembled (inr simulated) tx_result /\
       signAndSend simulated false = inl err /\
       isNoSignatureNeeded err = true /\
       signAndSend simulated true = inl forceErr /\
       isStillReadOnly forceErr = true /\
       res = nullish R (result simulated)
               (nullish R (simulationResult_result simulated)
                  (nullish R (returnValue simulated) tx_result))) /\
  (forall (timeout' : Z) (validUntil' : option Z),
     signAndSendViaLaunchtube tx timeout' validUntil' = run).
Proof.
  cbv zeta. unfold signAndSendViaLaunchtube.
  destruct tx as [xdr|[err|simulated] tx_result|].
  - split; [now exists 0%nat|]. split.
    { split; [intros []|]. intros (? & ? & ? & ? & _). discriminate. }
    split; [now intros ? _|]. split; [intros ?; discriminate|].
    split; [|reflexivity].
    intros res. split; [discriminate|].
    intros (? & ? & ? & ? & ? & _). discriminate.
  - split; [now exists 1%nat|]. split.
    { split; [intros [|[]]; discriminate|].
      intros (? & ? & ? & ? & _). discriminate. }
    split; [intros ?; discriminate|]. split; [intros ?; discriminate|].
    split; [|reflexivity].
    intros res. split; [discriminate|].
    intros (? & ? & ? & ? & ? & _). discriminate.
  - destruct (signAndSend simulated false) as [err|sent] eqn:E1.
    + destruct (isNoSignatureNeeded err) eqn:Eno.
      * assert (Hforced :
          exists (simulated0 : Simulated R S) (tx_result0 : option R)
                 (err0 : Thrown),
            Assembled (inr simulated) tx_result
            = Assembled (inr simulated0) tx_result0 /\
            signAndSend simulated0 false = inl err0 /\
            isNoSignatureNeeded err0 = true)
          by now exists simulated, tx_result, err.
        destruct (signAndSend simulated true) as [forceErr|sent] eqn:E2.
        -- destruct (isStillReadOnly forceErr) eqn:Estill.
           ++ split; [now exists 3%nat|]. split.
              { split; [now intros _ | intros _; cbn; tauto]. }
              split; [intros ?; discriminate|].
              split; [intros ?; discriminate|]. split; [|reflexivity].
              intros res. cbn [snd]. split.
              ** intros [= <-].
                 now exists simulated, tx_result, err, forceErr.
              ** intros (s0 & r0 & e0 & f0 & [= <- <-] & _ & _ & _ & _ & ->).
                 reflexivity.
           ++ split; [now exists 3%nat|]. split.
              { split; [now intros _ | intros _; cbn; tauto]. }
              split; [intros ?; discriminate|].
              split; [intros ?; discriminate|]. split; [|reflexivity].
              intros res. cbn [snd]. split; [discriminate|].
              intros (s0 & r0 & e0 & f0 & [= <- <-] & _ & _ & Hf & Hs & _).
              rewrite E2 in Hf. injection Hf as <-. congruence.
        -- split; [now exists 3%nat|]. split.
           { split; [now intros _ | intros _; cbn; tauto]. }
           split; [intros ?; discriminate|]. split.
           { cbn [snd fst]. intros sent' [= <-].
             exists simulated, tx_result, true. cbn. tauto. }
           split; [|reflexivity].
           intros res. cbn [snd]. split; [discriminate|].
           intros (s0 & r0 & e0 & f0 & [= <- <-] & _ & _ & Hf & _).
           rewrite E2 in Hf. discriminate.
      * split; [now exists 2%nat|]. split.
        { split; [intros [|[|[]]]; discriminate|].
          intros (s0 & r0 & e0 & [= <- <-] & He & Hc).
          rewrite E1 in He. injection He as <-. congruence. }
        split; [intros ?; discriminate|].
        split; [intros ?; discriminate|]. split; [|reflexivity].
        intros res. cbn [snd]. split; [discriminate|].
        intros (s0 & r0 & e0 & f0 & [= <- <-] & He & Hc & _).
        rewrite E1 in He. injection He as <-. congruence.
    + split; [now exists 2%nat|]. split.
      { split; [intros [|[|[]]]; discriminate|].
        intros (s0 & r0 & e0 & [= <- <-] & He & _).
        rewrite E1 in He. discriminate. }
      split; [intros ?; discriminate|]. split.
      { cbn [snd fst]. intros sent' [= <-].
        exists simulated, tx_result, false. cbn. tauto. }
      split; [|reflexivity].
      intros res. cbn [snd]. split; [discriminate|].
      intros (s0 & r0 & e0 & f0 & [= <- <-] & He & _).
      rewrite E1 in He. discriminate.
  - split; [now exists 0%nat|]. split.
    { split; [intros []|]. intros (? & ? & ? & ? & _). discriminate. }
    split; [intros ?; discriminate|]. split; [intros ?; discriminate|].
    split; [|reflexivity].
    intros res. split; [discriminate|].
    intros (? & ? & ? & ? & ? & _). discriminate.
Qed.

End LaunchtubeFacts.

(** ** The transaction methods of the service *)

Section ServiceSendFacts.
Import Launchtube Ledger Service.

Variable R S : Type.
Variable client : Ruleta.Invocation -> Thrown + Tx R S.
Variable getLatestLedger : string -> Thrown + Z.
Variable RPC_URL : string.

Lemma submit_after_build (call : Ruleta.Invocation) (tx : Tx R S) :
  client call = inr tx ->
  submit R S client getLatestLedger RPC_URL call
  = match getLatestLedger RPC_URL with
    | inl err => ([Built call; LatestLedger RPC_URL], inl err)
    | inr _ =>
        ([Built call; LatestLedger RPC_URL]
           ++ map Sending (fst (signAndSendViaLaunchtube tx timeoutInSeconds None)),
         snd (signAndSendViaLaunchtube tx timeoutInSeconds None))
    end.
Proof.
  intros Hbuilt. unfold submit, calculateValidUntilLedger. rewrite Hbuilt.
  destruct (getLatestLedger RPC_URL) as [err|sequence]; [reflexivity|].
  change (signAndSendViaLaunchtube tx timeoutInSeconds
            (Some (sequence + Qceiling (5 * LEDGERS_PER_MINUTE))))
    with (signAndSendViaLaunchtube tx timeoutInSeconds None).
  now destruct (signAndSendViaLaunchtube tx timeoutInSeconds None).
Qed.

(** X4. Each transaction method of the service ([entrarALaRuleta],
    [cargarRevolver], [disparar]) asks the RPC endpoint for its latest
    ledger after building the transaction and before sending it: when
    that request fails the method throws its error without calling
    [signAndSendViaLaunchtube], so nothing is signed or sent; when it
    succeeds the ledger number plays no part in what is sent or
    returned. *)
Theorem transaction_methods_need_latest_ledger (sessionId : Z)
    (player : Ruleta.Address) (points : Z) (bulletCommitment : list Z)
    (bulletPosition : Z) (zkProof : list Z)
    (call : Ruleta.Invocation) (run : list Step * (Thrown + Sent R S))
    (tx : Tx R S) :
  In (call, run)
    [ (Ruleta.Call_entrar_a_la_ruleta sessionId player points,
       entrarALaRuleta R S client getLatestLedger RPC_URL sessionId player
         points);
      (Ruleta.Call_cargar_revolver sessionId player bulletCommitment
         bulletPosition,
       cargarRevolver R S client getLatestLedger RPC_URL sessionId player
         bulletCommitment bulletPosition);
      (Ruleta.Call_disparar sessionId player zkProof,
       disparar R S client getLatestLedger RPC_URL sessionId player zkProof) ] ->
  client call = inr tx ->
  match getLatestLedger RPC_URL with
  | inl err => run = ([Built call; LatestLedger RPC_URL], inl err)
  | inr _ =>
      run = ([Built call; LatestLedger RPC_URL]
               ++ map Sending
                    (fst (signAndSendViaLaunchtube tx timeoutInSeconds None)),
             snd (signAndSendViaLaunchtube tx timeoutInSeconds None))
  end.
Proof.
  intros Hin Hbuilt.
  assert (Hrun : run = submit R S client getLatestLedger RPC_URL call).
  { destruct Hin as [[= <- <-]|[[= <- <-]|[[= <- <-]|[]]]]; reflexivity. }
  rewrite Hrun, (submit_after_build call tx Hbuilt).
  now destruct (getLatestLedger RPC_URL).
Qed.

End ServiceSendFacts.

Lemma transaction_methods_need_latest_ledger_witness :
  Service.disparar unit unit (fun _ => inr Launchtube.OtherObject)
    (fun _ => inl (Launchtube.newError "unreachable")) "https://rpc.example"
    7 "GALICE" [1]
  = ([Service.Built (Ruleta.Call_disparar 7 "GALICE" [1]);
      Service.LatestLedger "https://rpc.example"],
     inl (Launchtube.newError "unreachable")).
Proof.
  exact (transaction_methods_need_latest_ledger unit unit
           (fun _ => inr Launchtube.OtherObject)
           (fun _ => inl (Launchtube.newError "unreachable"))
           "https://rpc.example" 7 "GALICE" 0 [] 0 [1]
           (Ruleta.Call_disparar 7 "GALICE" [1]) _ Launchtube.OtherObject
           (or_intror (or_intror (or_introl eq_refl))) eq_refl).
Defined.

(** ** The default expiration of Player 2's signature *)

Section InjectDefaultTtl.
Import AuthEntry.

Variable player1 player2 : Address.
Variable fromXDR : string -> option Entry.
Variable getLatestLedger : string -> Launchtube.Thrown + Z.
Variable verify : Address -> Preimage -> list Z -> bool.
Variable tx : Tx.
Variable player1AuthEntryXDR : string.
Variable player2Signer : Signer.
Variable player1SignedAuthEntry : Entry.
Variable authEntries : list Entry.
Variable i j : nat.
Variable e2 : Entry.
Variable sign : Preimage -> Address -> SignResult.
Variable sequence : Z.
Variable sig : list Z.

Hypothesis Hparse : fromXDR player1AuthEntryXDR = Some player1SignedAuthEntry.
Hypothesis Hsigned : has_address player1 player1SignedAuthEntry.
Hypothesis Hsim : auth tx = Some authEntries.
Hypothesis Hne : player1 <> player2.
Hypothesis Hi : is_last_with (has_address player1) authEntries i.
Hypothesis Hj : is_last_with (has_address player2) authEntries j.
Hypothesis Hl : authEntries !! j = Some e2.
Hypothesis Hwallet : signAuthEntry player2Signer = Some sign.
Hypothesis Hledger : getLatestLedger (rpcUrl tx) = inr sequence.
Hypothesis Hsig :
  sign (preimage_of e2 (sequence + 60) (networkPassphrase tx)) player2
  = Signed sig.

(** X5. Called without a ledger bound, [injectSignedAuthEntry] asks the
    transaction's own RPC endpoint for the latest ledger and has Player 2
    sign for 60 ledgers past it ([DEFAULT_AUTH_TTL_MINUTES] = 5 minutes
    at 12 ledgers a minute): the wallet is shown that expiration, and
    when its signature verifies against Player 2's key the signed entry
    put back carries it; when the signature does not verify the call
    throws, with Player 1's entry written and Player 2's as it was. *)
Theorem injectSignedAuthEntry_default_expiration :
  Ledger.defaultAuthValidUntil getLatestLedger (rpcUrl tx)
  = Some (sequence + 60) /\
  (verify player2
     (mkPreimage (networkPassphrase tx) (sequence + 60) (rootInvocation e2))
     sig = true ->
   exists (spliced : list Entry) (signed2 : Entry),
     injectSignedAuthEntry fromXDR
       (Ledger.defaultAuthValidUntil getLatestLedger) verify
       tx player1AuthEntryXDR player2 player2Signer None
     = (Returned, with_auth tx spliced) /\
     spliced !! j = Some signed2 /\
     signatureExpirationLedger signed2 = sequence + 60 /\
     signature signed2 = Some sig /\
     credentials signed2 = credentials e2 /\
     rootInvocation signed2 = rootInvocation e2) /\
  (verify player2
     (mkPreimage (networkPassphrase tx) (sequence + 60) (rootInvocation e2))
     sig = false ->
   injectSignedAuthEntry fromXDR
     (Ledger.defaultAuthValidUntil getLatestLedger) verify
     tx player1AuthEntryXDR player2 player2Signer None
   = (Threw LibraryError,
      with_auth tx (<[i := player1SignedAuthEntry]> authEntries)) /\
   (<[i := player1SignedAuthEntry]> authEntries) !! j = Some e2).
Proof.
  assert (Httl : Ledger.defaultAuthValidUntil getLatestLedger (rpcUrl tx)
                 = Some (sequence + 60)).
  { unfold Ledger.defaultAuthValidUntil, Ledger.calculateValidUntilLedger.
    rewrite Hledger. reflexivity. }
  split; [exact Httl|].
  unfold injectSignedAuthEntry. rewrite Hparse.
  unfold has_address in Hsigned. rewrite Hsigned, Hsim.
  rewrite (scan_finds_p1 player1 player2 authEntries 0 i nothing_found Hi).
  destruct (scan_finds_p2 player1 player2 authEntries 0 j nothing_found e2
              Hne Hj Hl) as [E1 E2].
  rewrite E1, E2, Hwallet, Httl. cbn [Nat.add].
  assert (Hcred : credentials e2 = sorobanCredentialsAddress player2).
  { destruct Hj as [(e2' & Hl2 & H2) _]. rewrite Hl in Hl2.
    injection Hl2 as <-. exact H2. }
  unfold authorizeEntry. rewrite Hcred, Hsig.
  change (preimage_of e2 (sequence + 60) (networkPassphrase tx))
    with (mkPreimage (networkPassphrase tx) (sequence + 60)
            (rootInvocation e2)).
  split.
  - intros ->. eexists. exists (authorized e2 sig (sequence + 60)).
    split; [reflexivity|]. split; [|now repeat split].
    apply list_lookup_insert_eq. rewrite length_insert.
    now apply lookup_lt_Some in Hl.
  - intros ->. split; [reflexivity|].
    rewrite list_lookup_insert_ne; [exact Hl|].
    intros <-. destruct Hi as [(e1 & Hl1 & H1) _].
    rewrite Hl in Hl1. injection Hl1 as <-.
    unfold has_address in H1. congruence.
Qed.

End InjectDefaultTtl.

Lemma injectSignedAuthEntry_default_expiration_witness :
  exists (spliced : list AuthEntry.Entry) (signed2 : AuthEntry.Entry),
    AuthEntry.injectSignedAuthEntry Demo.fromXDR
      (Ledger.defaultAuthValidUntil (fun _ => inr 1000)) Demo.verify
      (Demo.tx_of [Demo.stub1; Demo.stub2; Demo.source_entry])
      "P1SIGNED" "GP2" Demo.wallet None
    = (AuthEntry.Returned,
       AuthEntry.with_auth
         (Demo.tx_of [Demo.stub1; Demo.stub2; Demo.source_entry]) spliced) /\
    spliced !! 1%nat = Some signed2 /\
    AuthEntry.signatureExpirationLedger signed2 = 1000 + 60 /\
    AuthEntry.signature signed2 = Some [9; 9] /\
    AuthEntry.credentials signed2 = AuthEntry.credentials Demo.stub2 /\
    AuthEntry.rootInvocation signed2 = AuthEntry.rootInvocation Demo.stub2.
Proof.
  apply (injectSignedAuthEntry_default_expiration "GP1" "GP2" Demo.fromXDR
           (fun _ => inr 1000) Demo.verify
           (Demo.tx_of [Demo.stub1; Demo.stub2; Demo.source_entry])
           "P1SIGNED" Demo.wallet Demo.signed1
           [Demo.stub1; Demo.stub2; Demo.source_entry] 0%nat 1%nat Demo.stub2
           (fun _ _ => AuthEntry.Signed [9; 9]) 1000 [9; 9]
           eq_refl eq_refl eq_refl ltac:(discriminate)
           demo_last_with_p1 demo_last_with_p2 eq_refl eq_refl eq_refl
           eq_refl).
  reflexivity.
Defined.

(** ** The request cache *)

Section RequestCacheFacts.
Import RequestCache.

Variable T : Type.

(** While a request for [key] is in flight and no call finds a valid
    entry, every call joins it and the state does not move. *)
Lemma dedupes_join (key : string) (p : Promise) (calls : list (Z * Z))
    (rc : State T) :
  pendingRequests rc !! key = Some p ->
  Forall (fun call => still_valid T (cache rc !! key) (fst call) (snd call)
                      = None) calls ->
  dedupes key calls rc = (map (fun _ => Pending p) calls, rc).
Proof.
  intros Hp Hstale. induction Hstale as [|[ttl now] rest Hcall _ IH];
    [reflexivity|].
  cbn [dedupes]. unfold dedupe. cbn [fst snd] in Hcall.
  rewrite Hcall, Hp, IH. reflexivity.
Qed.

(** X6. Calls of [dedupe] for one key made while its request is in
    flight do not start another request: with nothing pending for the
    key and no valid cached entry for any of the calls, the first call
    runs the fetcher and each later call is handed that same promise. *)
Theorem dedupes_fetch_once (key : string) (ttl now : Z)
    (calls : list (Z * Z)) (rc : State T) :
  pendingRequests rc !! key = None ->
  Forall (fun call => still_valid T (cache rc !! key) (fst call) (snd call)
                      = None) ((ttl, now) :: calls) ->
  fst (dedupes key ((ttl, now) :: calls) rc)
  = Started (created rc) :: map (fun _ => Pending (created rc)) calls /\
  pendingRequests (snd (dedupes key ((ttl, now) :: calls) rc)) !! key
  = Some (created rc) /\
  created (snd (dedupes key ((ttl, now) :: calls) rc)) = S (created rc) /\
  cache (snd (dedupes key ((ttl, now) :: calls) rc)) = cache rc.
Proof.
  intros Hnone Hstale. inversion Hstale as [|call rest Hfirst Hrest]; subst.
  cbn [fst snd] in Hfirst. cbn [dedupes]. unfold dedupe.
  rewrite Hfirst, Hnone.
  rewrite (dedupes_join key (created rc) calls); cbn.
  - split; [reflexivity|]. split; [apply lookup_insert_eq|]. now split.
  - apply lookup_insert_eq.
  - exact Hrest.
Qed.

(** X7. What a request resolved with is served from the cache to the
    calls whose [ttl] has not run out since, whatever the data (a null
    "not found" as well), and without calling the fetcher; a call whose
    [ttl] has run out starts a new request; calls for other keys are
    answered as before. *)
Theorem fulfilled_then_dedupe (key : string) (d : T) (resolved : Z)
    (ttl now : Z) (rc : State T) :
  dedupe key ttl now (fulfilled key d resolved rc)
  = (if now - resolved <? ttl
     then (Cached d, fulfilled key d resolved rc)
     else (Started (created rc),
           mkState (<[key := mkCacheEntry d resolved]> (cache rc))
             (<[key := created rc]> (pendingRequests rc))
             (S (created rc)))) /\
  forall other : string,
    other <> key ->
    fst (dedupe other ttl now (fulfilled key d resolved rc))
    = fst (dedupe other ttl now rc).
Proof.
  split.
  - unfold dedupe, fulfilled. cbn [cache pendingRequests created].
    rewrite lookup_insert_eq. cbn [still_valid timestamp].
    destruct (now - resolved <? ttl); [reflexivity|].
    rewrite lookup_delete_eq, insert_delete_eq. reflexivity.
  - intros other Hother. unfold dedupe, fulfilled.
    cbn [cache pendingRequests created].
    rewrite lookup_insert_ne by congruence.
    rewrite lookup_delete_ne by congruence.
    destruct (still_valid T (cache rc !! other) ttl now); [reflexivity|].
    now destruct (pendingRequests rc !! other).
Qed.

(** X8. A request that fails leaves nothing behind: the cache and the
    table of requests in flight are as they were before the call, so
    the next call for the key runs the fetcher again. *)
Theorem rejected_request_is_retried (key : string) (ttl now : Z)
    (rc : State T) :
  pendingRequests rc !! key = None ->
  still_valid T (cache rc !! key) ttl now = None ->
  fst (dedupe key ttl now rc) = Started (created rc) /\
  cache (rejected key (snd (dedupe key ttl now rc))) = cache rc /\
  pendingRequests (rejected key (snd (dedupe key ttl now rc)))
  = pendingRequests rc /\
  fst (dedupe key ttl now (rejected key (snd (dedupe key ttl now rc))))
  = Started (S (created rc)).
Proof.
  intros Hnone Hstale.
  assert (E : dedupe key ttl now rc
              = (Started (created rc),
                 mkState (cache rc) (<[key := created rc]> (pendingRequests rc))
                   (S (created rc)))).
  { unfold dedupe. now rewrite Hstale, Hnone. }
  rewrite E. cbn [fst snd]. unfold rejected.
  cbn [cache pendingRequests created].
  rewrite delete_insert_id by exact Hnone.
  split; [reflexivity|]. split; [reflexivity|]. split; [reflexivity|].
  unfold dedupe. cbn [cache pendingRequests created].
  rewrite Hstale, Hnone. reflexivity.
Qed.

End RequestCacheFacts.

Lemma dedupes_fetch_once_witness :
  fst (RequestCache.dedupes "game-state:7" [(5000, 0); (5000, 1); (5000, 2)]
         (RequestCache.new (T := unit)))
  = [RequestCache.Started 0; RequestCache.Pending 0; RequestCache.Pending 0]%nat.
Proof.
  exact (proj1 (dedupes_fetch_once unit "game-state:7" 5000 0
                  [(5000, 1); (5000, 2)] RequestCache.new eq_refl
                  ltac:(repeat constructor))).
Defined.

Lemma rejected_request_is_retried_witness :
  fst (RequestCache.dedupe "game-state:7" 5000 0
         (RequestCache.rejected "game-state:7"
            (snd (RequestCache.dedupe "game-state:7" 5000 0
                    (RequestCache.new (T := unit))))))
  = RequestCache.Started 1%nat.
Proof.
  exact (proj2 (proj2 (proj2
           (rejected_request_is_retried unit "game-state:7" 5000 0
              RequestCache.new eq_refl eq_refl)))).
Defined.

(** ** Cache keys *)

Section CacheKeyFacts.
Import RequestCache.

Lemma append_colon_inj (p q a b : string) :
  ~ In ":"%char (list_ascii_of_string p) ->
  ~ In ":"%char (list_ascii_of_string q) ->
  (p ++ ":" ++ a = q ++ ":" ++ b)%string ->
  p = q /\ a = b.
Proof.
  revert q. induction p as [|c p IH]; intros [|c' q] Hp Hq E; cbn in E.
  - injection E as E. now split.
  - injection E as <- _. exfalso. apply Hq. now left.
  - injection E as -> _. exfalso. apply Hp. now left.
  - injection E as <- E. destruct (IH q) as [-> ->]; [| |exact E|now split].
    + intros H. apply Hp. now right.
    + intros H. apply Hq. now right.
Qed.

Lemma part_string_Num_inj (n m : N) :
  part_string (Num n) = part_string (Num m) -> n = m.
Proof.
  cbn. intros E. apply DecimalN.Unsigned.to_uint_inj.
  assert (H : Some (N.to_uint n) = Some (N.to_uint m))
    by now rewrite <- !NilEmpty.usu, E.
  now injection H.
Qed.

(** X9. The keys the games build for the cache, a name and a session id
    joined by a colon, do not collide: two names without a colon and two
    session ids give the same key only when the names are the same and
    the ids are the same. *)
Theorem createCacheKey_separates (name1 name2 : string) (id1 id2 : N) :
  ~ In ":"%char (list_ascii_of_string name1) ->
  ~ In ":"%char (list_ascii_of_string name2) ->
  createCacheKey [Str name1; Num id1] = createCacheKey [Str name2; Num id2] ->
  name1 = name2 /\ id1 = id2.
Proof.
  intros H1 H2 E. unfold createCacheKey in E. cbn [map String.concat] in E.
  destruct (append_colon_inj _ _ _ _ H1 H2 E) as [-> En].
  split; [reflexivity|]. now apply part_string_Num_inj.
Qed.

End CacheKeyFacts.

Lemma createCacheKey_separates_witness :
  "game-state"%string = "game-state"%string /\ 42%N = 42%N.
Proof.
  apply (createCacheKey_separates "game-state" "game-state" 42 42).
  - vm_compute. intuition discriminate.
  - vm_compute. intuition discriminate.
  - reflexivity.
Defined.

(** ** Waiting for the winner *)

Section RevealFacts.
Import NumberGuess.

Variable poll : nat -> ImportFlow.Thrown + option Game.

(** The loop keeps: [calls] reads made, the last one answered
    [updatedGame], none before it showed a winner. *)
Lemma wait_loop_reads (left calls : nat) (updatedGame : option Game) :
  (1 <= calls)%nat ->
  poll (calls - 1) = inr updatedGame ->
  (forall k : nat, (S k < calls)%nat ->
     exists game : option Game, poll k = inr game /\ has_winner game = false) ->
  (calls <= snd (wait_loop poll left calls updatedGame) <= calls + left)%nat /\
  (forall k : nat,
     (S k < snd (wait_loop poll left calls updatedGame))%nat ->
     exists game : option Game, poll k = inr game /\ has_winner game = false) /\
  match fst (wait_loop poll left calls updatedGame) with
  | inl err =>
      poll (snd (wait_loop poll left calls updatedGame) - 1) = inl err
  | inr game =>
      poll (snd (wait_loop poll left calls updatedGame) - 1) = inr game /\
      (has_winner game = true \/
       snd (wait_loop poll left calls updatedGame) = (calls + left)%nat)
  end.
Proof.
  revert calls updatedGame.
  induction left as [|left IH]; intros calls updatedGame Hcalls Hlast Hbefore.
  - cbn. split; [lia|]. split; [exact Hbefore|].
    split; [exact Hlast | right; lia].
  - cbn [wait_loop]. destruct (has_winner updatedGame) eqn:Hwon.
    + cbn. split; [lia|]. split; [exact Hbefore|].
      split; [exact Hlast | now left].
    + destruct (poll calls) as [err|game] eqn:Hpoll.
      * cbn [fst snd]. split; [lia|]. split.
        -- intros k Hk. destruct (decide (S k = calls)) as [E|E].
           ++ exists updatedGame. split; [|exact Hwon].
              rewrite <- Hlast. f_equal. lia.
           ++ apply Hbefore. lia.
        -- rewrite <- Hpoll. f_equal. lia.
      * destruct (IH (S calls) game) as (Hn & Hk & Hres).
        -- lia.
        -- rewrite <- Hpoll. f_equal. lia.
        -- intros k Hk. destruct (decide (S k = calls)) as [E|E].
           ++ exists updatedGame. split; [|exact Hwon].
              rewrite <- Hlast. f_equal. lia.
           ++ apply Hbefore. lia.
        -- split; [lia|]. split; [exact Hk|].
           destruct (fst (wait_loop poll left (S calls) game));
             [exact Hres|].
           destruct Hres as [Hp [Hw|Hsix]]; split; try exact Hp;
             [now left | right; lia].
Qed.

(** X10. [waitForWinner] reads the game at least once and at most six
    times (a first read and up to five retries), stops at the first read
    that shows a winner or that throws, and returns what its last read
    answered: a game without a winner (or no game) only after six reads
    that all came back without one. *)
Theorem waitForWinner_reads :
  (1 <= snd (waitForWinner poll) <= 6)%nat /\
  (forall k : nat,
     (S k < snd (waitForWinner poll))%nat ->
     exists game : option Game, poll k = inr game /\ has_winner game = false) /\
  match fst (waitForWinner poll) with
  | inl err => poll (snd (waitForWinner poll) - 1) = inl err
  | inr game =>
      poll (snd (waitForWinner poll) - 1) = inr game /\
      (has_winner game = true \/ snd (waitForWinner poll) = 6%nat)
  end.
Proof.
  unfold waitForWinner. destruct (poll 0%nat) as [err|game] eqn:Hfirst.
  - cbn. split; [lia|]. split; [intros k Hk; lia | exact Hfirst].
  - destruct (wait_loop_reads 5 1 game) as (Hn & Hk & Hres).
    + lia.
    + exact Hfirst.
    + intros k Hk. lia.
    + split; [lia|]. split; [exact Hk | exact Hres].
Qed.

End RevealFacts.

Section RevealHandlerFacts.
Import NumberGuess.

Variable poll : nat -> ImportFlow.Thrown + option Game.
Variable userAddress : Address.
Variable ui : View.

Hypothesis Hfree : busy ui = false.
Hypothesis Hreads :
  forall k : nat, (k < 6)%nat ->
    exists game : option Game, poll k = inr game.

(** X11. Once the wallet is there and the reveal transaction has gone
    through, [handleRevealWinner] always ends in the phase 'complete'
    with a success message and a standings refresh, showing whatever
    game its last read returned: when six reads come back without a
    winner it still announces "Game complete! Winner revealed." over a
    game state that has none. *)
Theorem handleRevealWinner_completes :
  let done := handleRevealWinner poll (inr tt) (inr tt) userAddress ui in
  gamePhase (fst done) = ImportFlow.phase_complete /\
  loading (fst done) = false /\
  error (fst done) = None /\
  sessionId (fst done) = sessionId ui /\
  fst (waitForWinner poll) = inr (gameState (fst done)) /\
  snd done
  = RevealWinner (sessionId ui) userAddress
      :: reads (sessionId ui) (snd (waitForWinner poll)) ++ [StandingsRefresh] /\
  ((forall k : nat, (k < 6)%nat ->
      exists game : option Game, poll k = inr game /\ has_winner game = false) ->
   success (fst done) = Some "Game complete! Winner revealed."%string /\
   has_winner (gameState (fst done)) = false /\
   poll 5%nat = inr (gameState (fst done)) /\
   snd (waitForWinner poll) = 6%nat).
Proof.
  cbv zeta. unfold handleRevealWinner. rewrite Hfree.
  assert (Hspec :
    (1 <= snd (waitForWinner poll) <= 6)%nat /\
    (forall k : nat, (S k < snd (waitForWinner poll))%nat ->
       exists game : option Game,
         poll k = inr game /\ has_winner game = false) /\
    match fst (waitForWinner poll) with
    | inl err => poll (snd (waitForWinner poll) - 1) = inl err
    | inr game =>
        poll (snd (waitForWinner poll) - 1) = inr game /\
        (has_winner game = true \/ snd (waitForWinner poll) = 6%nat)
    end).
  { unfold waitForWinner. destruct (poll 0%nat) as [err|game] eqn:Hfirst.
    - cbn. split; [lia|]. split; [intros k Hk; lia | exact Hfirst].
    - destruct (wait_loop_reads poll 5 1 game) as (Hn & Hk & Hres);
        [lia | exact Hfirst | intros k Hk; lia |].
      split; [lia|]. split; [exact Hk | exact Hres]. }
  destruct Hspec as (Hn & Hbefore & Hres).
  destruct (waitForWinner poll) as [[err|updatedGame] n] eqn:Hwait;
    cbn [fst snd] in *.
  - destruct (Hreads (n - 1)%nat) as [game Hgame]; [lia|]. congruence.
  - repeat (split; [reflexivity|]).
    intros Hnone. destruct Hres as [Hlast Hstop].
    assert (Hno : has_winner updatedGame = false).
    { destruct (Hnone (n - 1)%nat) as (game & Hgame & Hw); [lia|].
      congruence. }
    assert (Hsix : n = 6%nat).
    { destruct Hstop as [Hw|Hsix]; [congruence | exact Hsix]. }
    subst n. split; [|now repeat split].
    destruct updatedGame as [game|]; [|reflexivity].
    cbn in Hno. apply bool_decide_eq_false in Hno.
    destruct (winner game) as [w|] eqn:Hw; [exfalso; now apply Hno|].
    rewrite bool_decide_eq_false_2 by discriminate. reflexivity.
Qed.

End RevealHandlerFacts.

Lemma handleRevealWinner_completes_witness :
  NumberGuess.gamePhase
    (fst (NumberGuess.handleRevealWinner (fun _ => inr None) (inr tt) (inr tt)
            "GUSER"
            (NumberGuess.mkView false false None None 42 None ""
               ImportFlow.phase_reveal false)))
  = ImportFlow.phase_complete.
Proof.
  exact (proj1 (handleRevealWinner_completes (fun _ => inr None) "GUSER"
                  (NumberGuess.mkView false false None None 42 None ""
                     ImportFlow.phase_reveal false)
                  eq_refl (fun k _ => ex_intro _ None eq_refl))).
Defined.

(** ** Loading an existing game *)

Section LoadFacts.
Import RequestCache NumberGuess.

Variable parseInt : string -> option Z.
Variable getGame : Z -> ImportFlow.Thrown + option Game.
Variable inFlight : Promise -> ImportFlow.Thrown + option Game.
Variable userAddress : Address.

(** X12. While another action runs (the action lock is taken, or the
    view is loading) [handleLoadExistingGame] does nothing at all.
    Otherwise it lets a user into a game only as one of its two players:
    it ends with the loading flag down; when it ends with an error the
    session, the game shown, the phase and the form are as they were;
    when it ends without one, the session id is the positive number
    parsed from the trimmed form field, the game shown has the user as
    player 1 or player 2, and the phase is 'guess' or 'reveal', never
    'complete'.  A session id that does not parse or is not positive is
    refused without any lookup. *)
Theorem handleLoadExistingGame_guards (now resolved : Z) (ui : View)
    (rc : Cache) :
  let done :=
    handleLoadExistingGame parseInt getGame inFlight userAddress now resolved
      ui rc in
  (busy ui = true -> done = (ui, rc, [])) /\
  (busy ui = false ->
   loading (fst (fst done)) = false /\
   (error (fst (fst done)) <> None ->
    sessionId (fst (fst done)) = sessionId ui /\
    gameState (fst (fst done)) = gameState ui /\
    gamePhase (fst (fst done)) = gamePhase ui /\
    loadSessionId (fst (fst done)) = loadSessionId ui /\
    success (fst (fst done)) = None) /\
   (error (fst (fst done)) = None ->
    exists game : Game,
      gameState (fst (fst done)) = Some game /\
      (player1 game = userAddress \/ player2 game = userAddress) /\
      0 < sessionId (fst (fst done)) /\
      parseInt (ImportFlow.trim (loadSessionId ui))
      = Some (sessionId (fst (fst done))) /\
      (gamePhase (fst (fst done)) = ImportFlow.phase_guess \/
       gamePhase (fst (fst done)) = ImportFlow.phase_reveal) /\
      loadSessionId (fst (fst done)) = ""%string /\
      success (fst (fst done)) <> None) /\
   (match parseInt (ImportFlow.trim (loadSessionId ui)) with
    | Some id => id <= 0
    | None => True
    end ->
    done = (failed "Failed to load game"
              (ImportFlow.ErrorObj "Enter a valid session ID") (started ui),
            rc, []))).
Proof.
  cbv zeta. unfold handleLoadExistingGame.
  split; [now intros ->|]. intros Hfree. rewrite Hfree.
  destruct (parseInt (ImportFlow.trim (loadSessionId ui))) as [id|].
  2: { cbn. split; [reflexivity|]. split; [now intros _|].
       split; [discriminate | reflexivity]. }
  destruct (Z.leb_spec id 0) as [Hid|Hid].
  { cbn. split; [reflexivity|]. split; [now intros _|].
    split; [discriminate | reflexivity]. }
  destruct (cachedGame getGame inFlight id now resolved rc)
    as [[[err|[game|]] rc1] log].
  - cbn. split; [reflexivity|]. split; [now intros _|].
    split; [discriminate | lia].
  - destruct (bool_decide (player1 game = userAddress)) eqn:H1;
      [|destruct (bool_decide (player2 game = userAddress)) eqn:H2]; cbn.
    + apply bool_decide_eq_true in H1.
      unfold show_loaded.
      destruct (winner game); [|destruct (both_guessed game)]; cbn;
        (split; [reflexivity|]); (split; [now intros []|]);
        (split; [|lia]); intros _; exists game;
        repeat (split; try reflexivity; try lia; try discriminate);
        auto.
    + apply bool_decide_eq_true in H2.
      unfold show_loaded.
      destruct (winner game); [|destruct (both_guessed game)]; cbn;
        (split; [reflexivity|]); (split; [now intros []|]);
        (split; [|lia]); intros _; exists game;
        repeat (split; try reflexivity; try lia; try discriminate);
        auto.
    + split; [reflexivity|]. split; [now intros _|].
      split; [discriminate | lia].
  - cbn. split; [reflexivity|]. split; [now intros _|].
    split; [discriminate | lia].
Qed.

End LoadFacts.

Section LoadCacheFacts.
Import RequestCache NumberGuess.

Variable parseInt : string -> option Z.
Variable getGame : Z -> ImportFlow.Thrown + option Game.
Variable inFlight : Promise -> ImportFlow.Thrown + option Game.
Variable userAddress : Address.
Variable ui : View.
Variable rc : Cache.
Variable id now resolved : Z.

Hypothesis Hfree : busy ui = false.
Hypothesis Hparse : parseInt (ImportFlow.trim (loadSessionId ui)) = Some id.
Hypothesis Hpos : 0 < id.
Hypothesis Hidle :
  pendingRequests rc !! createCacheKey [Str "game-state"; Num (Z.to_N id)]
  = None.
Hypothesis Hstale :
  still_valid (option Game)
    (cache rc !! createCacheKey [Str "game-state"; Num (Z.to_N id)]) 5000 now
  = None.

(** A lookup that goes to the contract and what it leaves in the cache. *)
Lemma cachedGame_fetches (answer : option Game) :
  getGame id = inr answer ->
  cachedGame getGame inFlight id now resolved rc
  = (inr answer,
     fulfilled (createCacheKey [Str "game-state"; Num (Z.to_N id)]) answer
       resolved
       (mkState (cache rc)
          (<[createCacheKey [Str "game-state"; Num (Z.to_N id)]
             := created rc]> (pendingRequests rc))
          (S (created rc))),
     [GetGame id]).
Proof.
  intros Hget. unfold cachedGame, dedupe. rewrite Hstale, Hidle.
  unfold settle. rewrite Hget. reflexivity.
Qed.

(** X13. A "Game not found" is remembered for five seconds: when a load
    finds no game for a session id, loading the same id again less than
    5000 ms after that answer arrived fails with 'Game not found' from
    the cache, without asking the contract, whatever the contract would
    answer by then. *)
Theorem not_found_is_remembered
    (getGame' : Z -> ImportFlow.Thrown + option Game)
    (inFlight' : Promise -> ImportFlow.Thrown + option Game)
    (now' resolved' : Z) :
  getGame id = inr None ->
  now' - resolved < 5000 ->
  let first :=
    handleLoadExistingGame parseInt getGame inFlight userAddress now resolved
      ui rc in
  let second :=
    handleLoadExistingGame parseInt getGame' inFlight' userAddress now'
      resolved' (fst (fst first)) (snd (fst first)) in
  error (fst (fst first)) = Some "Game not found"%string /\
  snd first = [GetGame id] /\
  error (fst (fst second)) = Some "Game not found"%string /\
  snd second = [] /\
  snd (fst second) = snd (fst first) /\
  sessionId (fst (fst second)) = sessionId ui /\
  gameState (fst (fst second)) = gameState ui.
Proof.
  intros Hget Hsoon. cbv zeta.
  assert (Hfirst :
    handleLoadExistingGame parseInt getGame inFlight userAddress now resolved
      ui rc
    = (failed "Failed to load game" (ImportFlow.ErrorObj "Game not found")
         (started ui),
       fulfilled (createCacheKey [Str "game-state"; Num (Z.to_N id)]) None
         resolved
         (mkState (cache rc)
            (<[createCacheKey [Str "game-state"; Num (Z.to_N id)]
               := created rc]> (pendingRequests rc))
            (S (created rc))),
       [GetGame id])).
  { unfold handleLoadExistingGame. rewrite Hfree, Hparse.
    destruct (Z.leb_spec id 0) as [Hid|_]; [lia|].
    now rewrite (cachedGame_fetches None Hget). }
  rewrite Hfirst. cbn [fst snd].
  split; [reflexivity|]. split; [reflexivity|].
  unfold handleLoadExistingGame.
  assert (Hfree' : busy (failed "Failed to load game"
                           (ImportFlow.ErrorObj "Game not found") (started ui))
                   = false).
  { unfold busy in *. cbn. destruct (actionLock ui); [discriminate|].
    cbn in *. now destruct (loading ui), (quickstartLoading ui). }
  rewrite Hfree'. cbn [failed started loadSessionId]. rewrite Hparse.
  destruct (Z.leb_spec id 0) as [Hid|_]; [lia|].
  unfold cachedGame, dedupe, fulfilled. cbn [cache pendingRequests created].
  rewrite lookup_insert_eq. cbn [still_valid timestamp].
  destruct (Z.ltb_spec (now' - resolved) 5000) as [_|Hlate]; [|lia].
  cbn. now repeat split.
Qed.

(** X14. A finished game is loaded into the phase 'reveal', and it is
    the next refresh ([loadGameState], run on entry and every five
    seconds) that moves it to 'complete'. *)
Theorem finished_game_reveal_then_complete (game : Game) (won : Address) :
  getGame id = inr (Some game) ->
  winner game = Some won ->
  player1 game = userAddress \/ player2 game = userAddress ->
  let loaded :=
    fst (fst (handleLoadExistingGame parseInt getGame inFlight userAddress
                now resolved ui rc)) in
  gamePhase loaded = ImportFlow.phase_reveal /\
  sessionId loaded = id /\
  gameState loaded = Some game /\
  error loaded = None /\
  gamePhase (fst (loadGameState getGame loaded)) = ImportFlow.phase_complete /\
  gameState (fst (loadGameState getGame loaded)) = Some game.
Proof.
  intros Hget Hwon Hplayer. cbv zeta.
  unfold handleLoadExistingGame. rewrite Hfree, Hparse.
  destruct (Z.leb_spec id 0) as [Hid|_]; [lia|].
  rewrite (cachedGame_fetches (Some game) Hget).
  assert (Hin : negb (bool_decide (player1 game = userAddress))
                && negb (bool_decide (player2 game = userAddress)) = false).
  { destruct Hplayer as [H|H]; rewrite (bool_decide_eq_true_2 _ H);
      [reflexivity | apply andb_false_r]. }
  rewrite Hin. cbn [fst snd]. unfold show_loaded. rewrite Hwon.
  cbn [gamePhase sessionId gameState error].
  split; [reflexivity|]. split; [reflexivity|]. split; [reflexivity|].
  split; [reflexivity|].
  unfold loadGameState. cbn [sessionId]. rewrite Hget. cbn. rewrite Hwon.
  now split.
Qed.

End LoadCacheFacts.

Lemma handleLoadExistingGame_guards_witness :
  NumberGuess.handleLoadExistingGame (fun _ => Some 7)
    (fun _ => inr None) (fun _ => inr None) "GUSER" 1000 1200
    (NumberGuess.mkView true false None None 1 None "7"
       ImportFlow.phase_create false)
    RequestCache.new
  = (NumberGuess.mkView true false None None 1 None "7"
       ImportFlow.phase_create false,
     RequestCache.new, []) /\
  NumberGuess.loading
    (fst (fst (NumberGuess.handleLoadExistingGame (fun _ => Some 7)
                 (fun _ => inr None) (fun _ => inr None) "GUSER" 1000 1200
                 (NumberGuess.mkView false false None None 1 None "7"
                    ImportFlow.phase_create false)
                 RequestCache.new)))
  = false.
Proof.
  split.
  - exact (proj1 (handleLoadExistingGame_guards (fun _ => Some 7)
                    (fun _ => inr None) (fun _ => inr None) "GUSER" 1000 1200
                    (NumberGuess.mkView true false None None 1 None "7"
                       ImportFlow.phase_create false)
                    RequestCache.new) eq_refl).
  - exact (proj1 (proj2 (handleLoadExistingGame_guards (fun _ => Some 7)
                           (fun _ => inr None) (fun _ => inr None) "GUSER"
                           1000 1200
                           (NumberGuess.mkView false false None None 1 None
                              "7" ImportFlow.phase_create false)
                           RequestCache.new) eq_refl)).
Defined.

Lemma not_found_is_remembered_witness :
  snd (NumberGuess.handleLoadExistingGame (fun _ => Some 7)
         (fun _ => inr (Some (NumberGuess.mkGame "GUSER" "GOTHER" None None
                                None None)))
         (fun _ => inr None) "GUSER" 3000 3100
         (fst (fst (NumberGuess.handleLoadExistingGame (fun _ => Some 7)
                      (fun _ => inr None) (fun _ => inr None) "GUSER" 1000
                      1200
                      (NumberGuess.mkView false false None None 1 None "7"
                         ImportFlow.phase_create false)
                      RequestCache.new)))
         (snd (fst (NumberGuess.handleLoadExistingGame (fun _ => Some 7)
                      (fun _ => inr None) (fun _ => inr None) "GUSER" 1000
                      1200
                      (NumberGuess.mkView false false None None 1 None "7"
                         ImportFlow.phase_create false)
                      RequestCache.new))))
  = [].
Proof.
  exact (proj1 (proj2 (proj2 (proj2
           (not_found_is_remembered (fun _ => Some 7) (fun _ => inr None)
              (fun _ => inr None) "GUSER"
              (NumberGuess.mkView false false None None 1 None "7"
                 ImportFlow.phase_create false)
              RequestCache.new 7 1000 1200 eq_refl eq_refl eq_refl eq_refl
              eq_refl
              (fun _ => inr (Some (NumberGuess.mkGame "GUSER" "GOTHER" None
                                     None None None)))
              (fun _ => inr None) 3000 3100 eq_refl eq_refl))))).
Defined.

Lemma finished_game_reveal_then_complete_witness :
  NumberGuess.gamePhase
    (fst (fst (NumberGuess.handleLoadExistingGame (fun _ => Some 7)
                 (fun _ => inr (Some (NumberGuess.mkGame "GUSER" "GOTHER"
                                        (Some 3) (Some 8) (Some "GOTHER")
                                        (Some 7))))
                 (fun _ => inr None) "GUSER" 1000 1200
                 (NumberGuess.mkView false false None None 1 None "7"
                    ImportFlow.phase_create false)
                 RequestCache.new)))
  = ImportFlow.phase_reveal.
Proof.
  exact (proj1 (finished_game_reveal_then_complete (fun _ => Some 7)
                  (fun _ => inr (Some (NumberGuess.mkGame "GUSER" "GOTHER"
                                         (Some 3) (Some 8) (Some "GOTHER")
                                         (Some 7))))
                  (fun _ => inr None) "GUSER"
                  (NumberGuess.mkView false false None None 1 None "7"
                     ImportFlow.phase_create false)
                  RequestCache.new 7 1000 1200 eq_refl eq_refl eq_refl eq_refl
                  eq_refl
                  (NumberGuess.mkGame "GUSER" "GOTHER" (Some 3) (Some 8)
                     (Some "GOTHER") (Some 7))
                  "GOTHER" eq_refl eq_refl (or_introl eq_refl))).
Defined.

(** ** The simulation source account *)

Section SimulationFacts.
Import Simulation.

Variable isValidEd25519PublicKey : string -> bool.
Variable RUNTIME_SIMULATION_SOURCE : string.
Variable DEV_ADMIN_ADDRESS : string.
Variable DEV_PLAYER2_ADDRESS : string.
Variable DEV_PLAYER1_ADDRESS : string.

Lemma existsb_eqb_In (s : string) (l : list string) :
  existsb (String.eqb s) l = true <-> In s l.
Proof.
  rewrite existsb_exists. split.
  - intros (x & Hin & E). apply String.eqb_eq in E. now subst.
  - intros Hin. exists s. split; [exact Hin | apply String.eqb_refl].
Qed.

Lemma first_usable_spec (avoid candidates : list string) :
  match first_usable isValidEd25519PublicKey avoid candidates with
  | Some addr =>
      exists before after : list string,
        candidates = before ++ addr :: after /\
        ~ In addr avoid /\
        isValidEd25519PublicKey addr = true /\
        forall c : string, In c before ->
          In c avoid \/ isValidEd25519PublicKey c = false
  | None =>
      forall c : string, In c candidates ->
        In c avoid \/ isValidEd25519PublicKey c = false
  end.
Proof.
  induction candidates as [|c rest IH]; cbn [first_usable]; [now intros c []|].
  destruct (existsb (String.eqb c) avoid) eqn:Havoid.
  - apply existsb_eqb_In in Havoid.
    destruct (first_usable isValidEd25519PublicKey avoid rest) as [addr|].
    + destruct IH as (before & after & -> & Hno & Hvalid & Hbefore).
      exists (c :: before), after. repeat split; try assumption.
      intros c' [<-|Hin]; [now left | now apply Hbefore].
    + intros c' [<-|Hin]; [now left | now apply IH].
  - assert (Hfree : ~ In c avoid).
    { intros Hin. apply existsb_eqb_In in Hin. congruence. }
    destruct (isValidEd25519PublicKey c) eqn:Hvalid.
    + exists [], rest. repeat split; try assumption. now intros c' [].
    + destruct (first_usable isValidEd25519PublicKey avoid rest) as [addr|].
      * destruct IH as (before & after & -> & Hno & Hv & Hbefore).
        exists (c :: before), after. repeat split; try assumption.
        intros c' [<-|Hin]; [now right | now apply Hbefore].
      * intros c' [<-|Hin]; [now right | now apply IH].
Qed.

Lemma Boolean_true (s : string) : Boolean s = true <-> s <> ""%string.
Proof.
  unfold Boolean. rewrite negb_true_iff. split.
  - intros E ->. discriminate.
  - intros H. now apply String.eqb_neq.
Qed.

(** X15. [getSimulationSourceAddress] returns the first of the runtime
    source, the admin, dev player 2 and dev player 1, in that order,
    that is set, is not among the addresses to avoid and is a valid
    Ed25519 public key: an avoided, empty or invalid address is never
    returned, and it throws exactly when none of the four qualifies. *)
Theorem getSimulationSourceAddress_picks (avoidAddresses : list string) :
  let usable (c : string) :=
    c <> ""%string /\ ~ In c avoidAddresses /\
    isValidEd25519PublicKey c = true in
  match getSimulationSourceAddress isValidEd25519PublicKey
          RUNTIME_SIMULATION_SOURCE DEV_ADMIN_ADDRESS DEV_PLAYER2_ADDRESS
          DEV_PLAYER1_ADDRESS avoidAddresses with
  | inr addr =>
      usable addr /\
      exists before after : list string,
        [RUNTIME_SIMULATION_SOURCE; DEV_ADMIN_ADDRESS; DEV_PLAYER2_ADDRESS;
         DEV_PLAYER1_ADDRESS] = before ++ addr :: after /\
        forall c : string, In c before -> ~ usable c
  | inl err =>
      err = ImportFlow.ErrorObj no_account_message /\
      forall c : string,
        In c [RUNTIME_SIMULATION_SOURCE; DEV_ADMIN_ADDRESS;
              DEV_PLAYER2_ADDRESS; DEV_PLAYER1_ADDRESS] ->
        ~ usable c
  end.
Proof.
  cbv zeta. unfold getSimulationSourceAddress.
  set (all := [RUNTIME_SIMULATION_SOURCE; DEV_ADMIN_ADDRESS;
               DEV_PLAYER2_ADDRESS; DEV_PLAYER1_ADDRESS]).
  pose proof (first_usable_spec (List.filter Boolean avoidAddresses)
                (List.filter Boolean all)) as Hspec.
  assert (Havoid : forall c : string,
            c <> ""%string ->
            In c (List.filter Boolean avoidAddresses) <-> In c avoidAddresses).
  { intros c Hc. rewrite filter_In, Boolean_true. tauto. }
  destruct (first_usable isValidEd25519PublicKey
              (List.filter Boolean avoidAddresses) (List.filter Boolean all))
    as [addr|].
  - destruct Hspec as (before & after & Hsplit & Hno & Hvalid & Hbefore).
    assert (Hin : In addr (List.filter Boolean all))
      by (rewrite Hsplit; apply in_elt).
    apply filter_In in Hin. destruct Hin as [_ Hset].
    apply Boolean_true in Hset.
    split; [split; [exact Hset|]; split; [|exact Hvalid]|].
    { intros Hin. apply Hno. now apply Havoid. }
    clear Hno Hvalid Hset. revert before Hsplit Hbefore.
    generalize all. clear all. intros l.
    induction l as [|c l IH]; intros before Hsplit Hbefore.
    { destruct before; discriminate. }
    cbn [List.filter] in Hsplit. destruct (Boolean c) eqn:Hc.
    + destruct before as [|b before]; cbn in Hsplit.
      * injection Hsplit as -> _. exists [], l. split; [reflexivity|].
        now intros c' [].
      * injection Hsplit as <- Hsplit.
        destruct (IH before Hsplit) as (before' & after' & -> & Hnot).
        { intros c' Hin. apply Hbefore. now right. }
        exists (c :: before'), after'. split; [reflexivity|].
        intros c' [<-|Hin]; [|now apply Hnot].
        intros (Hset & Hfree & Hvalid).
        destruct (Hbefore c) as [Hin|Hbad]; [now left| |congruence].
        apply Hfree. now apply Havoid.
    + destruct (IH before Hsplit Hbefore) as (before' & after' & -> & Hnot).
      exists (c :: before'), after'. split; [reflexivity|].
      intros c' [<-|Hin]; [|now apply Hnot].
      intros (Hset & _). apply Boolean_true in Hset. congruence.
  - split; [reflexivity|]. intros c Hin (Hset & Hfree & Hvalid).
    destruct (Hspec c) as [Hav|Hbad]; [|now apply Hfree, Havoid|congruence].
    apply filter_In. split; [exact Hin | now apply Boolean_true].
Qed.

End SimulationFacts.

Section FundingFacts.
Import Simulation.

Variable isValidEd25519PublicKey : string -> bool.
Variable RUNTIME_SIMULATION_SOURCE : string.
Variable DEV_ADMIN_ADDRESS : string.
Variable DEV_PLAYER2_ADDRESS : string.
Variable DEV_PLAYER1_ADDRESS : string.
Variable network : Network.
Variable horizon : nat -> ImportFlow.Thrown + Z.
Variable friendbot : ImportFlow.Thrown + Z.

Lemma horizonAccountExists_true (response : ImportFlow.Thrown + Z) :
  horizonAccountExists response = inr true ->
  exists status : Z, response = inr status /\ ok status = true.
Proof.
  unfold horizonAccountExists. destruct response as [err|status];
    [discriminate|].
  destruct (status =? 404); [discriminate|].
  destruct (ok status) eqn:Hok; [|discriminate]. intros _. now exists status.
Qed.

Lemma horizonAccountExists_false (response : ImportFlow.Thrown + Z) :
  horizonAccountExists response = inr false -> response = inr 404.
Proof.
  unfold horizonAccountExists. destruct response as [err|status];
    [discriminate|].
  destruct (Z.eqb_spec status 404) as [->|_]; [reflexivity|].
  destruct (ok status); discriminate.
Qed.

Lemma index_loop_found (address : string) (left asked : nat)
    (requests : list Request) :
  index_loop horizon address left asked = (inr tt, requests) ->
  exists (n : nat) (status : Z),
    (asked <= n < asked + left)%nat /\
    horizon n = inr status /\ ok status = true /\
    (forall k : nat, (asked <= k < n)%nat -> horizon k = inr 404) /\
    requests = concat (repeat [Sleep 750; Horizon address] (S (n - asked))).
Proof.
  revert asked requests. induction left as [|left IH];
    intros asked requests; cbn [index_loop]; [discriminate|].
  destruct (horizonAccountExists (horizon asked)) as [err|[|]] eqn:Hexists;
    [discriminate| |].
  - intros [= <-]. apply horizonAccountExists_true in Hexists.
    destruct Hexists as (status & Hstatus & Hok).
    exists asked, status. split; [lia|]. split; [exact Hstatus|].
    split; [exact Hok|]. split; [intros k Hk; lia|].
    now rewrite Nat.sub_diag.
  - apply horizonAccountExists_false in Hexists.
    destruct (index_loop horizon address left (S asked))
      as [outcome later] eqn:Hloop.
    intros [= -> <-].
    destruct (IH (S asked) later Hloop)
      as (n & status & Hn & Hstatus & Hok & Hbefore & ->).
    exists n, status. split; [lia|]. split; [exact Hstatus|].
    split; [exact Hok|]. split.
    + intros k Hk. destruct (decide (k = asked)) as [->|Hne];
        [exact Hexists | apply Hbefore; lia].
    + replace (n - asked)%nat with (S (n - S asked)) by lia. reflexivity.
Qed.

(** X16. An address that [getFundedSimulationSourceAddress] returns is
    the one [getSimulationSourceAddress] chose, and on testnet Horizon
    has confirmed that its account exists: the last of at most six
    requests to Horizon answered with a success status, all earlier ones
    with 404, and Friendbot was asked once, successfully, exactly when
    the first request was a 404.  On mainnet nothing is requested. *)
Theorem funded_source_was_seen_on_horizon (avoidAddresses : list string)
    (addr : string) (requests : list Request) :
  getFundedSimulationSourceAddress isValidEd25519PublicKey
    RUNTIME_SIMULATION_SOURCE DEV_ADMIN_ADDRESS DEV_PLAYER2_ADDRESS
    DEV_PLAYER1_ADDRESS network horizon friendbot avoidAddresses
  = (inr addr, requests) ->
  getSimulationSourceAddress isValidEd25519PublicKey
    RUNTIME_SIMULATION_SOURCE DEV_ADMIN_ADDRESS DEV_PLAYER2_ADDRESS
    DEV_PLAYER1_ADDRESS avoidAddresses = inr addr /\
  match network with
  | mainnet => requests = []
  | testnet =>
      exists (n : nat) (status : Z),
        (n < 6)%nat /\
        horizon n = inr status /\ ok status = true /\
        (forall k : nat, (k < n)%nat -> horizon k = inr 404) /\
        requests
        = Horizon addr
            :: match n with
               | O => []
               | S _ =>
                   Friendbot addr
                     :: concat (repeat [Sleep 750; Horizon addr] n)
               end /\
        (n <> 0%nat ->
         exists funded : Z, friendbot = inr funded /\ ok funded = true)
  end.
Proof.
  unfold getFundedSimulationSourceAddress.
  destruct (getSimulationSourceAddress isValidEd25519PublicKey
              RUNTIME_SIMULATION_SOURCE DEV_ADMIN_ADDRESS DEV_PLAYER2_ADDRESS
              DEV_PLAYER1_ADDRESS avoidAddresses) as [err|chosen];
    [discriminate|].
  unfold ensureTestnetAccountFunded. destruct network.
  2: { intros [= <- <-]. now split. }
  destruct (horizonAccountExists (horizon 0%nat)) as [err|[|]] eqn:Hfirst.
  - discriminate.
  - intros [= <- <-]. split; [reflexivity|].
    apply horizonAccountExists_true in Hfirst.
    destruct Hfirst as (status & Hstatus & Hok).
    exists 0%nat, status. split; [lia|]. split; [exact Hstatus|].
    split; [exact Hok|]. split; [intros k Hk; lia|].
    split; [reflexivity | congruence].
  - apply horizonAccountExists_false in Hfirst.
    destruct friendbot as [err|funded]; [discriminate|].
    destruct (ok funded) eqn:Hfunded; cbn [negb]; [|discriminate].
    destruct (index_loop horizon chosen 5 1) as [[err|[]] later] eqn:Hloop;
      [discriminate|].
    intros [= <- <-]. split; [reflexivity|].
    destruct (index_loop_found chosen 5 1 later Hloop)
      as (n & status & Hn & Hstatus & Hok & Hbefore & ->).
    exists n, status. split; [lia|]. split; [exact Hstatus|].
    split; [exact Hok|]. split.
    + intros k Hk. destruct k as [|k]; [exact Hfirst | apply Hbefore; lia].
    + destruct n as [|n]; [lia|]. split.
      * replace (S n - 1)%nat with n by lia. reflexivity.
      * intros _. now exists funded.
Qed.

End FundingFacts.

Lemma funded_source_was_seen_on_horizon_witness :
  Simulation.getSimulationSourceAddress (fun _ => true) "" "GADMIN" "GP2"
    "GP1" ["GADMIN"; "GP1"]%string
  = inr "GP2"%string.
Proof.
  exact (proj1 (funded_source_was_seen_on_horizon (fun _ => true) "" "GADMIN"
                  "GP2" "GP1" Simulation.testnet
                  (fun n => inr (if (n <? 2)%nat then 404 else 200))
                  (inr 200) ["GADMIN"; "GP1"]%string "GP2"
                  [Simulation.Horizon "GP2"; Simulation.Friendbot "GP2";
                   Simulation.Sleep 750; Simulation.Horizon "GP2";
                   Simulation.Sleep 750; Simulation.Horizon "GP2"]
                  eq_refl)).
Defined.

(** ** Routes and query strings *)

Section RoutingFacts.
Import Routing.

Lemma prefix_app (p x : string) : String.prefix p (p ++ x) = true.
Proof.
  induction p as [|c p IH]; simpl; [now destruct x|].
  destruct (ascii_dec c c) as [_|Hne]; [exact IH | now contradiction Hne].
Qed.

Lemma prefix_refl (p : string) : String.prefix p p = true.
Proof.
  induction p as [|c p IH]; simpl; [reflexivity|].
  destruct (ascii_dec c c) as [_|Hne]; [exact IH | now contradiction Hne].
Qed.

Lemma slice_app (p x : string) : slice (String.length p) (p ++ x) = x.
Proof. induction p as [|c p IH]; simpl; [now destruct x | exact IH]. Qed.

Lemma first_segment_page (page : Page) :
  first_segment ("/" ++ page_name page) = page_name page.
Proof. now destruct page. Qed.

(** X17. Paths and pages round-trip: whatever the base URL, the query
    and the fragment, the path [buildPath] gives for a page resolves
    back to that page whenever [parseHashRoute] finds no route in the
    fragment (it is empty, a lone ['#'], or names neither 'docs' nor
    'games', as ['#top'] or ['#/other']); and when it finds one, the
    page of the fragment is the one resolved, whatever the path. *)
Theorem resolvePageFromLocation_buildPath (baseUrl : string) (page : Page)
    (query fragment : string) :
  let location := mkLocation (buildPath baseUrl page) query fragment in
  (parseHashRoute (Some location) = None ->
   resolvePageFromLocation baseUrl (Some location) = page) /\
  (forall (routed : Page) (routedSearch : string),
      parseHashRoute (Some location) = Some (routed, routedSearch) ->
      resolvePageFromLocation baseUrl (Some location) = routed) /\
  parseHashRoute (Some (mkLocation (buildPath baseUrl page) query "")) = None /\
  parseHashRoute (Some (mkLocation (buildPath baseUrl page) query "#")) = None /\
  parseHashRoute (Some (mkLocation (buildPath baseUrl page) query "#top"))
  = None /\
  parseHashRoute (Some (mkLocation (buildPath baseUrl page) query "#/other"))
  = None.
Proof.
  cbv zeta. split; [|split; [|now repeat split]].
  - intros Hnone. unfold resolvePageFromLocation. rewrite Hnone.
    cbn [pathname].
    assert (Hpath : buildPath baseUrl page
                    = (normalizedBase baseUrl ++ "/"
                         ++ match page with
                            | home => ""
                            | _ => page_name page
                            end)%string).
    { unfold buildPath, rootPath. destruct page; try reflexivity.
      now destruct (normalizedBase baseUrl). }
    rewrite Hpath.
    destruct (String.eqb (normalizedBase baseUrl) "") eqn:Hbase.
    + apply String.eqb_eq in Hbase. rewrite Hbase. now destruct page.
    + rewrite prefix_app. cbn [negb andb]. rewrite slice_app.
      now destruct page.
  - intros routed routedSearch Hroute. unfold resolvePageFromLocation.
    now rewrite Hroute.
Qed.

Lemma split_cons (c : ascii) (s : string) :
  exists (piece : string) (pieces : list string),
    split c s = piece :: pieces /\
    match pieces with
    | [] => s = piece /\ indexOf c s = None
    | _ :: _ =>
        exists rest : string,
          s = (piece ++ String c rest)%string /\
          split c rest = pieces /\
          indexOf c s = Some (String.length piece)
    end.
Proof.
  induction s as [|c' s IH]; cbn.
  - exists ""%string, []. now repeat split.
  - destruct (Ascii.eqb c' c) eqn:Hc.
    + apply Ascii.eqb_eq in Hc. subst c'.
      destruct IH as (piece & pieces & Hsplit & _).
      exists ""%string, (split c s). split; [reflexivity|].
      rewrite Hsplit. exists s. now repeat split.
    + destruct IH as (piece & pieces & Hsplit & Hrest). rewrite Hsplit.
      exists (String c' piece), pieces. split; [reflexivity|].
      destruct pieces as [|next pieces].
      * destruct Hrest as [-> Hnone]. now rewrite Hnone.
      * destruct Hrest as (rest & -> & Hpieces & Hindex).
        exists rest. rewrite Hindex. now repeat split.
Qed.

(** X18. A query carried in the hash (['#/games?game=...']) is read the
    same way by the router and by the games: when [location.search] is
    empty and [parseHashRoute] finds a route with a query, that query is
    the beginning of what [getLocationSearch] returns, and all of it
    when the hash holds a single ['?']. *)
Theorem hash_query_agrees (path raw : string) (page : Page) (query : string) :
  parseHashRoute (Some (mkLocation path "" (String "#" raw)))
  = Some (page, query) ->
  query <> ""%string ->
  String.prefix query
    (getLocationSearch (Some (mkLocation path "" (String "#" raw)))) = true /\
  (length (split "?" raw) = 2%nat ->
   getLocationSearch (Some (mkLocation path "" (String "#" raw))) = query).
Proof.
  unfold parseHashRoute, getLocationSearch.
  cbn [hash search remove_first Ascii.eqb Bool.eqb String.eqb negb indexOf].
  destruct (String.eqb raw "") eqn:Hraw; [discriminate|].
  destruct (split_cons "?" raw) as (piece & pieces & Hsplit & Hrest).
  rewrite Hsplit. cbn [nth].
  destruct pieces as [|queryPart pieces].
  { cbn [nth String.eqb].
    destruct (String.eqb (first_segment piece) "docs");
      [intros [= _ <-]; congruence|].
    destruct (String.eqb (first_segment piece) "games");
      [intros [= _ <-]; congruence | discriminate]. }
  cbn [nth]. destruct Hrest as (rest & -> & Hpieces & Hindex).
  rewrite Hindex. cbn [slice]. rewrite slice_app.
  intros Hroute Hquery.
  assert (Hq : query = ("?" ++ queryPart)%string).
  { destruct (String.eqb queryPart "");
      destruct (String.eqb (first_segment piece) "docs");
      try (injection Hroute as _ <-; congruence);
      destruct (String.eqb (first_segment piece) "games");
      try discriminate; injection Hroute as _ <-; congruence. }
  subst query. clear Hroute Hquery.
  destruct (split_cons "?" rest) as (piece' & pieces' & Hsplit' & Hrest').
  rewrite Hsplit' in Hpieces. injection Hpieces as -> ->.
  split.
  - destruct pieces as [|next pieces].
    + destruct Hrest' as [-> _]. apply prefix_refl.
    + destruct Hrest' as (rest' & -> & _).
      change (String.prefix (String "?" queryPart)
                (String "?" queryPart ++ String "?" rest') = true).
      apply prefix_app.
  - cbn [length]. intros Hlen.
    destruct pieces as [|next pieces]; [|discriminate].
    now destruct Hrest' as [-> _].
Qed.

End RoutingFacts.

Lemma resolvePageFromLocation_buildPath_witness :
  Routing.resolvePageFromLocation "/app/"
    (Some (Routing.mkLocation "/app/docs" "?x=1" "#top"))
  = Routing.docs /\
  Routing.resolvePageFromLocation "/app/"
    (Some (Routing.mkLocation "/app/docs" "?x=1" "#/games?game=dice"))
  = Routing.games.
Proof.
  split.
  - exact (proj1 (resolvePageFromLocation_buildPath "/app/" Routing.docs
                    "?x=1" "#top") eq_refl).
  - exact (proj1 (proj2 (resolvePageFromLocation_buildPath "/app/"
                           Routing.docs "?x=1" "#/games?game=dice"))
             Routing.games "?game=dice" eq_refl).
Defined.

Lemma hash_query_agrees_witness :
  Routing.getLocationSearch
    (Some (Routing.mkLocation "/" "" "#/games?game=number-guess&auth=AAAA"))
  = "?game=number-guess&auth=AAAA"%string.
Proof.
  apply (hash_query_agrees "/" "/games?game=number-guess&auth=AAAA"
           Routing.games "?game=number-guess&auth=AAAA").
  - reflexivity.
  - discriminate.
  - reflexivity.
Defined.

(** ** The dev wallets *)

Section DevWalletFacts.
Import DevWallet.

Variable Keypair : Type.
Variable secret1 secret2 secret3 : option string.
Variable fromSecret : string -> ImportFlow.Thrown + Keypair.
Variable publicKey : Keypair -> string.

#[local] Abbreviation secrets := (secrets secret1 secret2 secret3).
#[local] Abbreviation isPlayerAvailable := (isPlayerAvailable secret1 secret2 secret3).
#[local] Abbreviation isDevModeAvailable := (isDevModeAvailable secret1 secret2).
#[local] Abbreviation initPlayer := (initPlayer Keypair secret1 secret2 secret3 fromSecret).
#[local] Abbreviation getPublicKey := (getPublicKey Keypair publicKey).
#[local] Abbreviation getSigner := (getSigner Keypair).
#[local] Abbreviation reachable :=
  (reachable Keypair secret1 secret2 secret3 fromSecret).
#[local] Abbreviation quickstart_wallets :=
  (quickstart_wallets Keypair secret1 secret2 secret3 fromSecret publicKey).
#[local] Abbreviation take_wallet :=
  (take_wallet Keypair secret1 secret2 secret3 fromSecret publicKey).

Lemma playerKey_inj (n m : Player) : playerKey n = playerKey m -> n = m.
Proof. destruct n, m; cbn; intros E; try reflexivity; discriminate. Qed.

(** What [initPlayer] does, by the player's secret. *)
Lemma initPlayer_cases (n : Player) (service : State Keypair) :
  (isPlayerAvailable n = false /\
   initPlayer n service
   = (inl (ImportFlow.ErrorObj (not_available_message n)), service)) \/
  (exists secret : string,
     isPlayerAvailable n = true /\ secrets n = Some secret /\
     match fromSecret secret with
     | inl err => initPlayer n service = (inl err, service)
     | inr keypair =>
         initPlayer n service
         = (inr tt,
            mkState (Some n) (<[playerKey n := keypair]> (keypairs service)))
     end).
Proof.
  unfold DevWallet.initPlayer, DevWallet.isPlayerAvailable.
  destruct (secrets n) as [secret|]; [|now left].
  destruct (String.eqb secret "") eqn:Hempty; [now left|].
  destruct (String.eqb secret "NOT_AVAILABLE") eqn:Hna; [now left|].
  right. exists secret. cbn. split; [reflexivity|]. split; [reflexivity|].
  now destruct (fromSecret secret).
Qed.

(** Every keypair the service holds was made from the secret of its
    player, and the current player has one. *)
Lemma reachable_keypairs (service : State Keypair) :
  reachable service ->
  (forall (n : Player) (keypair : Keypair),
     keypairs service !! playerKey n = Some keypair ->
     exists secret : string,
       isPlayerAvailable n = true /\ secrets n = Some secret /\
       fromSecret secret = inr keypair) /\
  (forall current : Player,
     currentPlayer service = Some current ->
     exists keypair : Keypair,
       keypairs service !! playerKey current = Some keypair).
Proof.
  induction 1 as [|n service Hreach [IHkeys IHcurrent]|service _ _].
  - split; [intros n keypair H | intros current H]; discriminate.
  - destruct (initPlayer_cases n service)
      as [[_ ->]|(secret & Havailable & Hsecret & Hmade)];
      [now split|].
    destruct (fromSecret secret) as [err|keypair] eqn:Hfrom;
      rewrite Hmade; [now split|].
    cbn [snd keypairs currentPlayer]. split.
    + intros m keypair' Hm.
      destruct (decide (playerKey m = playerKey n)) as [E|E].
      * apply playerKey_inj in E. subst m.
        rewrite lookup_insert_eq in Hm. injection Hm as <-.
        now exists secret.
      * rewrite lookup_insert_ne in Hm by congruence. now apply IHkeys.
    + intros current [= <-]. exists keypair. apply lookup_insert_eq.
  - split; [intros n keypair H | intros current H]; discriminate.
Qed.

(** X19. In every state the dev wallet service can reach (by
    [initPlayer], [switchPlayer] and [disconnect]), either no player is
    current and [getPublicKey] and [getSigner] throw 'No player
    initialized', or the current player's secret is available and both
    answer with the keypair made from it: [getPublicKey] never throws
    'Player n not initialized'. *)
Theorem reachable_wallet_answers (service : State Keypair) :
  reachable service ->
  match currentPlayer service with
  | None =>
      getPublicKey service = inl (ImportFlow.ErrorObj "No player initialized") /\
      getSigner service = inl (ImportFlow.ErrorObj "No player initialized")
  | Some current =>
      exists (secret : string) (keypair : Keypair),
        isPlayerAvailable current = true /\
        secrets current = Some secret /\
        fromSecret secret = inr keypair /\
        getPublicKey service = inr (publicKey keypair) /\
        getSigner service = inr keypair
  end.
Proof.
  intros Hreach. destruct (reachable_keypairs service Hreach) as [Hkeys Hcur].
  unfold DevWallet.getPublicKey, DevWallet.getSigner.
  destruct (currentPlayer service) as [current|]; [|now split].
  destruct (Hcur current eq_refl) as [keypair Hkeypair].
  destruct (Hkeys current keypair Hkeypair) as (secret & Hav & Hsec & Hfrom).
  exists secret, keypair. rewrite Hkeypair. now repeat split.
Qed.

(** X20. The quickstart borrows the service for players 1 and 2 and
    gives it back: whether collecting the two wallets succeeds or
    throws, the player that was current before is current again after;
    when none was current and both wallets are collected, the service
    is left on player 2. *)
Theorem quickstart_restores_player (service : State Keypair) :
  reachable service ->
  match currentPlayer service with
  | Some original =>
      currentPlayer (snd (quickstart_wallets service)) = Some original /\
      getPublicKey (snd (quickstart_wallets service)) = getPublicKey service
  | None =>
      forall wallets : (string * Keypair) * (string * Keypair),
        fst (quickstart_wallets service) = inr wallets ->
        currentPlayer (snd (quickstart_wallets service)) = Some player_2
  end.
Proof.
  intros Hreach. unfold DevWallet.quickstart_wallets, getCurrentPlayer.
  assert (Hstep : forall (n : Player) (s : State Keypair),
            snd (take_wallet n s) = snd (initPlayer n s)).
  { intros n s. unfold DevWallet.take_wallet.
    destruct (initPlayer n s) as [[err|[]] s1]; [reflexivity|].
    destruct (getPublicKey s1); [reflexivity|].
    now destruct (getSigner s1). }
  assert (Hcollect :
    forall (outcome : ImportFlow.Thrown
                      + (string * Keypair) * (string * Keypair))
           (service2 : State Keypair),
      match take_wallet player_1 service with
      | (inl err, service1) => (inl err, service1)
      | (inr wallet1, service1) =>
          match take_wallet player_2 service1 with
          | (inl err, service2) => (inl err, service2)
          | (inr wallet2, service2) => (inr (wallet1, wallet2), service2)
          end
      end = (outcome, service2) ->
      reachable service2 /\
      (forall wallets : (string * Keypair) * (string * Keypair),
         outcome = inr wallets -> currentPlayer service2 = Some player_2)).
  { intros outcome service2.
    pose proof (Hstep player_1 service) as H1.
    destruct (take_wallet player_1 service) as [[err|wallet1] service1];
      cbn [snd] in H1.
    { intros [= <- <-]. split; [rewrite H1; now constructor | discriminate]. }
    assert (Hreach1 : reachable service1) by (rewrite H1; now constructor).
    pose proof (Hstep player_2 service1) as H2.
    destruct (take_wallet player_2 service1) as [[err|wallet2] service2'] eqn:Htake;
      cbn [snd] in H2; intros [= <- <-];
      (split; [rewrite H2; now constructor|]); [discriminate|].
    intros _ _. rewrite H2.
    unfold DevWallet.take_wallet in Htake.
    destruct (initPlayer_cases player_2 service1)
      as [[_ E]|(secret & _ & _ & Hmade)].
    - rewrite E in Htake. discriminate.
    - destruct (fromSecret secret); rewrite Hmade in *; [discriminate|].
      reflexivity. }
  destruct (match take_wallet player_1 service with
            | (inl err, service1) => (inl err, service1)
            | (inr wallet1, service1) =>
                match take_wallet player_2 service1 with
                | (inl err, service2) => (inl err, service2)
                | (inr wallet2, service2) => (inr (wallet1, wallet2), service2)
                end
            end) as [outcome service2].
  destruct (Hcollect outcome service2 eq_refl) as [Hafter Hleft].
  destruct (currentPlayer service) as [original|] eqn:Hcurrent.
  - destruct (reachable_keypairs service Hreach) as [Hkeys Hcur].
    destruct (Hcur original Hcurrent) as [keypair Hkeypair].
    destruct (Hkeys original keypair Hkeypair) as (secret & Hav & Hsec & Hfrom).
    assert (Hpk : getPublicKey service = inr (publicKey keypair)).
    { unfold DevWallet.getPublicKey. now rewrite Hcurrent, Hkeypair. }
    destruct (initPlayer_cases original service2)
      as [[Hno _]|(secret' & _ & Hsec' & Hmade)]; [congruence|].
    rewrite Hsec in Hsec'. injection Hsec' as <-. rewrite Hfrom in Hmade.
    rewrite Hmade. cbn [snd currentPlayer]. split; [reflexivity|].
    rewrite Hpk. unfold DevWallet.getPublicKey. cbn [currentPlayer keypairs].
    now rewrite lookup_insert_eq.
  - cbn [fst snd]. exact Hleft.
Qed.

(** X21. [isDevModeAvailable] follows from the availability of players
    1 and 2 and says less: it also holds when a secret is the literal
    'NOT_AVAILABLE', in which case [initPlayer] refuses that player and
    leaves the service as it was. *)
Theorem availability_checks (n : Player) (service : State Keypair) :
  (isPlayerAvailable player_1 = true -> isPlayerAvailable player_2 = true ->
   isDevModeAvailable = true) /\
  (isDevModeAvailable = true ->
   (isPlayerAvailable player_1 = false <-> secret1 = Some "NOT_AVAILABLE"%string) /\
   (isPlayerAvailable player_2 = false <-> secret2 = Some "NOT_AVAILABLE"%string)) /\
  (isPlayerAvailable n = false ->
   initPlayer n service
   = (inl (ImportFlow.ErrorObj (not_available_message n)), service)).
Proof.
  unfold DevWallet.isDevModeAvailable, DevWallet.isPlayerAvailable, truthy.
  cbn [DevWallet.secrets].
  assert (Hlit : forall s : string,
            negb (String.eqb s "") = true ->
            (negb (String.eqb s "") && negb (String.eqb s "NOT_AVAILABLE")
             = false <-> Some s = Some "NOT_AVAILABLE"%string)).
  { intros s Hs. rewrite Hs. cbn. rewrite negb_false_iff, String.eqb_eq.
    split; [now intros -> | now intros [= ->]]. }
  split; [|split].
  - destruct secret1 as [s1|], secret2 as [s2|]; try discriminate.
    intros H1 H2. apply andb_true_iff in H1, H2.
    apply andb_true_iff. split; [apply H1 | apply H2].
  - destruct secret1 as [s1|]; [|discriminate].
    destruct secret2 as [s2|]; [|now rewrite andb_false_r].
    intros H. apply andb_true_iff in H. destruct H as [H1 H2].
    split; now apply Hlit.
  - intros Hno.
    destruct (initPlayer_cases n service) as [[_ E]|(secret & Hyes & _)];
      [exact E|].
    unfold DevWallet.isPlayerAvailable in Hyes. congruence.
Qed.

End DevWalletFacts.

Lemma reachable_wallet_answers_witness :
  exists (secret : string) (keypair : string),
    DevWallet.isPlayerAvailable (Some "SA") (Some "SB") None
      DevWallet.player_1 = true /\
    DevWallet.secrets (Some "SA") (Some "SB") None DevWallet.player_1
    = Some secret /\
    @inr ImportFlow.Thrown string ("key of " ++ secret)%string = inr keypair /\
    DevWallet.getPublicKey string (fun keypair => ("G" ++ keypair)%string)
      (snd (DevWallet.initPlayer string (Some "SA") (Some "SB") None
              (fun secret => inr ("key of " ++ secret)%string)
              DevWallet.player_1 DevWallet.devWalletService))
    = inr ("G" ++ keypair)%string /\
    DevWallet.getSigner string
      (snd (DevWallet.initPlayer string (Some "SA") (Some "SB") None
              (fun secret => inr ("key of " ++ secret)%string)
              DevWallet.player_1 DevWallet.devWalletService))
    = inr keypair.
Proof.
  exact (reachable_wallet_answers string (Some "SA") (Some "SB") None
           (fun secret => inr ("key of " ++ secret)%string)
           (fun keypair => ("G" ++ keypair)%string)
           (snd (DevWallet.initPlayer string (Some "SA") (Some "SB") None
                   (fun secret => inr ("key of " ++ secret)%string)
                   DevWallet.player_1 DevWallet.devWalletService))
           (DevWallet.reach_initPlayer string (Some "SA") (Some "SB") None
              (fun secret => inr ("key of " ++ secret)%string)
              DevWallet.player_1 DevWallet.devWalletService
              (DevWallet.reach_new string (Some "SA") (Some "SB") None
                 (fun secret => inr ("key of " ++ secret)%string)))).
Defined.

Lemma quickstart_restores_player_witness :
  DevWallet.currentPlayer
    (snd (DevWallet.quickstart_wallets string (Some "SA") (Some "SB")
            (Some "SC") (fun secret => inr ("key of " ++ secret)%string)
            (fun keypair => ("G" ++ keypair)%string)
            (snd (DevWallet.initPlayer string (Some "SA") (Some "SB")
                    (Some "SC")
                    (fun secret => inr ("key of " ++ secret)%string)
                    DevWallet.player_3 DevWallet.devWalletService))))
  = Some DevWallet.player_3.
Proof.
  exact (proj1
           (quickstart_restores_player string (Some "SA") (Some "SB")
              (Some "SC") (fun secret => inr ("key of " ++ secret)%string)
              (fun keypair => ("G" ++ keypair)%string)
              (snd (DevWallet.initPlayer string (Some "SA") (Some "SB")
                      (Some "SC")
                      (fun secret => inr ("key of " ++ secret)%string)
                      DevWallet.player_3 DevWallet.devWalletService))
              (DevWallet.reach_initPlayer string (Some "SA") (Some "SB")
                 (Some "SC") (fun secret => inr ("key of " ++ secret)%string)
                 DevWallet.player_3 DevWallet.devWalletService
                 (DevWallet.reach_new string (Some "SA") (Some "SB")
                    (Some "SC")
                    (fun secret => inr ("key of " ++ secret)%string))))).
Defined.

(** ** Whose turn it is *)

Section TableFacts.
Import Ruleta Table.

Lemma findIndex_found (addr : Address) (players : list Jugador) :
  findIndex addr players = -1 \/
  0 <= findIndex addr players /\
  exists p : Jugador,
    players !! Z.to_nat (findIndex addr players) = Some p /\ address p = addr.
Proof.
  induction players as [|p rest IH]; cbn [findIndex]; [now left|].
  destruct (decide (address p = addr)) as [E|_].
  - right. split; [lia|]. now exists p.
  - destruct (Z.eqb_spec (findIndex addr rest) (-1)) as [_|Hne]; [now left|].
    right. destruct IH as [IH|(Hpos & q & Hq & Ha)]; [contradiction|].
    split; [lia|]. exists q. split; [|exact Ha].
    replace (Z.to_nat (findIndex addr rest + 1))
      with (S (Z.to_nat (findIndex addr rest))) by lia.
    exact Hq.
Qed.


End TableFacts.


(** ** What the import signs and submits *)

Section ImportSafety.
Import ImportFlow.

Variable ContractSigner : Type.
Variable parseAuthEntry : string -> Thrown + GameParams.
Variable getContractSigner : Thrown + ContractSigner.
Variable importAndSignAuthEntry :
  string -> Address -> Z -> ContractSigner -> Thrown + string.
Variable finalizeStartGame :
  string -> Address -> ContractSigner -> Thrown + unit.
Variable loadGameState : M unit.
Variable showNumber : Z -> string.
Variable showPoints : Z -> string.
Variable playPhase : GamePhase.
Variable userAddress : Address.
Variable ui : UI.

(** The reload of the game state, which catches its own errors, neither
    throws nor emits anything. *)
Hypothesis Hload :
  forall (now : UI) (log : list Effect),
    exists after : UI, loadGameState now log = (inr tt, after, log).

(** X23. [handleImportTransaction] never throws.  While another action
    runs (the action lock is taken, or the view is loading) it does
    nothing: the view is left as it is and nothing is signed or sent.
    Otherwise it ends with the loading flag and the action lock
    released; the wallet is asked to sign only once the pasted artifact
    has parsed, its Player 1 is not the user, the amount typed parses to
    a positive number of points and a wallet is connected; the
    transaction is submitted only if that signing succeeded, with what
    it returned; and the standings are refreshed only after the
    submission succeeded.  Any failure on the way is shown as an
    error. *)
Theorem import_effects_in_order :
  (actionLock ui || (loading ui || quickstartLoading ui) = true ->
   handleImportTransaction ContractSigner parseAuthEntry getContractSigner
     importAndSignAuthEntry finalizeStartGame loadGameState showNumber
     showPoints playPhase userAddress ui []
   = (inr tt, ui, [])) /\
  (actionLock ui || (loading ui || quickstartLoading ui) = false ->
  exists (ui' : UI) (log : list Effect),
    handleImportTransaction ContractSigner parseAuthEntry getContractSigner
      importAndSignAuthEntry finalizeStartGame loadGameState showNumber
      showPoints playPhase userAddress ui []
    = (inr tt, ui', log) /\
    loading ui' = false /\
    actionLock ui' = false /\
    ((log = [] /\ error ui' <> None) \/
     exists (p2Points : Z) (gameParams : GameParams) (signer : ContractSigner),
       Points.parsePoints (importPlayer2Points ui) = Some p2Points /\
       0 < p2Points /\
       parseAuthEntry (trim (importAuthEntryXDR ui)) = inr gameParams /\
       player1 gameParams <> userAddress /\
       getContractSigner = inr signer /\
       ((log = [SignAuthEntries (trim (importAuthEntryXDR ui)) userAddress
                  p2Points] /\
         error ui' <> None /\
         exists err : Thrown,
           importAndSignAuthEntry (trim (importAuthEntryXDR ui)) userAddress
             p2Points signer = inl err) \/
        exists fullySignedTxXDR : string,
          importAndSignAuthEntry (trim (importAuthEntryXDR ui)) userAddress
            p2Points signer = inr fullySignedTxXDR /\
          ((log = [SignAuthEntries (trim (importAuthEntryXDR ui)) userAddress
                     p2Points;
                   SubmitTransaction fullySignedTxXDR userAddress] /\
            error ui' <> None /\
            exists err : Thrown,
              finalizeStartGame fullySignedTxXDR userAddress signer = inl err) \/
           (log = [SignAuthEntries (trim (importAuthEntryXDR ui)) userAddress
                     p2Points;
                   SubmitTransaction fullySignedTxXDR userAddress;
                   StandingsRefresh] /\
            finalizeStartGame fullySignedTxXDR userAddress signer = inr tt))))).
Proof.
  unfold handleImportTransaction, runAction.
  split; [now intros ->|]. intros Hfree. rewrite Hfree.
  unfold try_catch_finally, import_steps, parsePlayer2Points.
  unfold mbind, handler_bind, bind, set, when, throw, lift, emit,
    ImportFlow.ret.
  cbn [setLoading setError setSuccess setActionLock importAuthEntryXDR
       importPlayer2Points].
  destruct (blank (importAuthEntryXDR ui)).
  { eexists _, _. split; [reflexivity|]. cbn.
    split; [reflexivity|]. split; [reflexivity|]. left. now split. }
  destruct (blank (importPlayer2Points ui)).
  { eexists _, _. split; [reflexivity|]. cbn.
    split; [reflexivity|]. split; [reflexivity|]. left. now split. }
  destruct (Points.parsePoints (importPlayer2Points ui)) as [p2Points|].
  2: { eexists _, _. split; [reflexivity|]. cbn.
       split; [reflexivity|]. split; [reflexivity|]. left. now split. }
  destruct (Z.leb_spec p2Points 0) as [_|Hpos].
  { eexists _, _. split; [reflexivity|]. cbn.
    split; [reflexivity|]. split; [reflexivity|]. left. now split. }
  destruct (parseAuthEntry (trim (importAuthEntryXDR ui)))
    as [err|gameParams] eqn:Hparsed.
  { eexists _, _. split; [reflexivity|]. cbn.
    split; [reflexivity|]. split; [reflexivity|]. left. now split. }
  destruct (bool_decide (player1 gameParams = userAddress)) eqn:Hself.
  { eexists _, _. split; [reflexivity|]. cbn.
    split; [reflexivity|]. split; [reflexivity|]. left. now split. }
  apply bool_decide_eq_false in Hself.
  rewrite bool_decide_eq_false_2 by congruence.
  destruct getContractSigner as [err|signer] eqn:Hsigner.
  { eexists _, _. split; [reflexivity|]. cbn.
    split; [reflexivity|]. split; [reflexivity|]. left. now split. }
  cbn [app].
  destruct (importAndSignAuthEntry (trim (importAuthEntryXDR ui)) userAddress
              p2Points signer) as [err|fullySignedTxXDR] eqn:Hsign.
  { eexists _, _. split; [reflexivity|]. cbn.
    split; [reflexivity|]. split; [reflexivity|]. right.
    exists p2Points, gameParams, signer. repeat (split; [first [reflexivity | assumption | lia]|]).
    left. split; [reflexivity|].
    split; [discriminate | exists err; first [reflexivity | assumption]]. }
  cbn [app].
  destruct (finalizeStartGame fullySignedTxXDR userAddress signer)
    as [err|[]] eqn:Hfinal.
  { eexists _, _. split; [reflexivity|]. cbn.
    split; [reflexivity|]. split; [reflexivity|]. right.
    exists p2Points, gameParams, signer. repeat (split; [first [reflexivity | assumption | lia]|]).
    right. exists fullySignedTxXDR.
    split; [first [reflexivity | assumption]|]. left. split; [reflexivity|].
    split; [discriminate | exists err; first [reflexivity | assumption]]. }
  match goal with
  | |- context [loadGameState ?now ?log] =>
      destruct (Hload now log) as [after Hafter]; rewrite Hafter
  end.
  cbn [app]. eexists _, _. split; [reflexivity|]. cbn.
  split; [reflexivity|]. split; [reflexivity|]. right.
  exists p2Points, gameParams, signer. repeat (split; [first [reflexivity | assumption | lia]|]).
  right. exists fullySignedTxXDR.
  split; [first [reflexivity | assumption]|]. right. split; first [reflexivity | assumption].
Qed.

End ImportSafety.

Lemma import_effects_in_order_witness :
  exists (ui' : ImportFlow.UI) (log : list ImportFlow.Effect),
    Demo.import_as "GOTHER" = (inr tt, ui', log) /\
    ImportFlow.loading ui' = false.
Proof.
  destruct (import_effects_in_order unit Demo.parseAuthEntry Demo.connected
              Demo.importAndSignAuthEntry Demo.finalizeStartGame
              Demo.loadGameState Demo.show Demo.show ImportFlow.phase_guess
              "GOTHER" Demo.form
              (fun now log => ex_intro _ now eq_refl))
    as [_ Hruns].
  destruct (Hruns eq_refl) as (ui' & log & Hrun & Hloading & _).
  exists ui', log. split; [exact Hrun | exact Hloading].
Defined.

(** ** What an amount may contain *)

Section PointsInput.
Import Digits Points.

Lemma list_ascii_of_string_app (a b : string) :
  list_ascii_of_string (a ++ b)
  = list_ascii_of_string a ++ list_ascii_of_string b.
Proof. induction a as [|c a IH]; simpl; [reflexivity | now rewrite IH]. Qed.

(** X24. [parsePoints] reads only the digits and dots of its input:
    any other character, wherever it stands, changes nothing.  A minus
    sign is dropped (a negative amount is read as positive), and so are
    thousands separators, blanks and the 'e' of an exponent. *)
Theorem parsePoints_ignores_other_characters (before after : string)
    (c : ascii) :
  digit_or_dot c = false ->
  parsePoints (before ++ String c after) = parsePoints (before ++ after).
Proof.
  intros Hc.
  assert (Hclean : clean (list_ascii_of_string (before ++ String c after))
                   = clean (list_ascii_of_string (before ++ after))).
  { rewrite !list_ascii_of_string_app. unfold clean.
    rewrite !List.filter_app. cbn [list_ascii_of_string List.filter].
    now rewrite Hc. }
  unfold parsePoints, parsePoints_chars, parsePoints_try. cbv zeta.
  now rewrite Hclean.
Qed.

End PointsInput.

Lemma parsePoints_ignores_other_characters_witness :
  Points.parsePoints "-5" = Points.parsePoints "5".
Proof.
  exact (parsePoints_ignores_other_characters "" "5" "-" eq_refl).
Defined.

(** ** Contract ids: the environment key of a crate and back *)

Section ConstantsFacts.
Import Constants.

Lemma list_of_map_chars (f : ascii -> ascii) (s : string) :
  list_ascii_of_string (map_chars f s) = map f (list_ascii_of_string s).
Proof. apply list_ascii_of_string_of_list_ascii. Qed.

Lemma list_of_append (a b : string) :
  list_ascii_of_string (a ++ b)
  = list_ascii_of_string a ++ list_ascii_of_string b.
Proof. induction a as [|c a IH]; simpl; [reflexivity | now rewrite IH]. Qed.

Lemma length_list_of_string (s : string) :
  length (list_ascii_of_string s) = String.length s.
Proof. induction s as [|c s IH]; simpl; [reflexivity | now rewrite IH]. Qed.

Lemma list_of_string_inj (a b : string) :
  list_ascii_of_string a = list_ascii_of_string b -> a = b.
Proof.
  intros E. rewrite <- (string_of_list_ascii_of_string a),
    <- (string_of_list_ascii_of_string b). now rewrite E.
Qed.

(** A character of a crate name survives the trip to the environment
    key and back, and a character of an environment key the trip the
    other way. *)
Lemma crate_char_round_trip (c : ascii) :
  crate_char c = true ->
  (fun x => if Ascii.eqb x "_" then "-"%char else x)
    (lower_char (upper_char (if Ascii.eqb c "-" then "_"%char else c)))
  = c.
Proof.
  destruct c as [[] [] [] [] [] [] [] []]; vm_compute; intros H;
    first [reflexivity | discriminate].
Qed.

Lemma env_char_round_trip (k : ascii) :
  env_char k = true ->
  upper_char
    ((fun x => if Ascii.eqb x "-" then "_"%char else x)
       ((fun x => if Ascii.eqb x "_" then "-"%char else x) (lower_char k)))
  = k.
Proof.
  destruct k as [[] [] [] [] [] [] [] []]; vm_compute; intros H;
    first [reflexivity | discriminate].
Qed.

Lemma prefix_split (p s : string) :
  String.prefix p s = true -> exists rest : string, s = (p ++ rest)%string.
Proof.
  revert s. induction p as [|c p IH]; intros s.
  - intros _. now exists s.
  - destruct s as [|c' s]; cbn [String.prefix]; [intros H; discriminate H|].
    destruct (ascii_dec c c') as [<-|_]; [|intros H; discriminate H].
    intros H. destruct (IH s H) as [rest ->]. now exists rest.
Qed.

Lemma list_of_contractEnvKey (crateName : string) :
  list_ascii_of_string (contractEnvKey crateName)
  = list_ascii_of_string "VITE_"
    ++ map (fun c => upper_char (if Ascii.eqb c "-" then "_"%char else c))
         (list_ascii_of_string crateName)
    ++ list_ascii_of_string "_CONTRACT_ID".
Proof.
  unfold contractEnvKey, toUpperCase, replaceAll.
  rewrite !list_of_append, !list_of_map_chars, map_map. reflexivity.
Qed.

Lemma contractEnvKey_passes (crateName : string) :
  startsWith "VITE_" (contractEnvKey crateName) = true /\
  endsWith "_CONTRACT_ID" (contractEnvKey crateName) = true.
Proof.
  split; [apply prefix_app|]. unfold endsWith.
  rewrite <- !length_list_of_string, list_of_contractEnvKey.
  set (body := map _ (list_ascii_of_string crateName)).
  rewrite !length_app. cbn [length list_ascii_of_string].
  apply andb_true_iff. split; [apply Nat.leb_le; lia|].
  apply bool_decide_eq_true.
  replace (5 + (length body + 12) - 12)%nat
    with (length (list_ascii_of_string "VITE_" ++ body))%nat
    by (rewrite length_app; cbn; lia).
  rewrite app_assoc. now rewrite drop_app_length.
Qed.

(** The key of a crate decodes to the crate. *)
Lemma crateName_of_contractEnvKey (crateName : string) :
  crate_name crateName ->
  crateName_of (contractEnvKey crateName) = crateName.
Proof.
  intros Hname. apply list_of_string_inj.
  unfold crateName_of, replaceAll, toLowerCase, slice.
  rewrite !list_of_map_chars, list_ascii_of_string_of_list_ascii.
  rewrite <- length_list_of_string, list_of_contractEnvKey.
  set (body := map _ (list_ascii_of_string crateName)).
  rewrite !length_app. cbn [length list_ascii_of_string].
  replace (5 + (length body + 12) - 12 - 5)%nat with (length body) by lia.
  change (drop 5 ("V" :: "I" :: "T" :: "E" :: "_" :: ?l)%char) with l.
  cbn [app drop]. rewrite drop_0, take_app_length. subst body.
  rewrite !map_map. unfold crate_name in Hname.
  induction (list_ascii_of_string crateName) as [|c l IH]; [reflexivity|].
  cbn [forallb] in Hname. apply andb_true_iff in Hname.
  destruct Hname as [Hc Hl]. cbn [map]. f_equal; [|now apply IH].
  now apply crate_char_round_trip.
Qed.

Lemma forallb_take_drop (f : ascii -> bool) (n m : nat) (l : list ascii) :
  forallb f l = true -> forallb f (take n (drop m l)) = true.
Proof.
  intros H. apply forallb_forall. intros x Hx.
  rewrite forallb_forall in H. apply H.
  apply list_elem_of_In. apply list_elem_of_In in Hx.
  apply elem_of_take in Hx as (i & Hx & _).
  rewrite lookup_drop in Hx. now apply list_elem_of_lookup_2 in Hx.
Qed.

(** An environment key that decodes to a crate is the key of that
    crate. *)
Lemma crateName_of_inj (key crateName : string) :
  env_name key ->
  startsWith "VITE_" key = true ->
  endsWith "_CONTRACT_ID" key = true ->
  crateName_of key = crateName ->
  crateName <> ""%string ->
  key = contractEnvKey crateName.
Proof.
  intros Hname Hstart Hend Hdecode Hnonempty.
  apply list_of_string_inj. rewrite list_of_contractEnvKey.
  destruct (prefix_split _ _ Hstart) as [rest Hkey].
  unfold endsWith in Hend. apply andb_true_iff in Hend.
  destruct Hend as [Hlen Hsuffix].
  apply Nat.leb_le in Hlen. apply bool_decide_eq_true in Hsuffix.
  apply (f_equal list_ascii_of_string) in Hdecode.
  unfold crateName_of, replaceAll, toLowerCase, slice in Hdecode.
  rewrite !list_of_map_chars, list_ascii_of_string_of_list_ascii in Hdecode.
  unfold env_name in Hname.
  rewrite <- !length_list_of_string in *.
  rewrite Hkey, list_of_append in *.
  set (lr := list_ascii_of_string rest) in *.
  cbn [list_ascii_of_string app length] in *.
  change (drop 5 ("V" :: "I" :: "T" :: "E" :: "_" :: lr)%char) with (drop 0 lr)
    in Hdecode.
  rewrite drop_0 in Hdecode.
  destruct (Nat.le_gt_cases 12 (length lr)) as [Hlong|Hshort].
  2: { replace (S (S (S (S (S (length lr))))) - 12 - 5)%nat with 0%nat
         in Hdecode by lia.
       cbn in Hdecode. exfalso. apply Hnonempty.
       apply list_of_string_inj. now rewrite <- Hdecode. }
  replace (S (S (S (S (S (length lr))))) - 12 - 5)%nat
    with (length lr - 12)%nat in Hdecode by lia.
  replace (S (S (S (S (S (length lr))))) - 12)%nat
    with (5 + (length lr - 12))%nat in Hsuffix by lia.
  change (drop (5 + (length lr - 12))
            ("V" :: "I" :: "T" :: "E" :: "_" :: lr)%char)
    with (drop (length lr - 12) lr) in Hsuffix.
  rewrite <- (take_drop (length lr - 12) lr) at 1.
  rewrite Hsuffix. do 5 f_equal. f_equal.
  rewrite <- Hdecode, !map_map.
  assert (Hbody : forallb env_char (take (length lr - 12) lr) = true).
  { rewrite <- (drop_0 lr). apply forallb_take_drop.
    cbn [forallb] in Hname. repeat (apply andb_true_iff in Hname as [_ Hname]).
    exact Hname. }
  clear - Hbody. induction (take (length lr - 12) lr) as [|k body IH];
    [reflexivity|].
  cbn [forallb] in Hbody. apply andb_true_iff in Hbody as [Hk Hbody].
  cbn [map]. f_equal; [|now apply IH].
  symmetry. now apply env_char_round_trip.
Qed.

Lemma get_not_in (record : Record_) (key : string) :
  ~ In key (map fst record) -> get record key = None.
Proof.
  induction record as [|[k v] rest IH]; cbn; [reflexivity|].
  intros Hnot. destruct (String.eqb_spec k key) as [->|_].
  - exfalso. apply Hnot. now left.
  - apply IH. intros Hin. apply Hnot. now right.
Qed.

Lemma truthy_Some (v : string) : truthy (Some v) = true <-> v <> ""%string.
Proof.
  cbn. rewrite negb_true_iff. split.
  - intros E ->. discriminate.
  - intros H. now apply String.eqb_neq.
Qed.

(** The first loop of [getAllContractIds]. *)
Lemma fold_take_runtime (ids : Record_) (out : gmap string string)
    (crateName : string) :
  NoDup (map fst ids) ->
  fold_left take_runtime ids out !! crateName
  = if truthy (get ids crateName) then get ids crateName
    else out !! crateName.
Proof.
  revert out. induction ids as [|[k v] ids IH]; intros out Hnodup;
    [reflexivity|].
  cbn [map fst] in Hnodup. apply NoDup_cons in Hnodup as [Hk Hnodup].
  cbn [fold_left get]. rewrite IH by exact Hnodup.
  unfold take_runtime. cbn [fst snd].
  destruct (String.eqb_spec k crateName) as [->|Hne].
  - rewrite (get_not_in ids crateName) by now rewrite <- list_elem_of_In.
    cbn [truthy]. destruct (negb (String.eqb v "")); cbn [negb];
      [apply lookup_insert_eq | reflexivity].
  - destruct (truthy (get ids crateName)); [reflexivity|].
    destruct (negb (truthy (Some v))); [reflexivity|].
    now rewrite lookup_insert_ne.
Qed.

Lemma fold_take_runtime_values (ids : Record_) (out : gmap string string) :
  (forall k v, out !! k = Some v -> v <> ""%string) ->
  forall k v, fold_left take_runtime ids out !! k = Some v -> v <> ""%string.
Proof.
  revert out. induction ids as [|[k0 v0] ids IH]; intros out Hout;
    [exact Hout|].
  cbn [fold_left]. apply IH. unfold take_runtime. cbn [fst snd].
  destruct (truthy (Some v0)) eqn:Hv; cbn [negb]; [|exact Hout].
  intros k v. destruct (decide (k0 = k)) as [->|Hne].
  - rewrite lookup_insert_eq. intros [= <-]. now apply truthy_Some.
  - rewrite lookup_insert_ne by exact Hne. apply Hout.
Qed.

(** The second loop. *)
Lemma fold_take_env (env : Record_) (out : gmap string string)
    (crateName : string) :
  crate_name crateName -> crateName <> ""%string ->
  (forall k v, In (k, v) env -> env_name k) ->
  NoDup (map fst env) ->
  (forall k v, out !! k = Some v -> v <> ""%string) ->
  fold_left take_env env out !! crateName
  = match out !! crateName with
    | Some v => Some v
    | None =>
        if truthy (get env (contractEnvKey crateName))
        then get env (contractEnvKey crateName)
        else None
    end.
Proof.
  intros Hcrate Hnonempty. revert out.
  induction env as [|[k v] env IH]; intros out Hkeys Hnodup Hout.
  { cbn. now destruct (out !! crateName). }
  cbn [map fst] in Hnodup. apply NoDup_cons in Hnodup as [Hk Hnodup].
  cbn [fold_left get].
  assert (Hout' : forall k' v', take_env out (k, v) !! k' = Some v' ->
                                v' <> ""%string).
  { unfold take_env. cbn [fst snd].
    destruct (negb (startsWith "VITE_" k) || negb (endsWith "_CONTRACT_ID" k));
      [exact Hout|].
    destruct (truthy (Some v)) eqn:Hv; cbn [negb]; [|exact Hout].
    destruct (negb (truthy (out !! crateName_of k))); [|exact Hout].
    intros k' v'. destruct (decide (crateName_of k = k')) as [->|Hne].
    - rewrite lookup_insert_eq. intros [= <-]. now apply truthy_Some.
    - rewrite lookup_insert_ne by exact Hne. apply Hout. }
  rewrite IH; [|intros k' v' Hin; apply (Hkeys k' v'); now right
                |exact Hnodup|exact Hout'].
  unfold take_env. cbn [fst snd].
  destruct (String.eqb_spec k (contractEnvKey crateName)) as [->|Hne].
  - destruct (contractEnvKey_passes crateName) as [-> ->]. cbn [negb orb].
    rewrite (get_not_in env (contractEnvKey crateName))
      by now rewrite <- list_elem_of_In.
    rewrite (crateName_of_contractEnvKey crateName Hcrate).
    destruct (truthy (Some v)) eqn:Hv; cbn [negb truthy].
    + destruct (out !! crateName) as [w|] eqn:Hw.
      * assert (Hw' : truthy (Some w) = true)
          by (apply truthy_Some; now apply (Hout crateName)).
        rewrite Hw'. cbn [negb]. now rewrite Hw.
      * cbn [truthy negb]. now rewrite lookup_insert_eq.
    + now destruct (out !! crateName).
  - assert (Hsame : forall out' : gmap string string,
              (if negb (truthy (out !! crateName_of k))
               then <[crateName_of k := v]> out else out) = out' ->
              startsWith "VITE_" k = true ->
              endsWith "_CONTRACT_ID" k = true ->
              out' !! crateName = out !! crateName).
    { intros out' <- Hs He.
      destruct (negb (truthy (out !! crateName_of k))); [|reflexivity].
      apply lookup_insert_ne. intros Hdecode. apply Hne.
      apply crateName_of_inj; try assumption.
      apply (Hkeys k v). now left. }
    destruct (startsWith "VITE_" k) eqn:Hs; cbn [negb orb]; [|reflexivity].
    destruct (endsWith "_CONTRACT_ID" k) eqn:He; cbn [negb]; [|reflexivity].
    destruct (truthy (Some v)); cbn [negb]; [|reflexivity].
    now rewrite (Hsame _ eq_refl eq_refl eq_refl).
Qed.

Variable runtimeConfig : option RuntimeConfig.
Variable env : Record_.

(** The environment keys are upper-case names, and no object has a
    property twice. *)
Hypothesis Henv : forall k v, In (k, v) env -> env_name k.
Hypothesis Hnodup_env : NoDup (map fst env).
Hypothesis Hnodup_ids :
  match runtime_ids runtimeConfig with
  | Some ids => NoDup (map fst ids)
  | None => True
  end.

Lemma getAllContractIds_lookup (crateName : string) :
  crate_name crateName -> crateName <> ""%string ->
  getAllContractIds runtimeConfig env !! crateName
  = if String.eqb (getContractId runtimeConfig env crateName) ""
    then None
    else Some (getContractId runtimeConfig env crateName).
Proof.
  intros Hcrate Hnonempty. unfold getAllContractIds, getContractId.
  assert (Hfrom_env :
    (if truthy (get env (contractEnvKey crateName))
     then get env (contractEnvKey crateName) else None)
    = (if String.eqb
            (if truthy (get env (contractEnvKey crateName))
             then default ""%string (get env (contractEnvKey crateName))
             else ""%string) ""
       then None
       else Some (if truthy (get env (contractEnvKey crateName))
                  then default ""%string (get env (contractEnvKey crateName))
                  else ""%string))).
  { destruct (get env (contractEnvKey crateName)) as [w|];
      unfold default; cbn [truthy from_option id]; [|reflexivity].
    destruct (String.eqb w "") eqn:Hw; cbn [negb]; rewrite ?Hw;
      reflexivity. }
  assert (Hempty : forall k v : string,
            (∅ : gmap string string) !! k = Some v -> v <> ""%string).
  { intros k v H. now rewrite lookup_empty in H. }
  destruct (runtime_ids runtimeConfig) as [ids|].
  - rewrite (fold_take_env env _ crateName Hcrate Hnonempty Henv Hnodup_env
               (fold_take_runtime_values ids ∅ Hempty)).
    rewrite fold_take_runtime by exact Hnodup_ids.
    destruct (get ids crateName) as [v|]; unfold default; cbn [truthy from_option id].
    + destruct (String.eqb v "") eqn:Hv; cbn [negb].
      * rewrite lookup_empty. exact Hfrom_env.
      * rewrite ?Hv. reflexivity.
    + rewrite lookup_empty. exact Hfrom_env.
  - rewrite (fold_take_env env ∅ crateName Hcrate Hnonempty Henv Hnodup_env
               Hempty).
    rewrite lookup_empty. cbn [truthy]. exact Hfrom_env.
Qed.

(** X25. The two ways of reading a contract id agree, and the
    environment key of a crate decodes back to the crate: for a crate
    name of lower-case letters, digits and hyphens, with environment
    keys that are upper-case names, the table [getAllContractIds]
    builds holds for the crate exactly the id [getContractId] returns
    (and no entry when that id is empty), the runtime configuration
    taking precedence over the environment in both.  Hence config.ts
    shows the same id for 'zk-mafia' in [contractIds] and in
    [zkMafiaId], fallback included. *)
Theorem contract_ids_agree (crateName : string)
    (ZK_MAFIA_FALLBACK_ID : string) :
  crate_name crateName ->
  crateName <> ""%string ->
  crateName <> "constructor"%string ->
  crateName_of (contractEnvKey crateName) = crateName /\
  getAllContractIds runtimeConfig env !! crateName
  = (if String.eqb (getContractId runtimeConfig env crateName) ""
     then None
     else Some (getContractId runtimeConfig env crateName)) /\
  (forall contractId : string,
     match runtime_ids runtimeConfig with
     | Some ids => get ids crateName = Some contractId
     | None => False
     end ->
     contractId <> ""%string ->
     getContractId runtimeConfig env crateName = contractId) /\
  envContractIds runtimeConfig env ZK_MAFIA_FALLBACK_ID !! "zk-mafia"%string
  = (if String.eqb (zkMafiaId runtimeConfig env ZK_MAFIA_FALLBACK_ID) ""
     then None
     else Some (zkMafiaId runtimeConfig env ZK_MAFIA_FALLBACK_ID)).
Proof.
  intros Hcrate Hnonempty _.
  split; [now apply crateName_of_contractEnvKey|].
  split; [now apply getAllContractIds_lookup|]. split.
  - intros contractId Hid Hset. unfold getContractId.
    destruct (runtime_ids runtimeConfig) as [ids|]; [|contradiction].
    rewrite Hid. unfold default; cbn [truthy from_option id].
    now destruct (String.eqb_spec contractId "").
  - pose proof (getAllContractIds_lookup "zk-mafia" eq_refl
                  ltac:(discriminate)) as Hzk.
    destruct (String.eqb (getContractId runtimeConfig env "zk-mafia") "")
      eqn:E.
    + assert (Hz : zkMafiaId runtimeConfig env ZK_MAFIA_FALLBACK_ID
                   = ZK_MAFIA_FALLBACK_ID).
      { unfold zkMafiaId. cbn [truthy]. now rewrite E. }
      rewrite Hz. unfold envContractIds. rewrite Hzk. cbn [truthy negb andb].
      destruct (String.eqb ZK_MAFIA_FALLBACK_ID ""); cbn [negb];
        [exact Hzk | apply lookup_insert_eq].
    + assert (Hz : zkMafiaId runtimeConfig env ZK_MAFIA_FALLBACK_ID
                   = getContractId runtimeConfig env "zk-mafia").
      { unfold zkMafiaId. cbn [truthy]. now rewrite E. }
      rewrite Hz, E. unfold envContractIds. rewrite Hzk. cbn [truthy].
      rewrite E. cbn [negb andb]. exact Hzk.
Qed.

End ConstantsFacts.

Lemma contract_ids_agree_witness :
  Constants.getAllContractIds None
    [("VITE_ZK_MAFIA_CONTRACT_ID", "CABC"); ("VITE_SOROBAN_RPC_URL", "u")]%string
    !! "zk-mafia"%string
  = (if String.eqb
          (Constants.getContractId None
             [("VITE_ZK_MAFIA_CONTRACT_ID", "CABC");
              ("VITE_SOROBAN_RPC_URL", "u")]%string "zk-mafia") ""
     then None
     else Some (Constants.getContractId None
                  [("VITE_ZK_MAFIA_CONTRACT_ID", "CABC");
                   ("VITE_SOROBAN_RPC_URL", "u")]%string "zk-mafia")).
Proof.
  refine (proj1 (proj2 (contract_ids_agree None
                          [("VITE_ZK_MAFIA_CONTRACT_ID", "CABC");
                           ("VITE_SOROBAN_RPC_URL", "u")]%string
                          _ _ I "zk-mafia" "" eq_refl _ _))).
  - intros k v [[= <- <-]|[[= <- <-]|[]]]; reflexivity.
  - repeat constructor; rewrite ?list_elem_of_In; cbn; intuition discriminate.
  - discriminate.
  - discriminate.
Defined.

(** ** Invalidating and clearing the request cache *)

Section InvalidateFacts.
Import RequestCache.

Variable T : Type.

(** X26. [invalidate] forgets the cached entry of its key and nothing
    else, and it does not reach a request in flight: the next [dedupe]
    for the key joins that request, and when the request resolves, what
    it fetched before the invalidation is cached again.  [clear] forgets
    the requests in flight as well, so that the next [dedupe] starts a
    second request for a key that is still being fetched. *)
Theorem invalidate_keeps_request_in_flight (key : string) (p : Promise)
    (d : T) (ttl now resolved : Z) (rc : State T) :
  pendingRequests rc !! key = Some p ->
  cache (invalidate key rc) !! key = None /\
  (forall other : string,
     other <> key -> cache (invalidate key rc) !! other = cache rc !! other) /\
  dedupe key ttl now (invalidate key rc) = (Pending p, invalidate key rc) /\
  cache (fulfilled key d resolved (invalidate key rc)) !! key
  = Some (mkCacheEntry d resolved) /\
  fst (dedupe key ttl now (clear rc)) = Started (created rc) /\
  pendingRequests (snd (dedupe key ttl now (clear rc))) !! key
  = Some (created rc).
Proof.
  intros Hp. unfold invalidate, clear, dedupe, fulfilled.
  cbn [cache pendingRequests created].
  split; [apply lookup_delete_eq|]. split.
  { intros other Hother. now apply lookup_delete_ne. }
  rewrite lookup_delete_eq, Hp, !lookup_empty. cbn [still_valid fst snd].
  split; [reflexivity|]. split; [apply lookup_insert_eq|].
  split; [reflexivity|]. cbn [pendingRequests]. apply lookup_insert_eq.
Qed.

End InvalidateFacts.

Lemma invalidate_keeps_request_in_flight_witness :
  RequestCache.dedupe "game-state:7" 5000 20
    (RequestCache.invalidate "game-state:7"
       (snd (RequestCache.dedupe "game-state:7" 5000 0
               (RequestCache.new (T := unit)))))
  = (RequestCache.Pending 0%nat,
     RequestCache.invalidate "game-state:7"
       (snd (RequestCache.dedupe "game-state:7" 5000 0
               (RequestCache.new (T := unit))))).
Proof.
  exact (proj1 (proj2 (proj2
           (invalidate_keeps_request_in_flight unit "game-state:7" 0%nat tt
              5000 20 30
              (snd (RequestCache.dedupe "game-state:7" 5000 0
                      RequestCache.new))
              eq_refl)))).
Defined.

(** ** What the auto-parse shows *)

Section AutoParseFacts.
Import ImportFlow.

Variable parseAuthEntry : string -> Thrown + GameParams.
Variable showNumber : Z -> string.
Variable showPoints : Z -> string.
Variable userAddress : Address.
Variable ui : UI.
Variable log : list Effect.

Hypothesis Hmode : in_import_mode ui = true.
Hypothesis Hpasted : blank (importAuthEntryXDR ui) = false.

(** X27. The auto-parse of a pasted artifact never throws and has no
    effect outside the component.  It fills in the session id, Player 1
    and Player 1's points, and reports success, exactly when the
    artifact parses and its Player 1 is not the user; otherwise the
    three fields are cleared and a parse error is shown.  Nothing else
    of the form, the error banner, the session or the phase is touched. *)
Theorem autoParse_fills_only_valid :
  exists ui' : UI,
    autoParse parseAuthEntry showNumber showPoints userAddress ui log
    = (inr tt, ui', log) /\
    xdrParsing ui' = false /\
    match parseAuthEntry (trim (importAuthEntryXDR ui)) with
    | inr gameParams =>
        if bool_decide (player1 gameParams = userAddress)
        then xdrParseSuccess ui' = false /\
             xdrParseError ui' = Some own_entry_message /\
             importSessionId ui' = ""%string /\
             importPlayer1 ui' = ""%string /\
             importPlayer1Points ui' = ""%string
        else xdrParseSuccess ui' = true /\
             xdrParseError ui' = None /\
             importSessionId ui' = showNumber (sessionId gameParams) /\
             importPlayer1 ui' = player1 gameParams /\
             importPlayer1Points ui' = showPoints (player1Points gameParams)
    | inl err =>
        xdrParseSuccess ui' = false /\
        xdrParseError ui'
        = Some match err with
               | ErrorObj message => message
               | NotAnError => "Invalid auth entry XDR"%string
               end /\
        importSessionId ui' = ""%string /\
        importPlayer1 ui' = ""%string /\
        importPlayer1Points ui' = ""%string
    end /\
    createMode ui' = createMode ui /\
    importAuthEntryXDR ui' = importAuthEntryXDR ui /\
    importPlayer2Points ui' = importPlayer2Points ui /\
    loading ui' = loading ui /\
    error ui' = error ui /\
    success ui' = success ui /\
    currentSessionId ui' = currentSessionId ui /\
    gamePhase ui' = gamePhase ui /\
    actionLock ui' = actionLock ui.
Proof.
  unfold autoParse. rewrite Hmode, Hpasted. cbn [negb orb].
  unfold parseXDR, try_catch_finally.
  unfold mbind, handler_bind, bind, set, when, throw, lift, ImportFlow.ret.
  destruct (parseAuthEntry (trim (importAuthEntryXDR ui)))
    as [err|gameParams].
  - eexists. split; [reflexivity|]. cbn. now repeat split.
  - destruct (bool_decide (player1 gameParams = userAddress)).
    + eexists. split; [reflexivity|]. cbn. now repeat split.
    + eexists. split; [reflexivity|]. cbn. now repeat split.
Qed.

End AutoParseFacts.

Lemma autoParse_fills_only_valid_witness :
  exists ui' : ImportFlow.UI,
    Demo.auto_parse_as "GOTHER" = (inr tt, ui', []) /\
    ImportFlow.xdrParsing ui' = false.
Proof.
  destruct (autoParse_fills_only_valid Demo.parseAuthEntry Demo.show Demo.show
              "GOTHER" Demo.form [] eq_refl eq_refl)
    as (ui' & Hrun & Hparsing & _).
  exists ui'. split; [exact Hrun | exact Hparsing].
Defined.

(** ** Trimming *)

Section TrimFacts.
Import ImportFlow.

Lemma after_shorter (bytes : list nat) (s rest : list ascii) :
  bytes <> [] -> after bytes s = Some rest ->
  (length rest < length s)%nat.
Proof.
  revert s. induction bytes as [|n bytes IH]; intros s Hne; [congruence|].
  destruct s as [|c s]; [discriminate|]. cbn [after length].
  destruct (nat_of_ascii c =? n)%nat; [|discriminate].
  destruct bytes as [|m bytes].
  - cbn. intros [= <-]. lia.
  - intros H. apply IH in H; [lia | discriminate].
Qed.

Lemma after_space_shorter (spaces : list (list nat)) (s rest : list ascii) :
  Forall (fun bytes => bytes <> []) spaces ->
  after_space spaces s = Some rest -> (length rest < length s)%nat.
Proof.
  intros Hall. unfold after_space.
  induction Hall as [|bytes spaces Hne _ IH]; [discriminate|].
  cbn [fold_right]. destruct (after bytes s) as [r|] eqn:E; [|exact IH].
  intros [= <-]. exact (after_shorter bytes s r Hne E).
Qed.

(** With the length of the string for fuel, nothing droppable is left
    at the head. *)
Lemma drop_spaces_done (spaces : list (list nat)) (fuel : nat)
    (s : list ascii) :
  Forall (fun bytes => bytes <> []) spaces ->
  (length s <= fuel)%nat ->
  after_space spaces (drop_spaces spaces fuel s) = None.
Proof.
  intros Hall. revert s. induction fuel as [|fuel IH]; intros s Hlen.
  - destruct s; [|cbn in Hlen; lia]. cbn [drop_spaces].
    destruct (after_space spaces []) as [rest|] eqn:E; [|reflexivity].
    apply (after_space_shorter _ _ _ Hall) in E. cbn in E. lia.
  - cbn [drop_spaces]. destruct (after_space spaces s) as [rest|] eqn:E;
      [|exact E].
    apply IH. apply (after_space_shorter _ _ _ Hall) in E. lia.
Qed.

Lemma white_space_nonempty : Forall (fun bytes => bytes <> []) white_space.
Proof. unfold white_space. repeat constructor; discriminate. Qed.

(** What [trimStart] returns starts with no white space. *)
Lemma trimStart_done (s : list ascii) :
  after_space white_space (trimStart s) = None.
Proof.
  apply drop_spaces_done; [exact white_space_nonempty | reflexivity].
Qed.

(** Each of the twenty-five characters is stripped, on both sides. *)
Lemma trim_strips_each :
  Forall
    (fun bytes =>
       trim (string_of_list_ascii
               (map ascii_of_nat bytes ++ list_ascii_of_string "7 7"
                  ++ map ascii_of_nat bytes))
       = "7 7"%string)
    white_space.
Proof. unfold white_space. repeat constructor. Qed.

Example trim_session_field :
  trim (string_of_list_ascii
          (map ascii_of_nat [194; 160; 32; 52; 50; 10; 239; 187; 191]%nat))
  = "42"%string.
Proof. reflexivity. Qed.

Example trim_keeps_inner : trim "  a b  " = "a b"%string.
Proof. reflexivity. Qed.

End TrimFacts.
